(** * Agent task orchestration and its execution sandbox

    A shallow embedding of the agent core of the editor:

    - [src/vs/services/ai/node/agentSandbox.ts]      (module [Sandbox])
    - [src/vs/services/ai/node/agentServiceImpl.ts]  (module [Agent])
    - the data types of [src/vs/services/ai/common/agentService.ts]

    Asynchronous code is modelled by explicit state passing: every [await]
    on a collaborator is a point where the environment supplies the
    collaborator's answer, and where other operations may interleave.
    JavaScript exceptions are the [Throw] branch of [Outcome]. *)

From Stdlib Require Import ZArith NArith Ascii String Bool Lia.
From stdpp Require Import gmap strings list pretty.

Local Open Scope string_scope.

(** ** JavaScript values and built-ins used by the two files *)

Module JS.

(** [s.startsWith(p)] *)
Definition startsWith (s p : string) : bool := String.prefix p s.

(** [s.endsWith(p)] *)
Definition endsWith (s p : string) : bool :=
  String.prefix (String.rev p) (String.rev s).

(** [s.slice(1, -1)]: drops the first and the last character; the empty
    string when [s] has fewer than two characters. *)
Definition slice_1_m1 (s : string) : string :=
  String.substring 1 (String.length s - 2) s.

(** [s.includes(sub)] *)
Fixpoint includes (s sub : string) : bool :=
  String.prefix sub s ||
  match s with
  | String _ s' => includes s' sub
  | EmptyString => false
  end.

(** [xs.join(sep)] *)
Fixpoint join (sep : string) (xs : list string) : string :=
  match xs with
  | [] => ""
  | [x] => x
  | x :: rest => x +:+ sep +:+ join sep rest
  end.

(** The double quote character (a string literal cannot hold it). *)
Definition dquote : string := String (ascii_of_nat 34) EmptyString.

(** A value that is a number or a string, as [error.code] is. *)
Inductive Code :=
| Num (z : Z)
| Str (s : string).

(** Truthiness of the values that appear on the left of [||]. *)
Definition truthy_string (s : string) : bool := negb (String.eqb s "").

Definition truthy_code (c : Code) : bool :=
  match c with
  | Num z => negb (Z.eqb z 0)
  | Str s => truthy_string s
  end.

(** [o || d] for a possibly undefined string [o]. *)
Definition or_string (o : option string) (d : string) : string :=
  match o with
  | Some s => if truthy_string s then s else d
  | None => d
  end.

(** [o || d] for a possibly undefined (or null) code [o]. *)
Definition or_code (o : option Code) (d : Code) : Code :=
  match o with
  | Some c => if truthy_code c then c else d
  | None => d
  end.

(** An [Error] object, with the extra fields that [child_process.exec]
    attaches to its rejections. *)
Record Error := mkError {
  name : string;
  message : string;
  code : option Code;
  stdout : option string;
  stderr : option string;
}.

(** [new Error(msg)] *)
Definition newError (msg : string) : Error := mkError "Error" msg None None None.

(** What a [throw] (or a rejected promise) carries: an [Error] object, or a
    primitive value given by its string conversion. *)
Inductive Thrown :=
| Err (e : Error)
| Prim (repr : string).

(** [String(t)]; for an error object this is [Error.prototype.toString]. *)
Definition String_of (t : Thrown) : string :=
  match t with
  | Err e =>
      if String.eqb (name e) "" then message e
      else if String.eqb (message e) "" then name e
      else name e +:+ ": " +:+ message e
  | Prim r => r
  end.

(** Property reads [t.message], [t.stdout], [t.stderr], [t.code]; a
    primitive has none of them. *)
Definition message_of (t : Thrown) : option string :=
  match t with Err e => Some (message e) | Prim _ => None end.
Definition stdout_of (t : Thrown) : option string :=
  match t with Err e => stdout e | Prim _ => None end.
Definition stderr_of (t : Thrown) : option string :=
  match t with Err e => stderr e | Prim _ => None end.
Definition code_of (t : Thrown) : option Code :=
  match t with Err e => code e | Prim _ => None end.

(** [t instanceof Error ? t.message : String(t)] *)
Definition error_text (t : Thrown) : string :=
  match t with
  | Err e => message e
  | Prim _ => String_of t
  end.

(** The result of running a piece of code: a value, or an exception. *)
Inductive Outcome (A : Type) :=
| Return (a : A)
| Throw (t : Thrown).
Arguments Return {A} a.
Arguments Throw {A} t.

End JS.

(** ** Regular-expression literals

    The regular expressions written in the source use a small part of the
    JavaScript syntax: a sequence of single-character atoms (a literal, an
    escape, a class in brackets), each followed by at most one of the
    quantifiers [*], [+], [?].  [parse] reads that part of the syntax,
    [exec] is the backtracking matcher (greedy, leftmost) and [test] its
    boolean result.

    A string of the program is held as its UTF-8 encoding, and the matcher
    reads it character by character: [UTF8.uncons] decodes the character at
    the head of a string, and the sets of characters are sets of code points.
    So [\s] accepts the white space and the line terminators of ECMAScript,
    those outside ASCII included.  A character of the Basic Multilingual
    Plane is one code unit for JavaScript and one character here; a
    character outside it, two code units for JavaScript, is one character
    here, which no literal, class or escape of the source tells apart.  The
    lengths that the matcher returns are numbers of bytes. *)

Module UTF8.

Local Open Scope N_scope.

(** A byte of the form [10xxxxxx]. *)
Definition continuation (b : ascii) : bool :=
  (0x80 <=? N_of_ascii b) && (N_of_ascii b <=? 0xBF).

Definition low6 (b : ascii) : N := N.land (N_of_ascii b) 0x3F.

(** The code point of a well-formed sequence of two, three or four bytes: a
    lead byte of the form [110xxxxx], [1110xxxx] or [11110xxx], continuation
    bytes after it, and a code point that has no shorter encoding, is no
    surrogate and is at most U+10FFFF. *)
Definition decode2 (b1 b2 : ascii) : option N :=
  if (0xC0 <=? N_of_ascii b1) && (N_of_ascii b1 <=? 0xDF) && continuation b2
  then
    let x := N.land (N_of_ascii b1) 0x1F * 64 + low6 b2 in
    if 0x80 <=? x then Some x else None
  else None.

Definition decode3 (b1 b2 b3 : ascii) : option N :=
  if (0xE0 <=? N_of_ascii b1) && (N_of_ascii b1 <=? 0xEF)
     && continuation b2 && continuation b3
  then
    let x := N.land (N_of_ascii b1) 0x0F * 4096 + low6 b2 * 64 + low6 b3 in
    if (0x800 <=? x) && negb ((0xD800 <=? x) && (x <=? 0xDFFF)) then Some x else None
  else None.

Definition decode4 (b1 b2 b3 b4 : ascii) : option N :=
  if (0xF0 <=? N_of_ascii b1) && (N_of_ascii b1 <=? 0xF7)
     && continuation b2 && continuation b3 && continuation b4
  then
    let x := N.land (N_of_ascii b1) 0x07 * 262144 + low6 b2 * 4096
             + low6 b3 * 64 + low6 b4 in
    if (0x10000 <=? x) && (x <=? 0x10FFFF) then Some x else None
  else None.

(** U+FFFD, which a decoder gives for a byte that begins no well-formed
    sequence. *)
Definition replacement : N := 0xFFFD.

Definition is_ascii (b : ascii) : bool := N_of_ascii b <? 0x80.

(** A byte read alone. *)
Definition single (b : ascii) : N :=
  if is_ascii b then N_of_ascii b else replacement.

(** [uncons s char none]: [char x w rest] for the character [x] at the head
    of [s], the number [w] of its bytes and what follows it; [none] when [s]
    is empty.  The result is passed on rather than returned, so that a
    function can recur on [rest]. *)
Definition uncons {A : Type} (s : string) (char : N -> nat -> string -> A) (none : A) : A :=
  match s with
  | EmptyString => none
  | String b1 s1 =>
      match s1 with
      | String b2 s2 =>
          match decode2 b1 b2 with
          | Some x => char x 2%nat s2
          | None =>
              match s2 with
              | String b3 s3 =>
                  match decode3 b1 b2 b3 with
                  | Some x => char x 3%nat s3
                  | None =>
                      match s3 with
                      | String b4 s4 =>
                          match decode4 b1 b2 b3 b4 with
                          | Some x => char x 4%nat s4
                          | None => char (single b1) 1%nat s1
                          end
                      | EmptyString => char (single b1) 1%nat s1
                      end
                  end
              | EmptyString => char (single b1) 1%nat s1
              end
          end
      | EmptyString => char (single b1) 1%nat s1
      end
  end.

End UTF8.

Module Regex.

Inductive Quant := One | Star | Plus | Opt.

(** Sets of characters. *)
Inductive CharSet :=
| Lit (c : ascii)
| Space
| Digit
| Word
| Dot
| Nothing
| Neg (m : CharSet)
| Union (m1 m2 : CharSet).

Record Atom := mkAtom {
  cset : CharSet;
  quant : Quant;
}.

Definition Pattern := list Atom.

(** The line terminators of ECMAScript: line feed, carriage return, line
    separator, paragraph separator. *)
Definition is_line_terminator (x : N) : bool :=
  (x =? 0x0A)%N || (x =? 0x0D)%N || (x =? 0x2028)%N || (x =? 0x2029)%N.

(** [\s]: the white space of ECMAScript (tab, vertical tab, form feed, the
    byte order mark U+FEFF and the space separators of Unicode: U+0020,
    U+00A0, U+1680, U+2000 to U+200A, U+202F, U+205F, U+3000) and its line
    terminators. *)
Definition is_space (x : N) : bool :=
  (x =? 0x09)%N || (x =? 0x0B)%N || (x =? 0x0C)%N || (x =? 0xFEFF)%N
  || (x =? 0x20)%N || (x =? 0xA0)%N || (x =? 0x1680)%N
  || ((0x2000 <=? x)%N && (x <=? 0x200A)%N)
  || (x =? 0x202F)%N || (x =? 0x205F)%N || (x =? 0x3000)%N
  || is_line_terminator x.

(** [\d] *)
Definition is_digit (x : N) : bool := (0x30 <=? x)%N && (x <=? 0x39)%N.

(** [\w] *)
Definition is_word (x : N) : bool :=
  is_digit x || ((0x41 <=? x)%N && (x <=? 0x5A)%N) || ((0x61 <=? x)%N && (x <=? 0x7A)%N)
  || (x =? 0x5F)%N.

(** [.]: anything but a line terminator. *)
Definition is_dot (x : N) : bool := negb (is_line_terminator x).

(** Whether the character with the code point [x] is in the set.  The
    literals are ASCII characters (see [parse_atom]). *)
Fixpoint accepts (m : CharSet) (x : N) : bool :=
  match m with
  | Lit c => (x =? N_of_ascii c)%N
  | Space => is_space x
  | Digit => is_digit x
  | Word => is_word x
  | Dot => is_dot x
  | Nothing => false
  | Neg m' => negb (accepts m' x)
  | Union m1 m2 => accepts m1 x || accepts m2 x
  end.

(** Punctuation: an escaped punctuation character stands for itself. *)
Definition is_punct (x : ascii) : bool :=
  let n := nat_of_ascii x in
  (Nat.leb 33 n && Nat.leb n 47) || (Nat.leb 58 n && Nat.leb n 64)
  || (Nat.leb 91 n && Nat.leb n 94) || Nat.eqb n 96
  || (Nat.leb 123 n && Nat.leb n 126).

(** The set that the character after a backslash denotes. *)
Definition escape (c : ascii) : option CharSet :=
  if Ascii.eqb c "s" then Some Space
  else if Ascii.eqb c "S" then Some (Neg Space)
  else if Ascii.eqb c "d" then Some Digit
  else if Ascii.eqb c "D" then Some (Neg Digit)
  else if Ascii.eqb c "w" then Some Word
  else if Ascii.eqb c "W" then Some (Neg Word)
  else if Ascii.eqb c "n" then Some (Lit (ascii_of_nat 10))
  else if Ascii.eqb c "r" then Some (Lit (ascii_of_nat 13))
  else if Ascii.eqb c "t" then Some (Lit (ascii_of_nat 9))
  else if is_punct c then Some (Lit c)
  else None.

(** The members of a class, after the opening bracket: returns the set and
    what follows the closing bracket. *)
Fixpoint parse_class (s : string) : option (CharSet * string) :=
  match s with
  | EmptyString => None
  | String c rest =>
      if Ascii.eqb c "]" then Some (Nothing, rest)
      else if Ascii.eqb c "\" then
        match rest with
        | String e rest' =>
            match escape e, parse_class rest' with
            | Some m, Some (ms, k) => Some (Union m ms, k)
            | _, _ => None
            end
        | EmptyString => None
        end
      else if Ascii.eqb c "-" || Ascii.eqb c "^" || Ascii.eqb c "["
              || negb (UTF8.is_ascii c) then None
      else
        match parse_class rest with
        | Some (ms, k) => Some (Union (Lit c) ms, k)
        | None => None
        end
  end.

(** Characters with a meaning of their own outside a class. *)
Definition is_meta (c : ascii) : bool :=
  existsb (Ascii.eqb c)
    ["*"; "+"; "?"; "("; ")"; "["; "]"; "{"; "}"; "|"; "^"; "$"; "\"; "."]%char.

(** One atom without its quantifier. *)
Definition parse_atom (s : string) : option (CharSet * string) :=
  match s with
  | EmptyString => None
  | String c rest =>
      if Ascii.eqb c "\" then
        match rest with
        | String e rest' =>
            match escape e with
            | Some m => Some (m, rest')
            | None => None
            end
        | EmptyString => None
        end
      else if Ascii.eqb c "." then Some (Dot, rest)
      else if Ascii.eqb c "[" then parse_class rest
      else if is_meta c || negb (UTF8.is_ascii c) then None
      else Some (Lit c, rest)
  end.

(** The quantifier that follows an atom, if any. *)
Definition parse_quant (s : string) : Quant * string :=
  match s with
  | String c rest =>
      if Ascii.eqb c "*" then (Star, rest)
      else if Ascii.eqb c "+" then (Plus, rest)
      else if Ascii.eqb c "?" then (Opt, rest)
      else (One, s)
  | EmptyString => (One, s)
  end.

(** [parse src]: the pattern written [src], or [None] when [src] is outside
    the part of the syntax described above.  The fuel bounds the number of
    atoms; every atom consumes a character. *)
Fixpoint parse_atoms (fuel : nat) (s : string) : option Pattern :=
  match s with
  | EmptyString => Some []
  | _ =>
      match fuel with
      | O => None
      | S fuel' =>
          match parse_atom s with
          | Some (m, rest) =>
              let '(q, rest') := parse_quant rest in
              match parse_atoms fuel' rest' with
              | Some p => Some (mkAtom m q :: p)
              | None => None
              end
          | None => None
          end
      end
  end.

Definition parse (src : string) : option Pattern :=
  parse_atoms (String.length src) src.

(** Greedy iteration of a set, then the continuation [k]: the longest run
    is tried first, as a backtracking matcher does.  The result is the number
    of bytes consumed. *)
Fixpoint star (m : CharSet) (k : string -> option nat) (s : string)
  : option nat :=
  UTF8.uncons s
    (fun x w rest =>
       if accepts m x then
         match star m k rest with
         | Some n => Some (w + n)
         | None => k s
         end
       else k s)
    (k s).

(** A match of the whole pattern at the start of [s]. *)
Fixpoint match_here (p : Pattern) : string -> option nat :=
  match p with
  | [] => fun _ => Some 0
  | a :: p' =>
      let k := match_here p' in
      match quant a with
      | One => fun s =>
          UTF8.uncons s
            (fun x w rest => if accepts (cset a) x then Nat.add w <$> k rest else None)
            None
      | Opt => fun s =>
          UTF8.uncons s
            (fun x w rest =>
               if accepts (cset a) x then
                 match k rest with
                 | Some n => Some (w + n)
                 | None => k s
                 end
               else k s)
            (k s)
      | Star => star (cset a) k
      | Plus => fun s =>
          UTF8.uncons s
            (fun x w rest =>
               if accepts (cset a) x then Nat.add w <$> star (cset a) k rest else None)
            None
      end
  end.

(** [exec p s]: the leftmost match, as the matched text (element 0 of the
    array that [s.match(p)] returns).  A match is tried where a character
    begins. *)
Fixpoint exec (p : Pattern) (s : string) : option string :=
  match match_here p s with
  | Some n => Some (String.substring 0 n s)
  | None => UTF8.uncons s (fun _ _ rest => exec p rest) None
  end.

(** [p.test(s)] *)
Definition test (p : Pattern) (s : string) : bool :=
  match exec p s with Some _ => true | None => false end.

(** A regular-expression literal of the source, by its text.  Every literal
    below is inside the syntax [parse] reads (see [literals_parse]); a text
    outside it would denote the pattern that matches nothing. *)
Definition literal (src : string) : Pattern :=
  match parse src with
  | Some p => p
  | None => [mkAtom Nothing One]
  end.

(** The constructor [new RegExp(src)] restricted to the same syntax: used
    where a concrete engine is needed to run the model. *)
Definition RegExp_basic (src : string) : option (string -> bool) :=
  test <$> parse src.

End Regex.

(** ** SHA-256 (FIPS 180-4), as [crypto.createHash('sha256')] computes it

    Words are 32-bit values held in [N]; every addition is reduced modulo
    2^32.  The message is the byte string given to [update]. *)

Module SHA256.

Local Open Scope N_scope.

Definition mask32 : N := 0xFFFFFFFF.
Definition add32 (a b : N) : N := N.land (a + b) mask32.
Definition rotr (n x : N) : N :=
  N.lor (N.shiftr x n) (N.land (N.shiftl x (32 - n)) mask32).
Definition shr (n x : N) : N := N.shiftr x n.
Definition not32 (x : N) : N := N.lxor x mask32.

Definition Ch (x y z : N) : N := N.lxor (N.land x y) (N.land (not32 x) z).
Definition Maj (x y z : N) : N :=
  N.lxor (N.lxor (N.land x y) (N.land x z)) (N.land y z).
Definition Sigma0 (x : N) : N := N.lxor (N.lxor (rotr 2 x) (rotr 13 x)) (rotr 22 x).
Definition Sigma1 (x : N) : N := N.lxor (N.lxor (rotr 6 x) (rotr 11 x)) (rotr 25 x).
Definition sigma0 (x : N) : N := N.lxor (N.lxor (rotr 7 x) (rotr 18 x)) (shr 3 x).
Definition sigma1 (x : N) : N := N.lxor (N.lxor (rotr 17 x) (rotr 19 x)) (shr 10 x).

(** The constants of the standard are fractional parts of roots of the
    first primes: the first 32 bits of the fractional part of the square
    root of each of the first eight primes for the initial hash value, and of
    the cube root of each of the first sixty-four for the round constants. *)
Definition is_prime (n : N) : bool :=
  (1 <? n) && forallb (fun d => negb (n mod d =? 0)) (N.of_nat <$> seq 2 (N.to_nat n - 2)).

Definition primes : list N :=
  Eval vm_compute in List.filter is_prime (N.of_nat <$> seq 2 310).

(** The integer cube root of [x], found bit by bit from bit [bits - 1] down. *)
Fixpoint cube_root (bits : nat) (x acc : N) : N :=
  match bits with
  | O => acc
  | S bits' =>
      let candidate := N.lor acc (N.shiftl 1 (N.of_nat bits')) in
      cube_root bits' x (if candidate * candidate * candidate <=? x then candidate else acc)
  end.

Definition K : list N :=
  Eval vm_compute in
    (fun p => N.land (cube_root 36 (N.shiftl p 96) 0) mask32) <$> primes.

Definition H0 : list N :=
  Eval vm_compute in
    (fun p => N.land (N.sqrt (N.shiftl p 64)) mask32) <$> take 8 primes.

Definition bytes_of_string (s : string) : list N :=
  N_of_ascii <$> list_ascii_of_string s.

(** The bytes of [x], most significant first, [n] of them. *)
Fixpoint big_endian (n : nat) (x : N) : list N :=
  match n with
  | O => []
  | S n' => big_endian n' (N.shiftr x 8) ++ [N.land x 0xFF]
  end.

(** Padding: the bit 1, zeros up to 56 modulo 64, the bit length on 8 bytes. *)
Definition pad (msg : list N) : list N :=
  let len := List.length msg in
  let zeros := ((119 - len mod 64) mod 64)%nat in
  msg ++ [0x80] ++ List.repeat 0 zeros ++ big_endian 8 (8 * N.of_nat len).

(** Big-endian 32-bit words of a byte list. *)
Fixpoint words (fuel : nat) (bs : list N) : list N :=
  match fuel, bs with
  | S fuel', b0 :: b1 :: b2 :: b3 :: rest =>
      (N.shiftl b0 24 + N.shiftl b1 16 + N.shiftl b2 8 + b3) :: words fuel' rest
  | _, _ => []
  end.

(** The message schedule, newest word first. *)
Fixpoint extend (n : nat) (w : list N) : list N :=
  match n with
  | O => w
  | S n' =>
      let x := add32 (add32 (sigma1 (nth 1 w 0)) (nth 6 w 0))
                     (add32 (sigma0 (nth 14 w 0)) (nth 15 w 0)) in
      extend n' (x :: w)
  end.

Definition schedule (block : list N) : list N := rev (extend 48 (rev block)).

Record Regs := mkRegs { ra : N; rb : N; rc : N; rd : N; re : N; rf : N; rg : N; rh : N }.

Definition round (r : Regs) (kw : N * N) : Regs :=
  let t1 := add32 (add32 (add32 (rh r) (Sigma1 (re r)))
                         (add32 (Ch (re r) (rf r) (rg r)) (fst kw))) (snd kw) in
  let t2 := add32 (Sigma0 (ra r)) (Maj (ra r) (rb r) (rc r)) in
  mkRegs (add32 t1 t2) (ra r) (rb r) (rc r) (add32 (rd r) t1) (re r) (rf r) (rg r).

Definition regs_of (h : list N) : Regs :=
  mkRegs (nth 0 h 0) (nth 1 h 0) (nth 2 h 0) (nth 3 h 0)
         (nth 4 h 0) (nth 5 h 0) (nth 6 h 0) (nth 7 h 0).

Definition list_of (r : Regs) : list N :=
  [ra r; rb r; rc r; rd r; re r; rf r; rg r; rh r].

Definition compress (h : list N) (block : list N) : list N :=
  let r := fold_left round (combine K (schedule block)) (regs_of h) in
  zip_with add32 h (list_of r).

(** The hash state after all 16-word blocks of [ws]. *)
Fixpoint blocks (fuel : nat) (h : list N) (ws : list N) : list N :=
  match fuel, ws with
  | S fuel', _ :: _ => blocks fuel' (compress h (take 16 ws)) (drop 16 ws)
  | _, _ => h
  end.

Definition hex_digit (d : N) : ascii :=
  if d <? 10 then ascii_of_N (48 + d) else ascii_of_N (87 + d).

Definition hex_byte (b : N) : string :=
  String (hex_digit (N.shiftr b 4)) (String (hex_digit (N.land b 0xF)) EmptyString).

Definition hex_word (w : N) : string :=
  JS.join "" (hex_byte <$> big_endian 4 w).

(** [createHash('sha256').update(s).digest('hex')] *)
Definition digest_hex (s : string) : string :=
  let bs := pad (bytes_of_string s) in
  let ws := words (List.length bs) bs in
  JS.join "" (hex_word <$> blocks (List.length ws) H0 ws).

End SHA256.

(** ** Resource identifiers

    [URI] is the editor's own class; the code observes a URI through
    [path], [fsPath] and [toString()] and builds new ones with [joinPath].
    A URI is modelled by those three observations, and [joinPath] appends a
    path segment to each of them. *)

Record URI := mkURI {
  uri_path : string;
  uri_fsPath : string;
  uri_toString : string;
}.

Definition joinPath (base : URI) (segment : string) : URI :=
  mkURI (uri_path base +:+ "/" +:+ segment)
        (uri_fsPath base +:+ "/" +:+ segment)
        (uri_toString base +:+ "/" +:+ segment).

(** ** The sandbox: [agentSandbox.ts] *)

Module Sandbox.

Import JS.

(** What the platform provides to the sandbox. *)
Record Host := mkHost {
  (** whether [eval('require')] yields Node's [require] *)
  eval_require : bool;
  (** [typeof process !== 'undefined' && (process.versions?.node || process.versions?.electron)] *)
  isNodeOrElectron : bool;
  (** [new RegExp(src)]: a matcher, or the [SyntaxError] it throws *)
  RegExp : string -> Outcome (string -> bool);
  (** [process.env] and [process.platform] *)
  process_env : gmap string string;
  process_platform : string;
  (** [joinPath(userRoamingDataHome, '.vscode', 'sandbox')] *)
  sandboxRoot : URI;
}.

(** The module-level variables that cache the lazily loaded Node modules:
    [true] once the variable is set. *)
Record Modules := mkModules {
  _nodeRequire : bool;
  _promisify : bool;
  _exec : bool;
  _spawn : bool;
  _fsPromises : bool;
  _crypto : bool;
  _execAsync : bool;
}.

Definition no_modules : Modules := mkModules false false false false false false false.

(** Requests made to the operating system, oldest first. *)
Inductive Effect :=
| CreateFolder (dir : URI)
| WriteFile (file : URI) (content : string)
| Exec (command : string) (cwd : string) (env : gmap string string) (timeout : Z)
| Spawn (cmd : option string) (args : list string) (cwd : string)
        (env : gmap string string) (shell : bool)
| Kill (pid : nat) (signal : string)
| Rm (path : string).

Definition is_process (e : Effect) : bool :=
  match e with
  | Exec _ _ _ _ | Spawn _ _ _ _ _ => true
  | _ => false
  end.

Record State := mkState {
  modules : Modules;
  (** [activeExecutions]: the running children by execution id *)
  activeExecutions : gmap string nat;
  effects : list Effect;
}.

Definition initial : State := mkState no_modules ∅ [].

(** *** A state and exception monad *)

Definition M (A : Type) : Type := State -> Outcome A * State.

Definition ret {A} (a : A) : M A := fun st => (Return a, st).
Definition throw {A} (t : Thrown) : M A := fun st => (Throw t, st).
Definition bind {A B} (c : M A) (k : A -> M B) : M B :=
  fun st =>
    match c st with
    | (Return a, st') => k a st'
    | (Throw t, st') => (Throw t, st')
    end.
(** [try { c } catch (error) { h error }] *)
Definition try_catch {A} (c : M A) (h : Thrown -> M A) : M A :=
  fun st =>
    match c st with
    | (Return a, st') => (Return a, st')
    | (Throw t, st') => h t st'
    end.
Definition lift {A} (o : Outcome A) : M A := fun st => (o, st).
Definition effect (e : Effect) : M unit :=
  fun st => (Return tt, mkState (modules st) (activeExecutions st) (effects st ++ [e])%list).
Definition get_modules : M Modules := fun st => (Return (modules st), st).
Definition put_modules (m : Modules) : M unit :=
  fun st => (Return tt, mkState m (activeExecutions st) (effects st)).
Definition set_execution (id : string) (pid : nat) : M unit :=
  fun st => (Return tt, mkState (modules st) (<[id := pid]> (activeExecutions st)) (effects st)).
Definition delete_execution (id : string) : M unit :=
  fun st => (Return tt, mkState (modules st) (delete id (activeExecutions st)) (effects st)).

#[global] Instance M_ret : MRet M := @ret.
#[global] Instance M_bind : MBind M := fun A B k c => bind c k.

(** *** Lazy loading of the Node modules (lines 20-104) *)

Definition getNodeRequire (h : Host) : M unit :=
  m ← get_modules;
  if _nodeRequire m then ret tt
  else if eval_require h then
    put_modules (mkModules true (_promisify m) (_exec m) (_spawn m)
                           (_fsPromises m) (_crypto m) (_execAsync m))
  else if negb (isNodeOrElectron h) then
    throw (Err (newError "AgentSandbox can only be used in Node.js/Electron contexts. require is not available."))
  else
    throw (Err (newError "Node.js require is not available. AgentSandbox requires Node.js integration to be enabled.")).

Definition getPromisify (h : Host) : M unit :=
  m ← get_modules;
  if _promisify m then ret tt
  else
    getNodeRequire h ;;
    m ← get_modules;
    put_modules (mkModules (_nodeRequire m) true (_exec m) (_spawn m)
                           (_fsPromises m) (_crypto m) (_execAsync m)).

Definition getExec (h : Host) : M unit :=
  m ← get_modules;
  if _exec m then ret tt
  else
    getNodeRequire h ;;
    m ← get_modules;
    put_modules (mkModules (_nodeRequire m) (_promisify m) true true
                           (_fsPromises m) (_crypto m) (_execAsync m)).

Definition getSpawn (h : Host) : M unit :=
  m ← get_modules;
  if _spawn m then ret tt else getExec h.

Definition getFsPromises (h : Host) : M unit :=
  m ← get_modules;
  if _fsPromises m then ret tt
  else
    getNodeRequire h ;;
    m ← get_modules;
    put_modules (mkModules (_nodeRequire m) (_promisify m) (_exec m) (_spawn m)
                           true (_crypto m) (_execAsync m)).

Definition getCrypto (h : Host) : M unit :=
  m ← get_modules;
  if _crypto m then ret tt
  else
    getNodeRequire h ;;
    m ← get_modules;
    put_modules (mkModules (_nodeRequire m) (_promisify m) (_exec m) (_spawn m)
                           (_fsPromises m) true (_execAsync m)).

Definition getExecAsync (h : Host) : M unit :=
  m ← get_modules;
  if _execAsync m then ret tt
  else
    getPromisify h ;;
    getExec h ;;
    m ← get_modules;
    put_modules (mkModules (_nodeRequire m) (_promisify m) (_exec m) (_spawn m)
                           (_fsPromises m) (_crypto m) true).

(** *** Results and options (lines 106-121) *)

Record SandboxExecutionResult := mkResult {
  success : bool;
  stdout : string;
  stderr : string;
  exitCode : Code;
  duration : Z;
}.

Record SandboxOptions := mkOptions {
  timeout : option Z;
  maxMemory : option Z;
  allowedCommands : option (list string);
  workingDirectory : option URI;
  env : option (gmap string string);
}.

Definition no_options : SandboxOptions := mkOptions None None None None None.

(** [n || d] for a possibly undefined number. *)
Definition or_number (o : option Z) (d : Z) : Z :=
  match o with
  | Some n => if Z.eqb n 0 then d else n
  | None => d
  end.

(** *** [generateSandboxId] (lines 412-414) *)

Definition generateSandboxId (h : Host) (content : string) : M string :=
  getCrypto h ;;
  ret (String.substring 0 16 (SHA256.digest_hex content)).

(** *** [cleanupSandbox] (lines 416-423): failures are logged, never thrown *)

Definition cleanupSandbox (h : Host) (dir : URI) : M unit :=
  try_catch (getFsPromises h ;; effect (Rm (uri_fsPath dir)))
            (fun _ => ret tt).

(** *** [isCommandAllowed] (lines 425-448) *)

Definition defaultAllowed : list string := [
  "npm test";
  "npm run test";
  "npx jest";
  "npx mocha";
  "npx tsc";
  "node";
  "python -m pytest" ].

(** [allowedCommands.some(allowed => ...)]: left to right, stopping at the
    first entry that matches; building the [RegExp] of an entry may throw. *)
Fixpoint some_allowed (h : Host) (command : string) (allowedCommands : list string)
  : Outcome bool :=
  match allowedCommands with
  | [] => Return false
  | allowed :: rest =>
      if startsWith allowed "/" && endsWith allowed "/" then
        match RegExp h (slice_1_m1 allowed) with
        | Return pattern =>
            if pattern command then Return true else some_allowed h command rest
        | Throw t => Throw t
        end
      else if startsWith command allowed then Return true
      else some_allowed h command rest
  end.

Definition isCommandAllowed (h : Host) (command : string)
    (allowedCommands : option (list string)) : Outcome bool :=
  match allowedCommands with
  | None | Some [] =>
      Return (existsb (fun allowed => startsWith command allowed) defaultAllowed)
  | Some l => some_allowed h command l
  end.

(** *** [parseCommand] (lines 450-481) *)

Record Tokenizer := mkTokenizer {
  parts : list string;
  current : string;
  inQuotes : bool;
  quoteChar : option ascii;
}.

Definition push_char (s : string) (c : ascii) : string := s +:+ String c EmptyString.

Definition tokenizer_step (t : Tokenizer) (char : ascii) : Tokenizer :=
  if (Ascii.eqb char (ascii_of_nat 34) || Ascii.eqb char "'") && negb (inQuotes t) then
    mkTokenizer (parts t) (current t) true (Some char)
  else if bool_decide (quoteChar t = Some char) && inQuotes t then
    mkTokenizer (parts t) (current t) false None
  else if Ascii.eqb char " " && negb (inQuotes t) then
    if truthy_string (current t)
    then mkTokenizer (parts t ++ [current t])%list "" (inQuotes t) (quoteChar t)
    else t
  else
    mkTokenizer (parts t) (push_char (current t) char) (inQuotes t) (quoteChar t).

Definition parseCommand (command : string) : list string :=
  let t := fold_left tokenizer_step (list_ascii_of_string command)
                     (mkTokenizer [] "" false None) in
  if truthy_string (current t) then (parts t ++ [current t])%list else parts t.

(** *** [executeInVM] (lines 144-206)

    The environment's answers during one call: the two clock readings, the
    outcome of the two file-service requests, and which of the three raced
    promises settles first. *)

Inductive Race :=
| ExecResolved (out err : string)  (** the script ran and exited with code 0 *)
| ExecRejected (t : Thrown)        (** [exec] rejected: a non-zero exit, a kill, too much output *)
| TimedOut                         (** the promise of [createTimeoutPromise] rejected first *)
| TokenFired.                      (** a token was passed and it fired first *)

Record VMWorld := mkVMWorld {
  vm_start : Z;
  vm_end : Z;
  vm_createFolder : Outcome unit;
  vm_writeFile : Outcome unit;
  vm_race : Race;
}.

(** [createTimeoutPromise] (lines 483-487) and [createCancellationPromise]
    (lines 489-497) reject with these errors. *)
Definition timeout_error (timeout : Z) : Thrown :=
  Err (newError ("Execution timeout after " +:+ pretty timeout +:+ "ms")).
Definition cancellation_error : Thrown := Err (newError "Execution cancelled").

(** [await Promise.race([...])] *)
Definition race (timeout : Z) (r : Race) : Outcome (string * string) :=
  match r with
  | ExecResolved out err => Return (out, err)
  | ExecRejected t => Throw t
  | TimedOut => Throw (timeout_error timeout)
  | TokenFired => Throw cancellation_error
  end.

Definition options_env (options : SandboxOptions) : gmap string string :=
  default ∅ (env options).

Definition executeInVM (h : Host) (w : VMWorld) (code : string)
    (options : SandboxOptions) : M SandboxExecutionResult :=
  let startTime := vm_start w in
  sandboxId ← generateSandboxId h code;
  let sandboxDir := joinPath (sandboxRoot h) sandboxId in
  try_catch
    (effect (CreateFolder sandboxDir) ;;
     lift (vm_createFolder w) ;;
     let codeFile := joinPath sandboxDir "script.js" in
     effect (WriteFile codeFile code) ;;
     lift (vm_writeFile w) ;;
     let env :=
       delete "GITHUB_TOKEN" (delete "NPM_TOKEN"
         (<["NODE_ENV" := "production"]> (options_env options ∪ process_env h))) in
     let timeout := or_number (timeout options) 30000 in
     let command := "node " +:+ dquote +:+ uri_fsPath codeFile +:+ dquote in
     getExecAsync h ;;
     effect (Exec command
               (or_string (uri_fsPath <$> workingDirectory options) (uri_fsPath sandboxDir))
               env timeout) ;;
     result ← lift (race timeout (vm_race w));
     let duration := (vm_end w - startTime)%Z in
     cleanupSandbox h sandboxDir ;;
     ret (mkResult true (or_string (Some (fst result)) "")
                   (or_string (Some (snd result)) "") (Num 0) duration))
    (fun error =>
       let duration := (vm_end w - startTime)%Z in
       cleanupSandbox h sandboxDir ;;
       ret (mkResult false
              (or_string (stdout_of error) "")
              (or_string (stderr_of error)
                 (or_string (message_of error) (String_of error)))
              (or_code (code_of error) (Num 1))
              duration)).

(** *** [executeTests] (lines 212-329)

    The environment's answers: the clock readings, the outcome of creating
    the folder, and how the spawned child ends.  A child ends with a
    ['close'] event (its exit code, or no code when a signal ended it) or
    with an ['error'] event; before that the timer or the token may have
    sent it [SIGTERM].  [spawn] itself may throw. *)

Inductive ChildEnd :=
| SpawnThrows (t : Thrown)
| Closed (timer_fired token_fired : bool) (code : option Z) (out err : string)
| Errored (error : Error) (out : string).

Record TestWorld := mkTestWorld {
  t_start : Z;
  t_spawned : Z;
  t_end : Z;
  t_createFolder : Outcome unit;
  t_pid : nat;
  t_child : ChildEnd;
}.

Definition when (b : bool) (c : M unit) : M unit := if b then c else ret tt.

Definition executeTests (h : Host) (w : TestWorld) (testCommand : string)
    (options : SandboxOptions) : M SandboxExecutionResult :=
  let startTime := t_start w in
  sandboxId ← generateSandboxId h testCommand;
  allowed ← lift (isCommandAllowed h testCommand (allowedCommands options));
  if negb allowed then
    ret (mkResult false "" ("Command not allowed: " +:+ testCommand) (Num 1)
                  (t_end w - startTime)%Z)
  else
    let sandboxDir := joinPath (sandboxRoot h) sandboxId in
    (* the part of the [try] block that runs before the promise is built *)
    failed ← try_catch
      (effect (CreateFolder sandboxDir) ;;
       lift (t_createFolder w) ;;
       ret None)
      (fun error =>
         ret (Some (mkResult false ""
                      (or_string (message_of error) (String_of error))
                      (Num 1) (t_end w - startTime)%Z)));
    match failed with
    | Some result => ret result
    | None =>
        let timeout := or_number (timeout options) 60000 in
        let workingDir :=
          or_string (uri_fsPath <$> workingDirectory options) (uri_fsPath sandboxDir) in
        let parts := parseCommand testCommand in
        let cmd := head parts in
        let args := tail parts in
        let env := <["NODE_ENV" := "test"]> (options_env options ∪ process_env h) in
        (* the executor of [new Promise]: the promise is returned without
           [await], so what is thrown here rejects the call *)
        getSpawn h ;;
        effect (Spawn cmd args workingDir env
                      (String.eqb (process_platform h) "win32")) ;;
        match t_child w with
        | SpawnThrows t => throw t
        | Closed timer_fired token_fired code out err =>
            let executionId := sandboxId +:+ "-" +:+ pretty (t_spawned w) in
            set_execution executionId (t_pid w) ;;
            when timer_fired (effect (Kill (t_pid w) "SIGTERM")) ;;
            when token_fired (effect (Kill (t_pid w) "SIGTERM")) ;;
            delete_execution executionId ;;
            cleanupSandbox h sandboxDir ;;
            ret (mkResult (bool_decide (code = Some 0%Z)) out err
                          (Num (or_number code 0)) (t_end w - startTime)%Z)
        | Errored error out =>
            let executionId := sandboxId +:+ "-" +:+ pretty (t_spawned w) in
            set_execution executionId (t_pid w) ;;
            delete_execution executionId ;;
            cleanupSandbox h sandboxDir ;;
            ret (mkResult false out (message error) (Num 1) (t_end w - startTime)%Z)
        end
    end.

(** *** [validateChanges] (lines 335-384) *)

Record File := mkFile {
  uri : URI;
  content : string;
}.

Record Validation := mkValidation {
  valid : bool;
  errors : list string;
}.

(** The texts of the seven regular-expression literals of lines 345-351. *)
Definition dangerousPatterns : list string := [
  "eval\s*\(";
  "Function\s*\(";
  "require\s*\(\s*['" +:+ dquote +:+ "]child_process['" +:+ dquote +:+ "]";
  "require\s*\(\s*['" +:+ dquote +:+ "]fs['" +:+ dquote +:+ "]";
  "process\.exit";
  "rm\s+-rf";
  "rmdir\s+\/s" ].

(** The interpolation of a regular expression in a template string. *)
Definition pattern_text (src : string) : string := "/" +:+ src +:+ "/".

Definition danger_message (file : File) (src : string) : string :=
  "Dangerous pattern detected in " +:+ uri_toString (uri file) +:+ ": "
  +:+ pattern_text src.

(** The inner loop: the errors of one file. *)
Definition file_errors (file : File) : list string :=
  flat_map
    (fun src =>
       if Regex.test (Regex.literal src) (content file)
       then [danger_message file src] else [])
    dangerousPatterns.

Definition is_ts_file (f : File) : bool :=
  endsWith (uri_path (uri f)) ".ts" || endsWith (uri_path (uri f)) ".tsx".

(** [options.env?.SKIP_TS_CHECK], as a condition *)
Definition skip_ts_check (options : SandboxOptions) : bool :=
  match env options with
  | Some e => match e !! "SKIP_TS_CHECK" with
              | Some v => truthy_string v
              | None => false
              end
  | None => false
  end.

Definition ts_check_script : string :=
  "const ts = require('typescript'); const result = ts.transpileModule(code, { compilerOptions: { noEmit: true } });".

Definition validateChanges (h : Host) (w : VMWorld) (files : list File)
    (options : SandboxOptions) : M Validation :=
  let errors := flat_map file_errors files in
  let tsFiles := List.filter is_ts_file files in
  errors ←
    (if (0 <? List.length tsFiles)%nat && negb (skip_ts_check options) then
       try_catch
         (result ← executeInVM h w ts_check_script
                     (mkOptions (Some 10000%Z) None None None None);
          if negb (success result)
          then ret (errors ++ ["TypeScript validation failed: " +:+ stderr result])%list
          else ret errors)
         (fun _ => ret errors)
     else ret errors);
  ret (mkValidation (List.length errors =? 0)%nat errors).

End Sandbox.

(** ** The data types of the agent service: [agentService.ts] *)

Module AgentTaskStatus.
Inductive t := Pending | Running | Completed | Failed | Cancelled.
#[global] Instance eq_dec : EqDecision t.
Proof. solve_decision. Defined.
End AgentTaskStatus.

Module AgentStepType.
Inductive t := Search | Generate | Edit | Test | Verify | Custom.
(** The string that is the value of the enum member. *)
Definition text (ty : t) : string :=
  match ty with
  | Search => "search"
  | Generate => "generate"
  | Edit => "edit"
  | Test => "test"
  | Verify => "verify"
  | Custom => "custom"
  end.
End AgentStepType.

Module AgentStepStatus.
Inductive t := Pending | Running | Completed | Failed | Skipped.
#[global] Instance eq_dec : EqDecision t.
Proof. solve_decision. Defined.
End AgentStepStatus.

(** The values that the step handlers return. *)
Inductive StepResult :=
| DryRun                                         (** [{ dryRun: true }] *)
| Found (found : nat) (files : list string)       (** [{ found, files }] *)
| Generated (generated : string) (modelId : string)
| Edited (file : string)                         (** [{ edited: true, file }] *)
| TestsRun (testsRun : bool)
| Verified.                                      (** [{ verified: true, note }] *)

Module AgentStep.
Record t := mk {
  id : string;
  type : AgentStepType.t;
  name : string;
  status : AgentStepStatus.t;
  command : option string;
  result : option StepResult;
  error : option string;
}.
End AgentStep.

Module AgentTask.
Record t := mk {
  id : string;
  name : string;
  description : string;
  status : AgentTaskStatus.t;
  steps : list AgentStep.t;
  currentStep : option nat;
  error : option string;
  metadata : option (gmap string string);
}.
End AgentTask.

Module PlanStep.
Record t := mk {
  type : AgentStepType.t;
  description : string;
  parameters : option (gmap string string);
}.
End PlanStep.

Record AgentPlan := mkPlan { plan_steps : list PlanStep.t }.

Record AgentExecutionOptions := mkExecutionOptions {
  maxSteps : option Z;
  retryOnFailure : option bool;
  stopOnError : option bool;
  dryRun : option bool;
}.

(** ** The agent service: [agentServiceImpl.ts] *)

Module Agent.

Import JS.

(** The collaborators, as they answer during one call or one step: the
    model service ([getActiveModel], [requestCompletion]), the context
    service ([search]), the command service ([executeCommand]), and
    [JSON.parse] with its result read at the type of a step list, as the
    code uses it. *)

Record CompletionRequest := mkRequest {
  req_uri : URI;
  req_languageId : string;
  req_version : Z;
  req_modelId : string;
  req_prompt : string;
}.

Record CompletionResponse := mkResponse {
  text : string;
  modelId : string;
}.

Record Collaborators := mkCollaborators {
  getActiveModel : option string;
  requestCompletion : CompletionRequest -> Outcome CompletionResponse;
  search : string -> Z -> Outcome (list URI);
  executeCommand : string -> Outcome unit;
  JSON_parse : string -> Outcome (list PlanStep.t);
}.

(** *** [planTask] (lines 48-107) *)

Definition nl : string := String (ascii_of_nat 10) EmptyString.
Definition tab : string := String (ascii_of_nat 9) EmptyString.

Definition plan_prompt (description : string) (context : URI) : string :=
  "You are a task planning assistant. Break down the following task into concrete steps:" +:+ nl
  +:+ nl
  +:+ "Task: " +:+ description +:+ nl
  +:+ nl
  +:+ "Context: Working in file/directory " +:+ uri_toString context +:+ nl
  +:+ nl
  +:+ "Generate a step-by-step plan. Each step should be one of:" +:+ nl
  +:+ "- search: Find relevant files or code" +:+ nl
  +:+ "- generate: Generate new code or content" +:+ nl
  +:+ "- edit: Modify existing code" +:+ nl
  +:+ "- test: Run tests or verify changes" +:+ nl
  +:+ "- verify: Check if changes work correctly" +:+ nl
  +:+ nl
  +:+ "Respond with a JSON array of steps, each with:" +:+ nl
  +:+ "{" +:+ nl
  +:+ tab +:+ dquote +:+ "type" +:+ dquote +:+ ": " +:+ dquote
      +:+ "search|generate|edit|test|verify" +:+ dquote +:+ "," +:+ nl
  +:+ tab +:+ dquote +:+ "description" +:+ dquote +:+ ": " +:+ dquote
      +:+ "what to do" +:+ dquote +:+ "," +:+ nl
  +:+ tab +:+ dquote +:+ "parameters" +:+ dquote +:+ ": { optional parameters }" +:+ nl
  +:+ "}".

(** The plan of lines 95-102. *)
Definition fallback_plan (description : string) : AgentPlan :=
  mkPlan [
    PlanStep.mk AgentStepType.Search ("Search for files related to: " +:+ description) None;
    PlanStep.mk AgentStepType.Generate ("Generate code for: " +:+ description) None;
    PlanStep.mk AgentStepType.Edit "Apply changes" None;
    PlanStep.mk AgentStepType.Verify "Verify changes work correctly" None ].

(** The literal of line 88, and [planText.match(...)]. *)
Definition json_array_pattern : string := "\[[\s\S]*\]".

Definition jsonMatch (planText : string) : option string :=
  Regex.exec (Regex.literal json_array_pattern) planText.

Definition no_model_error : Thrown := Err (newError "No AI model configured").

Definition planTask (c : Collaborators) (description : string) (context : URI)
  : Outcome AgentPlan :=
  match getActiveModel c with
  | None => Throw no_model_error
  | Some activeModelId =>
      if negb (truthy_string activeModelId) then Throw no_model_error
      else
        (* try { ... } catch (error) { log; throw error; } *)
        match requestCompletion c
                (mkRequest context "" 0 activeModelId (plan_prompt description context)) with
        | Throw error => Throw error
        | Return response =>
            match jsonMatch (text response) with
            | Some matched =>
                match JSON_parse c matched with
                | Return steps => Return (mkPlan steps)
                | Throw error => Throw error
                end
            | None => Return (fallback_plan description)
            end
        end
  end.

(** *** The step handlers (lines 232-320) *)

Record LoopOptions := mkLoopOptions {
  loop_retryOnFailure : bool;
  loop_stopOnError : bool;
  loop_dryRun : bool;
}.

Definition executeSearchStep (c : Collaborators) (step : AgentStep.t) : Outcome StepResult :=
  match search c (AgentStep.name step) 10 with
  | Return results => Return (Found (List.length results) (uri_toString <$> results))
  | Throw t => Throw t
  end.

Definition executeGenerateStep (c : Collaborators) (step : AgentStep.t) (context : URI)
  : Outcome StepResult :=
  match getActiveModel c with
  | None => Throw no_model_error
  | Some activeModelId =>
      if negb (truthy_string activeModelId) then Throw no_model_error
      else
        match requestCompletion c
                (mkRequest context "" 0 activeModelId (AgentStep.name step)) with
        | Return response => Return (Generated (text response) (modelId response))
        | Throw t => Throw t
        end
  end.

Definition executeEditStep (context : URI) : Outcome StepResult :=
  Return (Edited (uri_toString context)).

Definition executeTestStep (c : Collaborators) : Outcome StepResult :=
  match executeCommand c "workbench.action.terminal.runSelectedText" with
  | Return _ => Return (TestsRun true)
  | Throw _ => Return (TestsRun false)
  end.

Definition executeVerifyStep : Outcome StepResult := Return Verified.

Definition executeStep (c : Collaborators) (step : AgentStep.t) (context : URI)
    (options : LoopOptions) : Outcome StepResult :=
  if loop_dryRun options then Return DryRun
  else
    match AgentStep.type step with
    | AgentStepType.Search => executeSearchStep c step
    | AgentStepType.Generate => executeGenerateStep c step context
    | AgentStepType.Edit => executeEditStep context
    | AgentStepType.Test => executeTestStep c
    | AgentStepType.Verify => executeVerifyStep
    | AgentStepType.Custom =>
        Throw (Err (newError ("Unknown step type: "
                              +:+ AgentStepType.text (AgentStep.type step))))
    end.

(** *** The state of the service

    [_tasks] and [_taskCancellations] are the two maps of the class.  Every
    call of [executeTask] creates one cancellation source and starts one
    loop ([executeSteps]); a [Run] holds both: whether the source has been
    cancelled, what the loop's closure captured ([task], [context],
    [options]) and where the loop stands.  The source is shared: the side
    table refers to it by the index of its run, and the loop reads its
    token.  The two emitters are modelled by the lists of what they fired. *)

Inductive Phase :=
| Awaiting (i : nat)  (** suspended at [await this.executeStep(...)] of step [i] *)
| Resolved            (** [executeSteps] has returned; the [then] callback is pending *)
| Notified.           (** the [then] callback has run *)

Record Run := mkRun {
  isCancellationRequested : bool;
  run_task : AgentTask.t;
  run_context : URI;
  run_options : LoopOptions;
  phase : Phase;
}.

Record Service := mkService {
  _tasks : gmap string AgentTask.t;
  _taskCancellations : gmap string nat;
  runs : list Run;
  _onDidTaskUpdate : list AgentTask.t;
  _onDidTaskComplete : list AgentTask.t;
}.

Definition empty : Service := mkService ∅ ∅ [] [] [].

(** *** [updateTask] (lines 322-331) and [updateStep] (lines 333-348) *)

(** A [Partial<AgentTask>] with the properties that the callers set. *)
Record TaskUpdates := mkTaskUpdates {
  u_status : option AgentTaskStatus.t;
  u_steps : option (list AgentStep.t);
  u_currentStep : option nat;
  u_error : option string;
}.

Definition no_updates : TaskUpdates := mkTaskUpdates None None None None.

(** [{ ...task, ...updates }] *)
Definition spread_task (task : AgentTask.t) (updates : TaskUpdates) : AgentTask.t :=
  AgentTask.mk
    (AgentTask.id task) (AgentTask.name task) (AgentTask.description task)
    (default (AgentTask.status task) (u_status updates))
    (default (AgentTask.steps task) (u_steps updates))
    (match u_currentStep updates with Some i => Some i | None => AgentTask.currentStep task end)
    (match u_error updates with Some e => Some e | None => AgentTask.error task end)
    (AgentTask.metadata task).

Definition updateTask (taskId : string) (updates : TaskUpdates) (s : Service) : Service :=
  match _tasks s !! taskId with
  | None => s
  | Some task =>
      let updated := spread_task task updates in
      mkService (<[taskId := updated]> (_tasks s)) (_taskCancellations s) (runs s)
                (_onDidTaskUpdate s ++ [updated])%list (_onDidTaskComplete s)
  end.

(** A [Partial<AgentStep>] with the properties that the callers set. *)
Record StepUpdates := mkStepUpdates {
  su_status : option AgentStepStatus.t;
  su_result : option StepResult;
  su_error : option string;
}.

(** [{ ...step, ...updates }] *)
Definition spread_step (step : AgentStep.t) (updates : StepUpdates) : AgentStep.t :=
  AgentStep.mk
    (AgentStep.id step) (AgentStep.type step) (AgentStep.name step)
    (default (AgentStep.status step) (su_status updates))
    (AgentStep.command step)
    (match su_result updates with Some r => Some r | None => AgentStep.result step end)
    (match su_error updates with Some e => Some e | None => AgentStep.error step end).

(** [steps.findIndex(s => s.id === stepId)] *)
Definition findIndex (stepId : string) (steps : list AgentStep.t) : option nat :=
  fst <$> list_find (fun s => AgentStep.id s = stepId) steps.

Definition updateStep (taskId stepId : string) (updates : StepUpdates) (s : Service)
  : Service :=
  match _tasks s !! taskId with
  | None => s
  | Some task =>
      match findIndex stepId (AgentTask.steps task) with
      | None => s
      | Some stepIndex =>
          let updatedSteps :=
            alter (fun step => spread_step step updates) stepIndex (AgentTask.steps task) in
          updateTask taskId (mkTaskUpdates None (Some updatedSteps) None None) s
      end
  end.

(** *** [executeSteps] (lines 189-230)

    The loop runs until it reaches an [await]; [enterIteration] is the code
    from the loop test of iteration [i] to the [await] of that iteration
    (or to the [return]), [settle] is the code that runs when the awaited
    handler has finished, up to the next [await]. *)

Definition with_phase (p : Phase) (run : Run) : Run :=
  mkRun (isCancellationRequested run) (run_task run) (run_context run)
        (run_options run) p.

Definition set_phase (r : nat) (p : Phase) (s : Service) : Service :=
  mkService (_tasks s) (_taskCancellations s) (alter (with_phase p) r (runs s))
            (_onDidTaskUpdate s) (_onDidTaskComplete s).

(** The updates [{ status }] and [{ currentStep }]. *)
Definition mark (status : AgentTaskStatus.t) : TaskUpdates :=
  mkTaskUpdates (Some status) None None None.
Definition at_step (i : nat) : TaskUpdates := mkTaskUpdates None None (Some i) None.

Definition enterIteration (r i : nat) (s : Service) : Service :=
  match runs s !! r with
  | None => s
  | Some run =>
      let task := run_task run in
      match AgentTask.steps task !! i with
      | Some step =>
          if isCancellationRequested run then
            set_phase r Resolved
              (updateTask (AgentTask.id task) (mark AgentTaskStatus.Cancelled) s)
          else
            set_phase r (Awaiting i)
              (updateTask (AgentTask.id task) (at_step i)
                 (updateStep (AgentTask.id task) (AgentStep.id step)
                    (mkStepUpdates (Some AgentStepStatus.Running) None None) s))
      | None =>
          (* all steps completed *)
          set_phase r Resolved
            (updateTask (AgentTask.id task) (mark AgentTaskStatus.Completed) s)
      end
  end.

Definition settle (r : nat) (c : Collaborators) (s : Service) : Service :=
  match runs s !! r with
  | None => s
  | Some run =>
      let task := run_task run in
      match phase run with
      | Awaiting i =>
          match AgentTask.steps task !! i with
          | None => s
          | Some step =>
              match executeStep c step (run_context run) (run_options run) with
              | Return result =>
                  enterIteration r (S i)
                    (updateStep (AgentTask.id task) (AgentStep.id step)
                       (mkStepUpdates (Some AgentStepStatus.Completed) (Some result) None) s)
              | Throw error =>
                  let s1 :=
                    updateStep (AgentTask.id task) (AgentStep.id step)
                      (mkStepUpdates (Some AgentStepStatus.Failed) None
                                     (Some (error_text error))) s in
                  if loop_stopOnError (run_options run) then
                    set_phase r Resolved
                      (updateTask (AgentTask.id task)
                         (mkTaskUpdates (Some AgentTaskStatus.Failed) None None
                            (Some ("Step " +:+ AgentStep.name step +:+ " failed: "
                                   +:+ error_text error))) s1)
                  else enterIteration r (S i) s1
              end
          end
      | _ => s
      end
  end.

(** The [then] callback of line 145: fires the completion event once. *)
Definition notify (r : nat) (s : Service) : Service :=
  match runs s !! r with
  | None => s
  | Some run =>
      match phase run with
      | Resolved =>
          let s' := set_phase r Notified s in
          match _tasks s !! AgentTask.id (run_task run) with
          | Some finalTask =>
              mkService (_tasks s') (_taskCancellations s') (runs s')
                        (_onDidTaskUpdate s') (_onDidTaskComplete s' ++ [finalTask])%list
          | None => s'
          end
      | _ => s
      end
  end.

(** [taskCancellation.cancel()] on the source of run [r]. *)
Definition cancelled (run : Run) : Run :=
  mkRun true (run_task run) (run_context run) (run_options run) (phase run).

Definition cancel (r : nat) (s : Service) : Service :=
  mkService (_tasks s) (_taskCancellations s) (alter cancelled r (runs s))
            (_onDidTaskUpdate s) (_onDidTaskComplete s).

(** *** [cancelTask] (lines 174-181) *)

Definition cancelTask (taskId : string) (s : Service) : Service :=
  match _taskCancellations s !! taskId with
  | Some cancellation =>
      let s1 := cancel cancellation s in
      let s2 := updateTask taskId (mark AgentTaskStatus.Cancelled) s1 in
      mkService (_tasks s2) (delete taskId (_taskCancellations s2)) (runs s2)
                (_onDidTaskUpdate s2) (_onDidTaskComplete s2)
  | None => s
  end.

(** *** [executeTask] (lines 109-163)

    [taskId] and [stepUuid index] are the identifiers that [generateUuid]
    returns for the task and for its steps. *)

(** [xs.slice(0, n)] *)
Definition slice_0 {A} (n : Z) (xs : list A) : list A :=
  take (Z.to_nat (if (n <? 0)%Z then Z.of_nat (List.length xs) + n else n)%Z) xs.

Definition new_steps (plan : AgentPlan) (maxSteps : Z) (stepUuid : nat -> string)
  : list AgentStep.t :=
  imap (fun index step =>
          AgentStep.mk (stepUuid index) (PlanStep.type step) (PlanStep.description step)
                       AgentStepStatus.Pending None None None)
       (slice_0 maxSteps (plan_steps plan)).

Definition arrow : string :=
  String (ascii_of_nat 226) (String (ascii_of_nat 134) (String (ascii_of_nat 146) EmptyString)).

Definition new_task (plan : AgentPlan) (maxSteps : Z) (taskId : string)
    (stepUuid : nat -> string) : AgentTask.t :=
  AgentTask.mk taskId
    ("Task: " +:+ or_string (PlanStep.description <$> head (plan_steps plan)) "Unknown")
    (join (" " +:+ arrow +:+ " ") (PlanStep.description <$> plan_steps plan))
    AgentTaskStatus.Running
    (new_steps plan maxSteps stepUuid)
    (Some 0)
    None None.

Definition executeTask (plan : AgentPlan) (context : URI) (options : AgentExecutionOptions)
    (taskId : string) (stepUuid : nat -> string) (s : Service) : AgentTask.t * Service :=
  let maxSteps := default 10%Z (maxSteps options) in
  let retryOnFailure := default true (retryOnFailure options) in
  let stopOnError := default true (stopOnError options) in
  let dryRun := default false (dryRun options) in
  let r := List.length (runs s) in
  let task := new_task plan maxSteps taskId stepUuid in
  let s1 :=
    mkService (<[taskId := task]> (_tasks s))
              (<[taskId := r]> (_taskCancellations s))
              (runs s ++ [mkRun false task context
                                (mkLoopOptions retryOnFailure stopOnError dryRun)
                                (Awaiting 0)])%list
              (_onDidTaskUpdate s ++ [task])%list
              (_onDidTaskComplete s) in
  (task, enterIteration r 0 s1).

(** *** Operations and executions

    What can happen to a service: a call of [executeTask] or [cancelTask],
    the token given to [executeTask] firing, the handler awaited by a loop
    finishing, the [then] callback of a finished loop running. *)

Inductive Op :=
| ExecuteTask (plan : AgentPlan) (context : URI) (options : AgentExecutionOptions)
              (taskId : string) (stepUuid : nat -> string)
| CancelTask (taskId : string)
| TokenCancelled (r : nat)
| Settle (r : nat) (c : Collaborators)
| Notify (r : nat).

Definition apply (op : Op) (s : Service) : Service :=
  match op with
  | ExecuteTask plan context options taskId stepUuid =>
      snd (executeTask plan context options taskId stepUuid s)
  | CancelTask taskId => cancelTask taskId s
  | TokenCancelled r => cancel r s
  | Settle r c => settle r c s
  | Notify r => notify r s
  end.

(** [generateUuid] returns an identifier that no task has, and identifiers
    that differ from one step to the other. *)
Definition fresh (op : Op) (s : Service) : Prop :=
  match op with
  | ExecuteTask _ _ _ taskId stepUuid =>
      _tasks s !! taskId = None /\
      (forall i j : nat, stepUuid i = stepUuid j -> i = j)
  | _ => True
  end.

Definition step (s s' : Service) : Prop :=
  exists op, fresh op s /\ s' = apply op s.

(** [s'] is reached from [s] by a sequence of operations. *)
Definition reaches : Service -> Service -> Prop := rtc step.

Fixpoint run_ops (ops : list Op) (s : Service) : Service :=
  match ops with
  | [] => s
  | op :: rest => run_ops rest (apply op s)
  end.

Fixpoint fresh_ops (ops : list Op) (s : Service) : Prop :=
  match ops with
  | [] => True
  | op :: rest => fresh op s /\ fresh_ops rest (apply op s)
  end.

(** The task of run [r] as the table has it. *)
Definition task_of (r : nat) (s : Service) : option AgentTask.t :=
  run ← runs s !! r; _tasks s !! AgentTask.id (run_task run).

Definition is_terminal (st : AgentTaskStatus.t) : bool :=
  match st with
  | AgentTaskStatus.Completed | AgentTaskStatus.Failed | AgentTaskStatus.Cancelled => true
  | _ => false
  end.

(** The position of a status on Pending, Running, terminal. *)
Definition rank (st : AgentTaskStatus.t) : nat :=
  match st with
  | AgentTaskStatus.Pending => 0
  | AgentTaskStatus.Running => 1
  | _ => 2
  end.

End Agent.

(** ** Notions used to state the properties *)

Module Spec.

Import JS Sandbox.

(** The allow-list that [executeTests] consults: the caller's, or the
    built-in one when the caller gives none or an empty one. *)
Definition effective_allowlist (options : SandboxOptions) : list string :=
  match allowedCommands options with
  | None | Some [] => defaultAllowed
  | Some l => l
  end.

(** An entry written between two slashes. *)
Definition written_as_regex (entry : string) : bool :=
  startsWith entry "/" && endsWith entry "/".

(** An entry matches when the command starts with the literal entry or,
    for an entry written between slashes, when the command matches that
    regular expression. *)
Definition entry_matches (h : Host) (command entry : string) : Prop :=
  startsWith command entry = true \/
  (written_as_regex entry = true /\
   exists pattern, RegExp h (slice_1_m1 entry) = Return pattern /\ pattern command = true).

(** Every entry written between slashes holds a regular expression that the
    host accepts. *)
Definition regex_entries_valid (h : Host) (entries : list string) : Prop :=
  forall entry, entry ∈ entries -> written_as_regex entry = true ->
    exists pattern, RegExp h (slice_1_m1 entry) = Return pattern.

(** What makes a call of [executeInVM] fail, if anything: the first of the
    folder creation, the file write and the race that throws. *)
Definition vm_failure (w : VMWorld) (timeout : Z) : option Thrown :=
  match vm_createFolder w with
  | Throw t => Some t
  | Return _ =>
      match vm_writeFile w with
      | Throw t => Some t
      | Return _ =>
          match race timeout (vm_race w) with
          | Throw t => Some t
          | Return _ => None
          end
      end
  end.

(** The state is unchanged but for the caches of the loaded modules. *)
Definition same_but_modules (st st' : State) : Prop :=
  activeExecutions st' = activeExecutions st /\ effects st' = effects st.

(** The text holds an opening bracket that is followed, somewhere, by a
    closing bracket. *)
Definition has_bracketed_span (text : string) : Prop :=
  exists a b c, text = a +:+ "[" +:+ b +:+ "]" +:+ c.

(** [c] returns [a], and changes at most the caches of the loaded modules. *)
Definition loads {A} (c : M A) (a : A) : Prop :=
  forall st, exists m,
    c st = (Return a, mkState m (activeExecutions st) (effects st)).

End Spec.

(** ** Sample inputs, for running the model *)

Module Sample.

Import JS.

(** A host with Node's [require], whose [RegExp] accepts the syntax that
    [Regex.parse] reads and rejects the rest. *)
Definition RegExp (src : string) : Outcome (string -> bool) :=
  match Regex.RegExp_basic src with
  | Some matcher => Return matcher
  | None =>
      Throw (Err (mkError "SyntaxError"
                    ("Invalid regular expression: /" +:+ src +:+ "/") None None None))
  end.

Definition host : Sandbox.Host :=
  Sandbox.mkHost true true RegExp ∅ "linux"
    (mkURI "/home/user/.vscode/sandbox" "/home/user/.vscode/sandbox"
           "file:///home/user/.vscode/sandbox").

(** A child that writes nothing and is ended by the [SIGTERM] of the timer. *)
Definition killed_by_timer : Sandbox.TestWorld :=
  Sandbox.mkTestWorld 0 1 60001 (Return tt) 4242
    (Sandbox.Closed true false None "" "").

(** A script that outlives the timeout. *)
Definition slow_script : Sandbox.VMWorld :=
  Sandbox.mkVMWorld 0 30001 (Return tt) (Return tt) Sandbox.TimedOut.

Definition workspace : URI := mkURI "/work" "/work" "file:///work".

(** A [JSON.parse] for collaborators whose answers never reach it. *)
Definition unused_parse (s : string) : Outcome (list PlanStep.t) :=
  Throw (Err (mkError "SyntaxError" "Unexpected token" None None None)).

(** A model is configured, and every request to it fails. *)
Definition unavailable_model : Agent.Collaborators :=
  Agent.mkCollaborators (Some "local-model")
    (fun _ => Throw (Err (newError "model unavailable")))
    (fun _ _ => Return [])
    (fun _ => Return tt)
    unused_parse.

(** A model that answers in prose. *)
Definition prose_model : Agent.Collaborators :=
  Agent.mkCollaborators (Some "local-model")
    (fun _ => Return (Agent.mkResponse "First search, then edit." "local-model"))
    (fun _ _ => Return [])
    (fun _ => Return tt)
    unused_parse.

(** A plan of one step, which needs no collaborator. *)
Definition verify_plan : AgentPlan :=
  mkPlan [PlanStep.mk AgentStepType.Verify "check the build" None].

(** A plan of three steps; the second has no handler. *)
Definition three_steps : AgentPlan :=
  mkPlan [PlanStep.mk AgentStepType.Edit "rename the function" None;
          PlanStep.mk AgentStepType.Custom "publish" None;
          PlanStep.mk AgentStepType.Verify "check the build" None].

Definition default_options : AgentExecutionOptions :=
  mkExecutionOptions None None None None.

Definition keep_going : AgentExecutionOptions :=
  mkExecutionOptions None None (Some false) None.

(** The identifiers that [generateUuid] returns for the steps. *)
Definition step_uuid (index : nat) : string := "step-" +:+ pretty index.

(** A service that has just started the one-step plan, as task [task-1]. *)
Definition started : Agent.Service :=
  snd (Agent.executeTask verify_plan workspace default_options "task-1" step_uuid
         Agent.empty).

(** The same, once the handler of the step has finished. *)
Definition finished : Agent.Service := Agent.settle 0 prose_model started.

(** A service that has started the three-step plan, stopping at the first
    failure, and one that goes on after a failure. *)
Definition started_three (options : AgentExecutionOptions) : Agent.Service :=
  snd (Agent.executeTask three_steps workspace options "task-3" step_uuid Agent.empty).

End Sample.

(** ** The life of a task

    What the operations of the service do to the task they address, as
    functions on that task, and the invariant of the service. *)

Module Life.

Import JS Agent.

Definition step_ids (t : AgentTask.t) : list string :=
  AgentStep.id <$> AgentTask.steps t.

(** What [updateStep] does to the task it finds. *)
Definition step_update (stepId : string) (updates : StepUpdates) (t : AgentTask.t)
  : AgentTask.t :=
  match findIndex stepId (AgentTask.steps t) with
  | Some stepIndex =>
      spread_task t
        (mkTaskUpdates None
           (Some (alter (fun step => spread_step step updates) stepIndex
                        (AgentTask.steps t)))
           None None)
  | None => t
  end.

(** What [enterIteration] does to the task of the run, and the phase it
    leaves the run in. *)
Definition enter_task (run : Run) (i : nat) (t : AgentTask.t) : AgentTask.t :=
  match AgentTask.steps (run_task run) !! i with
  | Some step =>
      if isCancellationRequested run then spread_task t (mark AgentTaskStatus.Cancelled)
      else
        spread_task
          (step_update (AgentStep.id step)
             (mkStepUpdates (Some AgentStepStatus.Running) None None) t)
          (at_step i)
  | None => spread_task t (mark AgentTaskStatus.Completed)
  end.

Definition enter_phase (run : Run) (i : nat) : Phase :=
  match AgentTask.steps (run_task run) !! i with
  | Some step => if isCancellationRequested run then Resolved else Awaiting i
  | None => Resolved
  end.

(** The same for [settle], in a run that awaits [step], its step [i]. *)
Definition settle_task (run : Run) (c : Collaborators) (i : nat) (step : AgentStep.t)
    (t : AgentTask.t) : AgentTask.t :=
  match executeStep c step (run_context run) (run_options run) with
  | Return result =>
      enter_task run (S i)
        (step_update (AgentStep.id step)
           (mkStepUpdates (Some AgentStepStatus.Completed) (Some result) None) t)
  | Throw error =>
      let t1 :=
        step_update (AgentStep.id step)
          (mkStepUpdates (Some AgentStepStatus.Failed) None (Some (error_text error))) t in
      if loop_stopOnError (run_options run) then
        spread_task t1
          (mkTaskUpdates (Some AgentTaskStatus.Failed) None None
             (Some ("Step " +:+ AgentStep.name step +:+ " failed: "
                    +:+ error_text error)))
      else enter_task run (S i) t1
  end.

Definition settle_phase (run : Run) (c : Collaborators) (i : nat) (step : AgentStep.t)
  : Phase :=
  match executeStep c step (run_context run) (run_options run) with
  | Return _ => enter_phase run (S i)
  | Throw _ =>
      if loop_stopOnError (run_options run) then Resolved else enter_phase run (S i)
  end.

(** [t'] is a later state of the task [t]: the same task, the same steps
    by their identifiers, and a status that has not moved back. *)
Definition evolves (t t' : AgentTask.t) : Prop :=
  AgentTask.id t' = AgentTask.id t /\
  AgentTask.name t' = AgentTask.name t /\
  AgentTask.description t' = AgentTask.description t /\
  AgentTask.metadata t' = AgentTask.metadata t /\
  step_ids t' = step_ids t /\
  rank (AgentTask.status t) <= rank (AgentTask.status t').

(** The steps after position [n] are the same in [t] and [t']. *)
Definition same_after (n : nat) (t t' : AgentTask.t) : Prop :=
  forall j, n < j -> AgentTask.steps t' !! j = AgentTask.steps t !! j.

(** Step [j] of [t] is pending, if there is one. *)
Definition pending_at (t : AgentTask.t) (j : nat) : Prop :=
  forall step, AgentTask.steps t !! j = Some step ->
    AgentStep.status step = AgentStepStatus.Pending.

(** The invariant of the service: every run has its task in the table, under
    the identifier and with the step identifiers that the loop captured; no
    two runs have the same task, and no two steps of a run the same
    identifier; a loop that awaits step [i] has such a step, and the steps
    after [i] are still pending. *)
Record coherent (s : Service) : Prop := mk_coherent {
  run_has_task :
    forall r run, runs s !! r = Some run ->
      exists t, _tasks s !! AgentTask.id (run_task run) = Some t /\
                step_ids t = step_ids (run_task run);
  run_tasks_distinct :
    forall r r' run run', runs s !! r = Some run -> runs s !! r' = Some run' ->
      AgentTask.id (run_task run) = AgentTask.id (run_task run') -> r = r';
  run_steps_distinct :
    forall r run, runs s !! r = Some run -> NoDup (step_ids (run_task run));
  awaited_step_exists :
    forall r run i, runs s !! r = Some run -> phase run = Awaiting i ->
      i < List.length (AgentTask.steps (run_task run));
  later_steps_pending :
    forall r run i t j, runs s !! r = Some run -> phase run = Awaiting i ->
      _tasks s !! AgentTask.id (run_task run) = Some t -> i < j -> pending_at t j;
}.

(** The loop of the run has returned. *)
Definition stopped (run : Run) : Prop :=
  match phase run with
  | Awaiting _ => False
  | Resolved | Notified => True
  end.

End Life.


(** ** Further notions used to state properties of the sandbox *)

Module Notions.

Import JS Sandbox.

(** The two characters that [parseCommand] reads as quotes. *)
Definition is_quote (c : ascii) : bool :=
  Ascii.eqb c (ascii_of_nat 34) || Ascii.eqb c "'".

(** A word that needs no quoting: it is not empty and holds neither a space
    nor a quote. *)
Definition plain (word : string) : Prop :=
  word <> "" /\
  Forall (fun c => c <> " "%char /\ is_quote c = false) (list_ascii_of_string word).

(** The character [q] does not occur in [s]. *)
Definition free_of (q : ascii) (s : string) : Prop :=
  Forall (fun c => c <> q) (list_ascii_of_string s).

(** What the callback of [allowedCommands.some] computes for one entry: an
    entry written between slashes is used as a regular expression and only
    as that; any other entry is a prefix. *)
Definition allows (h : Host) (command entry : string) : Prop :=
  if Spec.written_as_regex entry
  then exists pattern,
         RegExp h (slice_1_m1 entry) = Return pattern /\ pattern command = true
  else startsWith command entry = true.

(** Every quote that is opened in [command] is closed in it. *)
Definition closed (command : string) : Prop :=
  inQuotes (fold_left tokenizer_step (list_ascii_of_string command)
                      (mkTokenizer [] "" false None)) = false.

(** A lower-case hexadecimal digit. *)
Definition is_hex (c : ascii) : bool :=
  let n := nat_of_ascii c in
  (Nat.leb 48 n && Nat.leb n 57) || (Nat.leb 97 n && Nat.leb n 102).

(** The words with which the dangerous patterns of [validateChanges] begin. *)
Definition trigger_words : list string :=
  ["eval"; "Function"; "require"; "process.exit"; "rm"].

(** [c] ends with the outcome [o], having asked [added] of the operating
    system and changed the table of executions by [f]; the caches of the
    loaded modules may have changed as well. *)
Definition runs_to {A} (c : M A) (o : Outcome A)
    (f : gmap string nat -> gmap string nat) (added : list Effect) : Prop :=
  forall st, exists m,
    c st = (o, mkState m (f (activeExecutions st)) (effects st ++ added)%list).

(** The requests that a call added to those of the state it started in. *)
Definition added (st st' : State) : list Effect :=
  drop (List.length (effects st)) (effects st').

End Notions.


(** ** The rest of the agent service *)

Module AgentService.

Import JS Agent.

(** [getTask] (lines 170-172) *)
Definition getTask (taskId : string) (s : Service) : option AgentTask.t :=
  _tasks s !! taskId.

(** The values of the map [_tasks], as [this._tasks.values()] lists them: a
    JavaScript [Map] keeps its keys in the order in which they were first
    set, which for [_tasks] is the order in which [executeTask] created the
    tasks, one run each. *)
Definition values (s : Service) : list AgentTask.t :=
  omap (fun run => _tasks s !! AgentTask.id (run_task run)) (runs s).

(** [getActiveTasks] (lines 183-187) *)
Definition is_active (task : AgentTask.t) : bool :=
  bool_decide (AgentTask.status task = AgentTaskStatus.Running)
  || bool_decide (AgentTask.status task = AgentTaskStatus.Pending).

Definition getActiveTasks (s : Service) : list AgentTask.t :=
  List.filter is_active (values s).

(** [executeTaskFromDescription] (lines 165-168); without [options],
    [executeTask] takes its default, the empty object. *)
Definition executeTaskFromDescription (c : Collaborators) (description : string)
    (context : URI) (options : option AgentExecutionOptions)
    (taskId : string) (stepUuid : nat -> string) (s : Service)
  : Outcome AgentTask.t * Service :=
  match planTask c description context with
  | Throw error => (Throw error, s)
  | Return plan =>
      let '(task, s') :=
        executeTask plan context
          (default (mkExecutionOptions None None None None) options)
          taskId stepUuid s in
      (Return task, s')
  end.

(** [dispose] (lines 38-46): every source in the side table is cancelled.
    Disposing the two emitters removes their listeners; the lists of the
    model record what is fired, whoever listens, and are left as they are. *)
Definition dispose (s : Service) : Service :=
  foldr cancel s (snd <$> map_to_list (_taskCancellations s)).

End AgentService.

(** ** The steps of a task, in order *)

Module Order.

Import JS Agent Life.

(** Step [j] of [t], if there is one, has been handled. *)
Definition finished_at (t : AgentTask.t) (j : nat) : Prop :=
  forall step, AgentTask.steps t !! j = Some step ->
    AgentStep.status step = AgentStepStatus.Completed \/
    AgentStep.status step = AgentStepStatus.Failed.

(** The steps of [t] are handled in order: the first [n] have been handled,
    the steps after step [n] are pending, and step [n] itself is running or
    pending. *)
Definition in_order (t : AgentTask.t) : Prop :=
  exists n,
    (forall j, j < n -> finished_at t j) /\
    (forall j, n < j -> pending_at t j) /\
    (forall step, AgentTask.steps t !! n = Some step ->
       AgentStep.status step = AgentStepStatus.Running \/
       AgentStep.status step = AgentStepStatus.Pending).

(** Two states of a step: the same identifier, type, name and command. *)
Definition alike (a b : AgentStep.t) : Prop :=
  AgentStep.id b = AgentStep.id a /\
  AgentStep.type b = AgentStep.type a /\
  AgentStep.name b = AgentStep.name a /\
  AgentStep.command b = AgentStep.command a.

(** [t'] has the steps of [t], one for one, up to their status, result and
    error. *)
Definition same_steps (t t' : AgentTask.t) : Prop :=
  Forall2 alike (AgentTask.steps t) (AgentTask.steps t').

(** What one operation does to a run and to the task of that run. *)
Inductive move : Run -> AgentTask.t -> Run -> AgentTask.t -> Prop :=
| move_none run t :
    move run t run t
| move_cancel run t :
    move run t (cancelled run) t
| move_cancelTask run t :
    move run t (cancelled run) (spread_task t (mark AgentTaskStatus.Cancelled))
| move_settle run t i step c :
    phase run = Awaiting i ->
    AgentTask.steps (run_task run) !! i = Some step ->
    move run t (with_phase (settle_phase run c i step) run) (settle_task run c i step t)
| move_notify run t :
    phase run = Resolved ->
    move run t (with_phase Notified run) t.

(** The run and the task that [executeTask] creates. *)
Definition created (plan : AgentPlan) (context : URI) (options : AgentExecutionOptions)
    (taskId : string) (stepUuid : nat -> string) (run : Run) (t : AgentTask.t) : Prop :=
  let task := new_task plan (default 10%Z (maxSteps options)) taskId stepUuid in
  let run0 :=
    mkRun false task context
          (mkLoopOptions (default true (retryOnFailure options))
                         (default true (stopOnError options))
                         (default false (dryRun options)))
          (Awaiting 0) in
  run = with_phase (enter_phase run0 0) run0 /\ t = enter_task run0 0 task.

(** The side table and the runs agree: an entry of the table names the run
    of its task, and a run whose task has no entry has been cancelled. *)
Record tabled (s : Service) : Prop := mk_tabled {
  entry_names_run :
    forall k r, _taskCancellations s !! k = Some r ->
      exists run, runs s !! r = Some run /\ AgentTask.id (run_task run) = k;
  run_has_entry :
    forall r run, runs s !! r = Some run ->
      _taskCancellations s !! AgentTask.id (run_task run) = Some r \/
      isCancellationRequested run = true;
  task_has_run :
    forall k t, _tasks s !! k = Some t ->
      AgentTask.id t = k /\
      exists r run, runs s !! r = Some run /\ AgentTask.id (run_task run) = k;
}.

(** The last update event that was fired for the task [k], if any. *)
Definition last_update (k : string) (s : Service) : option AgentTask.t :=
  last (filter (fun event => AgentTask.id event = k) (_onDidTaskUpdate s)).

(** The table holds, for every identifier, the task of the last update
    event fired for it. *)
Definition synced (s : Service) : Prop :=
  forall k, last_update k s = _tasks s !! k.

End Order.

(** ** More sample inputs *)

Module Scenario.

Import JS Agent.

(** A collaborator whose model answers with an empty array between two
    sentences, and a [JSON.parse] that reads that array. *)
Definition parse_empty_array (text : string) : Outcome (list PlanStep.t) :=
  if String.eqb text "[]" then Return []
  else Throw (Err (mkError "SyntaxError" "Unexpected token" None None None)).

Definition idle_model : Collaborators :=
  mkCollaborators (Some "local-model")
    (fun _ => Return (mkResponse "Nothing to do: [] (no steps)." "local-model"))
    (fun _ _ => Return [])
    (fun _ => Return tt)
    parse_empty_array.

(** A collaborator without a model. *)
Definition no_model : Collaborators :=
  mkCollaborators None
    (fun _ => Throw (Err (newError "unreachable")))
    (fun _ _ => Return [])
    (fun _ => Return tt)
    parse_empty_array.

(** A command service that fails. *)
Definition failing_commands : Collaborators :=
  mkCollaborators (Some "local-model")
    (fun _ => Return (mkResponse "ok" "local-model"))
    (fun _ _ => Return [])
    (fun _ => Throw (Err (newError "command not found")))
    parse_empty_array.

(** A plan that asks for generated code. *)
Definition generate_plan : AgentPlan :=
  mkPlan [PlanStep.mk AgentStepType.Generate "write the parser" None;
          PlanStep.mk AgentStepType.Verify "check the build" None].

(** The options of a dry run. *)
Definition dry_run : AgentExecutionOptions :=
  mkExecutionOptions None None None (Some true).

End Scenario.

(** * Properties *)

(** ** Strings *)

Lemma append_cons (c : ascii) (a b : string) : String c a +:+ b = String c (a +:+ b).
Proof. reflexivity. Qed.

Lemma append_nil (b : string) : "" +:+ b = b.
Proof. reflexivity. Qed.

Create Rewrite HintDb str.
#[local] Hint Rewrite append_nil append_cons : str.

Lemma append_assoc (a b c : string) : (a +:+ b) +:+ c = a +:+ (b +:+ c).
Proof.
  induction a as [|x a IH]; [done |].
  by rewrite !append_cons, IH.
Qed.

Lemma prefix_append (p r : string) : String.prefix p (p +:+ r) = true.
Proof.
  induction p as [|c p IH].
  - by destruct r.
  - rewrite append_cons. simpl. destruct (ascii_dec c c); [done | congruence].
Qed.

Lemma prefix_split (p s : string) :
  String.prefix p s = true <-> exists r, s = p +:+ r.
Proof.
  split.
  - revert s. induction p as [|c p IH]; intros s H.
    + by exists s.
    + destruct s as [|d s]; simpl in H; [done |].
      destruct (ascii_dec c d) as [-> | ]; [| done].
      destruct (IH _ H) as [r ->]. by exists r.
  - intros [r ->]. apply prefix_append.
Qed.

Lemma startsWith_split (s p : string) :
  JS.startsWith s p = true <-> exists r, s = p +:+ r.
Proof. apply prefix_split. Qed.

Lemma includes_prefix (s u : string) :
  String.prefix u s = true -> JS.includes s u = true.
Proof. intros H. destruct s; cbn [JS.includes]; by rewrite H. Qed.

Lemma includes_append (a u b : string) : JS.includes (a +:+ u +:+ b) u = true.
Proof.
  induction a as [|c a IH].
  - rewrite append_nil. apply includes_prefix, prefix_append.
  - rewrite append_cons. cbn [JS.includes]. rewrite IH. apply orb_true_r.
Qed.

(** ** The allow-list *)

Import Sandbox.

Lemma default_allowed_split (command : string) :
  existsb (fun allowed => JS.startsWith command allowed) defaultAllowed = true <->
  exists p rest, p ∈ defaultAllowed /\ command = p +:+ rest.
Proof.
  rewrite existsb_exists. split.
  - intros (p & Hin & Hp). apply startsWith_split in Hp as [rest ->].
    exists p, rest. split; [by apply list_elem_of_In | done].
  - intros (p & rest & Hin & ->). exists p. split; [by apply list_elem_of_In |].
    apply startsWith_split. by exists rest.
Qed.

(** C10. With no [allowedCommands], or an empty list, a command is allowed
    exactly when it starts with one of the seven default prefixes, the check
    never throws, and so every command that begins with the characters
    [node], such as [nodemon ...], is allowed. *)
Theorem default_allowlist_is_prefix_based (h : Host) (command : string) :
  isCommandAllowed h command (Some []) = isCommandAllowed h command None /\
  (exists b, isCommandAllowed h command None = JS.Return b /\
     (b = true <->
      exists p rest,
        p ∈ ["npm test"; "npm run test"; "npx jest"; "npx mocha"; "npx tsc";
             "node"; "python -m pytest"] /\ command = p +:+ rest)) /\
  (forall rest, isCommandAllowed h ("node" +:+ rest) None = JS.Return true) /\
  (forall anything, isCommandAllowed h ("nodemon " +:+ anything) None = JS.Return true).
Proof.
  split; [reflexivity |]. split; [| split].
  - eexists. split; [reflexivity |]. apply default_allowed_split.
  - intros rest. unfold isCommandAllowed. f_equal.
    apply default_allowed_split. exists "node", rest.
    split; [| reflexivity]. unfold defaultAllowed. set_solver.
  - intros anything. reflexivity.
Qed.

(** ** The sandbox monad and the module loaders *)

Lemma bind_return {A B} (c : M A) (k : A -> M B) st a st' :
  c st = (JS.Return a, st') -> (c ≫= k) st = k a st'.
Proof. intros E. unfold mbind, M_bind, bind. by rewrite E. Qed.

Lemma bind_throw {A B} (c : M A) (k : A -> M B) st t st' :
  c st = (JS.Throw t, st') -> (c ≫= k) st = (JS.Throw t, st').
Proof. intros E. unfold mbind, M_bind, bind. by rewrite E. Qed.

Import Spec.

Lemma loads_bind {A B} (c : M A) (k : A -> M B) a b :
  loads c a -> loads (k a) b -> loads (c ≫= k) b.
Proof.
  intros Hc Hk st. destruct (Hc st) as [m E].
  rewrite (bind_return _ _ _ _ _ E). destruct (Hk (mkState m (activeExecutions st) (effects st))) as [m' E'].
  exists m'. by rewrite E'.
Qed.

Lemma loads_ret {A} (a : A) : loads (ret a) a.
Proof. intros st. exists (modules st). by destruct st. Qed.

Lemma loads_get_modules (k : Modules -> M unit) :
  (forall m, loads (k m) tt) -> loads (get_modules ≫= k) tt.
Proof.
  intros Hk st. unfold mbind, M_bind, bind, get_modules. apply Hk.
Qed.

Lemma loads_put_modules m : loads (put_modules m) tt.
Proof. intros st. by exists m. Qed.

Section NodeHost.

Variable h : Host.
Hypothesis node : eval_require h = true.

Lemma loads_getNodeRequire : loads (getNodeRequire h) tt.
Proof.
  apply loads_get_modules. intros m.
  destruct (_nodeRequire m); [apply loads_ret |].
  rewrite node. apply loads_put_modules.
Qed.

Lemma loads_after_require (f : Modules -> Modules) :
  loads (getNodeRequire h ≫= (fun _ => get_modules ≫= (fun m => put_modules (f m)))) tt.
Proof.
  eapply loads_bind; [apply loads_getNodeRequire |].
  apply loads_get_modules. intros m. apply loads_put_modules.
Qed.

Lemma loads_getPromisify : loads (getPromisify h) tt.
Proof.
  apply loads_get_modules. intros m.
  destruct (_promisify m); [apply loads_ret | apply loads_after_require].
Qed.

Lemma loads_getExec : loads (getExec h) tt.
Proof.
  apply loads_get_modules. intros m.
  destruct (_exec m); [apply loads_ret | apply loads_after_require].
Qed.

Lemma loads_getSpawn : loads (getSpawn h) tt.
Proof.
  apply loads_get_modules. intros m.
  destruct (_spawn m); [apply loads_ret | apply loads_getExec].
Qed.

Lemma loads_getFsPromises : loads (getFsPromises h) tt.
Proof.
  apply loads_get_modules. intros m.
  destruct (_fsPromises m); [apply loads_ret | apply loads_after_require].
Qed.

Lemma loads_getCrypto : loads (getCrypto h) tt.
Proof.
  apply loads_get_modules. intros m.
  destruct (_crypto m); [apply loads_ret | apply loads_after_require].
Qed.

Lemma loads_getExecAsync : loads (getExecAsync h) tt.
Proof.
  apply loads_get_modules. intros m.
  destruct (_execAsync m); [apply loads_ret |].
  eapply loads_bind; [apply loads_getPromisify |].
  eapply loads_bind; [apply loads_getExec |].
  apply loads_get_modules. intros m'. apply loads_put_modules.
Qed.

Lemma loads_generateSandboxId content :
  loads (generateSandboxId h content)
        (String.substring 0 16 (SHA256.digest_hex content)).
Proof.
  eapply loads_bind; [apply loads_getCrypto | apply loads_ret].
Qed.

End NodeHost.

(** The digest agrees with the test vectors of the standard. *)
Example digest_of_abc :
  SHA256.digest_hex "abc"
  = "ba7816bf8f01cfea414140de5dae2223b00361a396177a9cb410ff61f20015ad".
Proof. by vm_compute. Qed.

Example digest_of_the_empty_string :
  SHA256.digest_hex EmptyString
  = "e3b0c44298fc1c149afbf4c8996fb92427ae41e4649b934ca495991b7852b855".
Proof. by vm_compute. Qed.

(** C8. On a host that has Node's [require], [generateSandboxId] returns
    the first sixteen hexadecimal digits of the SHA-256 of its argument
    whatever the state it is called in, and changes nothing but the caches
    of the loaded modules: equal contents give equal identifiers, also
    across repeated calls. *)
Theorem generateSandboxId_pure (h : Host) (st1 st2 : State) (a b : string) :
  eval_require h = true ->
  a = b ->
  exists id,
    id = String.substring 0 16 (SHA256.digest_hex a) /\
    fst (generateSandboxId h a st1) = JS.Return id /\
    fst (generateSandboxId h b st2) = JS.Return id /\
    fst (generateSandboxId h b (snd (generateSandboxId h a st1))) = JS.Return id /\
    Spec.same_but_modules st1 (snd (generateSandboxId h a st1)).
Proof.
  intros node <-. eexists. split; [reflexivity |].
  destruct (loads_generateSandboxId h node a st1) as [m1 E1].
  destruct (loads_generateSandboxId h node a st2) as [m2 E2].
  rewrite E1, E2. simpl.
  destruct (loads_generateSandboxId h node a
              (mkState m1 (activeExecutions st1) (effects st1))) as [m3 E3].
  rewrite E3. by repeat split.
Qed.

Lemma generateSandboxId_pure_witness :
  fst (generateSandboxId Sample.host "rm -rf /" initial) = JS.Return "5c7923bd67b06c93" /\
  exists id,
    id = String.substring 0 16 (SHA256.digest_hex "rm -rf /") /\
    fst (generateSandboxId Sample.host "rm -rf /" initial) = JS.Return id /\
    fst (generateSandboxId Sample.host "rm -rf /"
           (mkState (mkModules true true true true true true true) ∅ [Rm "/tmp/x"]))
      = JS.Return id /\
    fst (generateSandboxId Sample.host "rm -rf /"
           (snd (generateSandboxId Sample.host "rm -rf /" initial))) = JS.Return id /\
    Spec.same_but_modules initial (snd (generateSandboxId Sample.host "rm -rf /" initial)).
Proof.
  split; [vm_compute; reflexivity |].
  apply (generateSandboxId_pure Sample.host initial
           (mkState (mkModules true true true true true true true) ∅ [Rm "/tmp/x"])
           "rm -rf /" "rm -rf /"); reflexivity.
Defined.

(** ** Commands outside the allow-list *)

Lemma some_allowed_no_match (h : Host) (command : string) (l : list string) :
  Spec.regex_entries_valid h l ->
  (forall entry, entry ∈ l -> ~ Spec.entry_matches h command entry) ->
  some_allowed h command l = JS.Return false.
Proof.
  induction l as [|allowed rest IH]; intros Hvalid Hno; [done |].
  assert (Hrest : some_allowed h command rest = JS.Return false).
  { apply IH.
    - intros e He. apply Hvalid. by right.
    - intros e He. apply Hno. by right. }
  assert (Hhead := Hno allowed (list_elem_of_here _ _)).
  cbn [some_allowed].
  destruct (JS.startsWith allowed "/" && JS.endsWith allowed "/") eqn:Hre.
  - destruct (Hvalid allowed (list_elem_of_here _ _) Hre) as [pattern Hp].
    rewrite Hp. destruct (pattern command) eqn:Hm; [| done].
    exfalso. apply Hhead. right. split; [done |]. by exists pattern.
  - destruct (JS.startsWith command allowed) eqn:Hs; [| done].
    exfalso. apply Hhead. by left.
Qed.

Lemma isCommandAllowed_no_match (h : Host) (command : string) (options : SandboxOptions) :
  Spec.regex_entries_valid h (Spec.effective_allowlist options) ->
  (forall entry, entry ∈ Spec.effective_allowlist options ->
     ~ Spec.entry_matches h command entry) ->
  isCommandAllowed h command (allowedCommands options) = JS.Return false.
Proof.
  unfold Spec.effective_allowlist, isCommandAllowed. intros Hvalid Hno.
  assert (Hdefault :
    (forall entry, entry ∈ defaultAllowed -> ~ Spec.entry_matches h command entry) ->
    JS.Return (existsb (fun allowed => JS.startsWith command allowed) defaultAllowed)
    = JS.Return false).
  { intros Hd. f_equal. apply not_true_is_false. intros Hex.
    apply existsb_exists in Hex as (p & Hin & Hp).
    apply (Hd p); [by apply list_elem_of_In | by left]. }
  destruct (allowedCommands options) as [[|allowed rest]|]; [by apply Hdefault | | by apply Hdefault].
  by apply some_allowed_no_match.
Qed.

(** C3, as amended.  On a host that has Node's [require], when every
    allow-list entry written between slashes is a regular expression and the
    command matches no entry of the effective allow-list, [executeTests]
    returns the result with [success: false] at once: nothing is asked of the
    operating system (no folder, no process) and no execution is registered. *)
Theorem disallowed_command_is_rejected (h : Host) (w : TestWorld) (command : string)
    (options : SandboxOptions) (st : State) :
  eval_require h = true ->
  Spec.regex_entries_valid h (Spec.effective_allowlist options) ->
  (forall entry, entry ∈ Spec.effective_allowlist options ->
     ~ Spec.entry_matches h command entry) ->
  exists r st',
    executeTests h w command options st = (JS.Return r, st') /\
    success r = false /\
    r = mkResult false "" ("Command not allowed: " +:+ command) (JS.Num 1)
                 (t_end w - t_start w) /\
    effects st' = effects st /\
    activeExecutions st' = activeExecutions st.
Proof.
  intros node Hvalid Hno.
  pose proof (isCommandAllowed_no_match h command options Hvalid Hno) as Hallowed.
  destruct (loads_generateSandboxId h node command st) as [m E].
  unfold executeTests. rewrite (bind_return _ _ _ _ _ E).
  unfold mbind at 1, M_bind, bind, lift. rewrite Hallowed. cbn [negb].
  eexists _, _. split; [reflexivity |]. by repeat split.
Qed.

Lemma disallowed_command_is_rejected_witness :
  exists r st',
    executeTests Sample.host Sample.killed_by_timer "rm -rf /" no_options initial
    = (JS.Return r, st') /\
    success r = false /\
    r = mkResult false "" "Command not allowed: rm -rf /" (JS.Num 1) 60001 /\
    effects st' = [] /\
    activeExecutions st' = ∅.
Proof.
  apply (disallowed_command_is_rejected Sample.host Sample.killed_by_timer
           "rm -rf /" no_options initial).
  - reflexivity.
  - intros entry Hin Hre. exfalso.
    cbn in Hin. set_unfold in Hin.
    repeat (destruct Hin as [-> | Hin]; [by vm_compute in Hre |]). done.
  - intros entry Hin [Hs | [Hre _]]; cbn in Hin; set_unfold in Hin;
      repeat (destruct Hin as [-> | Hin]; [by vm_compute in Hs || by vm_compute in Hre |]); done.
Defined.

(** An allow-list entry that is written between slashes but is no regular
    expression makes the check throw: the command matches no entry, and the
    call is rejected instead of returning a result. *)
Lemma invalid_allowlist_entry_throws :
  (forall entry, entry ∈ ["/(/"] -> ~ Spec.entry_matches Sample.host "ls" entry) /\
  exists error,
    JS.name error = "SyntaxError" /\
    fst (executeTests Sample.host Sample.killed_by_timer "ls"
           (mkOptions None None (Some ["/(/"]) None None) initial)
    = JS.Throw (JS.Err error).
Proof.
  split; [| eexists; split; [| by vm_compute]; done].
  intros entry Hin. apply list_elem_of_singleton in Hin as ->.
  intros [Hs | (_ & pattern & Hp & _)]; [by vm_compute in Hs | by vm_compute in Hp].
Qed.

(** ** Failures of the sandbox *)

Lemma or_code_truthy (o : option JS.Code) : JS.truthy_code (JS.or_code o (JS.Num 1)) = true.
Proof.
  destruct o as [c|]; [| done]. unfold JS.or_code.
  by destruct (JS.truthy_code c) eqn:E.
Qed.

Lemma or_string_empty (o : option string) (d : string) : JS.or_string o d = "" -> d = "".
Proof.
  destruct o as [s|]; [| done]. unfold JS.or_string, JS.truthy_string.
  destruct (String.eqb_spec s ""); simpl; [done | congruence].
Qed.

Lemma cleanupSandbox_returns (h : Host) (dir : URI) (st : State) :
  exists st', cleanupSandbox h dir st = (JS.Return tt, st').
Proof.
  unfold cleanupSandbox, try_catch, mbind, M_bind, bind.
  destruct (getFsPromises h st) as [[[]|t] st1]; by eexists.
Qed.

Lemma executeInVM_returns (h : Host) (w : VMWorld) (code : string)
    (options : SandboxOptions) (st : State) :
  eval_require h = true ->
  exists r st',
    executeInVM h w code options st = (JS.Return r, st') /\
    match Spec.vm_failure w (or_number (timeout options) 30000) with
    | None => success r = true /\ exitCode r = JS.Num 0
    | Some error =>
        r = mkResult false
              (JS.or_string (JS.stdout_of error) "")
              (JS.or_string (JS.stderr_of error)
                 (JS.or_string (JS.message_of error) (JS.String_of error)))
              (JS.or_code (JS.code_of error) (JS.Num 1))
              (vm_end w - vm_start w)
    end.
Proof.
  intros node.
  destruct (loads_generateSandboxId h node code st) as [m E].
  unfold executeInVM. rewrite (bind_return _ _ _ _ _ E).
  unfold Spec.vm_failure, try_catch.
  unfold mbind at 1, M_bind at 1, bind at 1, effect at 1.
  unfold mbind at 1, M_bind at 1, bind at 1, lift at 1.
  destruct (vm_createFolder w) as [[]|t1].
  2:{ unfold mbind, M_bind, bind.
      match goal with |- context [cleanupSandbox h ?d ?s] =>
        destruct (cleanupSandbox_returns h d s) as [st' ->] end.
      by eexists _, _. }
  unfold mbind at 1, M_bind at 1, bind at 1, effect at 1.
  unfold mbind at 1, M_bind at 1, bind at 1, lift at 1.
  destruct (vm_writeFile w) as [[]|t2].
  2:{ unfold mbind, M_bind, bind.
      match goal with |- context [cleanupSandbox h ?d ?s] =>
        destruct (cleanupSandbox_returns h d s) as [st' ->] end.
      by eexists _, _. }
  match goal with |- context [getExecAsync h ≫= ?k] =>
    match goal with |- context [(getExecAsync h ≫= k) ?s] =>
      destruct (loads_getExecAsync h node s) as [m' E'];
      rewrite (bind_return _ k _ _ _ E') end end.
  unfold mbind at 1, M_bind at 1, bind at 1, effect at 1.
  unfold mbind at 1, M_bind at 1, bind at 1, lift at 1.
  destruct (race (or_number (timeout options) 30000) (vm_race w)) as [[out err]|t3].
  - unfold mbind, M_bind, bind.
    match goal with |- context [cleanupSandbox h ?d ?s] =>
      destruct (cleanupSandbox_returns h d s) as [st' ->] end.
    by eexists _, _.
  - unfold mbind, M_bind, bind.
    match goal with |- context [cleanupSandbox h ?d ?s] =>
      destruct (cleanupSandbox_returns h d s) as [st' ->] end.
    by eexists _, _.
Qed.

Lemma executeTests_disallowed (h : Host) (w : TestWorld) (command : string)
    (options : SandboxOptions) (st : State) :
  eval_require h = true ->
  isCommandAllowed h command (allowedCommands options) = JS.Return false ->
  exists st',
    executeTests h w command options st
    = (JS.Return (mkResult false "" ("Command not allowed: " +:+ command) (JS.Num 1)
                           (t_end w - t_start w)), st').
Proof.
  intros node Hallowed.
  destruct (loads_generateSandboxId h node command st) as [m E].
  unfold executeTests. rewrite (bind_return _ _ _ _ _ E).
  unfold mbind at 1, M_bind, bind, lift. rewrite Hallowed. cbn [negb].
  by eexists.
Qed.

Lemma executeTests_allowed (h : Host) (w : TestWorld) (command : string)
    (options : SandboxOptions) (st : State) :
  eval_require h = true ->
  isCommandAllowed h command (allowedCommands options) = JS.Return true ->
  exists st',
    executeTests h w command options st =
    (match t_createFolder w with
     | JS.Throw t =>
         JS.Return (mkResult false "" (JS.or_string (JS.message_of t) (JS.String_of t))
                             (JS.Num 1) (t_end w - t_start w))
     | JS.Return _ =>
         match t_child w with
         | SpawnThrows t => JS.Throw t
         | Closed _ _ code out err =>
             JS.Return (mkResult (bool_decide (code = Some 0%Z)) out err
                                 (JS.Num (or_number code 0)) (t_end w - t_start w))
         | Errored error out =>
             JS.Return (mkResult false out (JS.message error) (JS.Num 1)
                                 (t_end w - t_start w))
         end
     end, st').
Proof.
  intros node Hallowed.
  destruct (loads_generateSandboxId h node command st) as [m E].
  unfold executeTests. rewrite (bind_return _ _ _ _ _ E).
  unfold mbind at 1, M_bind at 1, bind at 1, lift at 1. rewrite Hallowed. cbn [negb].
  unfold mbind at 1, M_bind at 1, bind at 1, try_catch.
  unfold mbind at 1, M_bind at 1, bind at 1, effect at 1.
  unfold mbind at 1, M_bind at 1, bind at 1, lift at 1.
  destruct (t_createFolder w) as [[]|t1]; [| by eexists].
  cbn [ret].
  match goal with |- context [getSpawn h ≫= ?k] =>
    match goal with |- context [(getSpawn h ≫= k) ?s] =>
      destruct (loads_getSpawn h node s) as [m' E'];
      rewrite (bind_return _ k _ _ _ E') end end.
  unfold mbind at 1, M_bind at 1, bind at 1, effect at 1.
  destruct (t_child w) as [t | timer token code out err | error out].
  - by eexists.
  - unfold set_execution, delete_execution, when, effect, ret, mbind, M_bind, bind.
    destruct timer, token;
      match goal with |- context [cleanupSandbox h ?d ?s] =>
        destruct (cleanupSandbox_returns h d s) as [st' ->] end;
      by eexists.
  - unfold set_execution, delete_execution, mbind, M_bind, bind.
    match goal with |- context [cleanupSandbox h ?d ?s] =>
      destruct (cleanupSandbox_returns h d s) as [st' ->] end.
    by eexists.
Qed.

(** C6, as amended.  On a host that has Node's [require]:
    [executeInVM] never throws, and a failure of the folder creation, of the
    file write, of the script, the timeout ([Execution timeout after ...ms])
    and the cancellation ([Execution cancelled]) are each returned with
    [success: false], a truthy exit code ([error.code] or 1) and, as stderr,
    the first non-empty of [error.stderr], [error.message], [String(error)];
    [executeTests] returns [success: false] with a message and exit code 1
    for a command that is not allowed, for a folder that cannot be created
    and for an ['error'] event of the child; when the child closes it returns
    what the child wrote to stderr and its exit code, or 0 when a signal
    ended it. *)
Theorem sandbox_failures_are_results (h : Host) (st : State) :
  eval_require h = true ->
  (forall w code options,
     exists r st',
       executeInVM h w code options st = (JS.Return r, st') /\
       (forall error,
          Spec.vm_failure w (or_number (timeout options) 30000) = Some error ->
          success r = false /\
          JS.truthy_code (exitCode r) = true /\
          exitCode r = JS.or_code (JS.code_of error) (JS.Num 1) /\
          stderr r = JS.or_string (JS.stderr_of error)
                       (JS.or_string (JS.message_of error) (JS.String_of error)) /\
          (stderr r = "" -> JS.String_of error = "")) /\
       (vm_createFolder w = JS.Return tt -> vm_writeFile w = JS.Return tt ->
        vm_race w = TimedOut ->
        success r = false /\ exitCode r = JS.Num 1 /\
        stderr r = "Execution timeout after "
                   +:+ pretty (or_number (timeout options) 30000) +:+ "ms") /\
       (vm_createFolder w = JS.Return tt -> vm_writeFile w = JS.Return tt ->
        vm_race w = TokenFired ->
        success r = false /\ exitCode r = JS.Num 1 /\
        stderr r = "Execution cancelled")) /\
  (forall w command options,
     (isCommandAllowed h command (allowedCommands options) = JS.Return false ->
      exists r st',
        executeTests h w command options st = (JS.Return r, st') /\
        success r = false /\ exitCode r = JS.Num 1 /\
        stderr r = "Command not allowed: " +:+ command) /\
     (isCommandAllowed h command (allowedCommands options) = JS.Return true ->
      (forall t, t_createFolder w = JS.Throw t ->
         exists r st',
           executeTests h w command options st = (JS.Return r, st') /\
           success r = false /\ exitCode r = JS.Num 1 /\
           stderr r = JS.or_string (JS.message_of t) (JS.String_of t)) /\
      (forall error out,
         t_createFolder w = JS.Return tt -> t_child w = Errored error out ->
         exists r st',
           executeTests h w command options st = (JS.Return r, st') /\
           success r = false /\ exitCode r = JS.Num 1 /\
           stderr r = JS.message error) /\
      (forall timer_fired token_fired code out err,
         t_createFolder w = JS.Return tt ->
         t_child w = Closed timer_fired token_fired code out err ->
         exists r st',
           executeTests h w command options st = (JS.Return r, st') /\
           (success r = true <-> code = Some 0%Z) /\
           exitCode r = JS.Num (or_number code 0) /\
           stderr r = err /\
           (code = None -> success r = false /\ exitCode r = JS.Num 0)))).
Proof.
  intros node. split.
  - intros w code options.
    destruct (executeInVM_returns h w code options st node) as (r & st' & E & Hr).
    exists r, st'. split; [done |]. split; [| split].
    + intros error Herror. rewrite Herror in Hr. subst r. cbn.
      split; [done |]. split; [apply or_code_truthy |]. do 2 (split; [done |]).
      intros Hempty. by apply or_string_empty, or_string_empty in Hempty.
    + intros Hfolder Hfile Hrace. unfold Spec.vm_failure in Hr.
      rewrite Hfolder, Hfile, Hrace in Hr. cbn in Hr. by subst r.
    + intros Hfolder Hfile Hrace. unfold Spec.vm_failure in Hr.
      rewrite Hfolder, Hfile, Hrace in Hr. cbn in Hr. by subst r.
  - intros w command options. split.
    + intros Hallowed.
      destruct (executeTests_disallowed h w command options st node Hallowed) as [st' E].
      by eexists _, _.
    + intros Hallowed.
      destruct (executeTests_allowed h w command options st node Hallowed) as [st' E].
      repeat split.
      * intros t Ht. rewrite Ht in E. by eexists _, _.
      * intros error out Hf Hc. rewrite Hf, Hc in E. by eexists _, _.
      * intros timer token code out err Hf Hc. rewrite Hf, Hc in E.
        eexists _, _. split; [exact E |]. cbn.
        split; [apply bool_decide_eq_true |].
        do 2 (split; [done |]). by intros ->.
Qed.

Lemma sandbox_failures_are_results_witness :
  exists r st',
    executeInVM Sample.host Sample.slow_script "for (;;) {}" no_options initial
    = (JS.Return r, st') /\
    success r = false /\ exitCode r = JS.Num 1 /\
    stderr r = "Execution timeout after 30000ms".
Proof.
  destruct (sandbox_failures_are_results Sample.host initial eq_refl) as [Hvm _].
  destruct (Hvm Sample.slow_script "for (;;) {}" no_options)
    as (r & st' & E & _ & Htimeout & _).
  exists r, st'. split; [exact E |].
  exact (Htimeout eq_refl eq_refl eq_refl).
Defined.

(** A child of [executeTests] that is ended by the signal of the timer, and
    has written nothing: the result has an empty stderr and exit code 0. *)
Lemma killed_child_has_empty_stderr_and_code_zero :
  exists r st',
    executeTests Sample.host Sample.killed_by_timer "node test.js" no_options initial
    = (JS.Return r, st') /\
    success r = false /\ stderr r = "" /\ exitCode r = JS.Num 0 /\
    Kill 4242 "SIGTERM" ∈ effects st'.
Proof.
  eexists _, _. split; [vm_compute; reflexivity |].
  repeat split. vm_compute. set_solver.
Qed.

(** ** Characters and their bytes *)

Section Characters.

Local Open Scope N_scope.

Lemma continuation_not_ascii (b : ascii) :
  UTF8.continuation b = true -> UTF8.is_ascii b = false.
Proof.
  unfold UTF8.continuation, UTF8.is_ascii. intros H.
  apply andb_true_iff in H as [H _]. apply N.leb_le in H. apply N.ltb_ge. lia.
Qed.

Lemma single_ascii (b : ascii) : UTF8.is_ascii b = true -> UTF8.single b = N_of_ascii b.
Proof. unfold UTF8.single. by intros ->. Qed.

(** A lead byte is neither an ASCII byte nor a continuation byte. *)
Lemma lead_byte (b : ascii) :
  0xC0 <= N_of_ascii b -> UTF8.is_ascii b = false /\ UTF8.continuation b = false.
Proof.
  intros H. unfold UTF8.is_ascii, UTF8.continuation. split.
  - apply N.ltb_ge. lia.
  - apply andb_false_iff. right. apply N.leb_gt. lia.
Qed.

Lemma decode2_Some (b1 b2 : ascii) (x : N) :
  UTF8.decode2 b1 b2 = Some x ->
  0xC0 <= N_of_ascii b1 /\ UTF8.continuation b2 = true /\ 0x80 <= x.
Proof.
  unfold UTF8.decode2.
  destruct (0xC0 <=? N_of_ascii b1) eqn:Hlead; [| done].
  destruct (N_of_ascii b1 <=? 0xDF); [| done].
  destruct (UTF8.continuation b2); [| done]. cbn [andb].
  destruct (0x80 <=? _) eqn:Hx; [| done]. intros [= <-].
  apply N.leb_le in Hlead, Hx. done.
Qed.

Lemma decode3_Some (b1 b2 b3 : ascii) (x : N) :
  UTF8.decode3 b1 b2 b3 = Some x ->
  0xC0 <= N_of_ascii b1 /\ UTF8.continuation b2 = true
  /\ UTF8.continuation b3 = true /\ 0x80 <= x.
Proof.
  unfold UTF8.decode3.
  destruct (0xE0 <=? N_of_ascii b1) eqn:Hlead; [| done].
  destruct (N_of_ascii b1 <=? 0xEF); [| done].
  destruct (UTF8.continuation b2); [| done].
  destruct (UTF8.continuation b3); [| done]. cbn [andb].
  destruct (0x800 <=? _) eqn:Hx; [| done].
  destruct (negb _); [| done]. intros [= <-].
  apply N.leb_le in Hlead, Hx. repeat split; lia.
Qed.

Lemma decode4_Some (b1 b2 b3 b4 : ascii) (x : N) :
  UTF8.decode4 b1 b2 b3 b4 = Some x ->
  0xC0 <= N_of_ascii b1 /\ UTF8.continuation b2 = true
  /\ UTF8.continuation b3 = true /\ UTF8.continuation b4 = true /\ 0x80 <= x.
Proof.
  unfold UTF8.decode4.
  destruct (0xF0 <=? N_of_ascii b1) eqn:Hlead; [| done].
  destruct (N_of_ascii b1 <=? 0xF7); [| done].
  destruct (UTF8.continuation b2); [| done].
  destruct (UTF8.continuation b3); [| done].
  destruct (UTF8.continuation b4); [| done]. cbn [andb].
  destruct (0x10000 <=? _) eqn:Hx; [| done].
  destruct (_ <=? 0x10FFFF); [| done]. intros [= <-].
  apply N.leb_le in Hlead, Hx. repeat split; lia.
Qed.

(** The character at the head of a string: one byte read alone, or a lead
    byte and the continuation bytes [u] after it. *)
Lemma uncons_cases (b : ascii) (s : string) :
  exists x u rest,
    s = u +:+ rest /\
    Forall (fun c => UTF8.continuation c = true) (list_ascii_of_string u) /\
    (u = "" -> x = UTF8.single b) /\
    (u <> "" -> 0xC0 <= N_of_ascii b /\ 0x80 <= x) /\
    forall (A : Type) (char : N -> nat -> string -> A) (none : A),
      UTF8.uncons (String b s) char none = char x (S (String.length u)) rest.
Proof.
  destruct s as [|b2 s2].
  { exists (UTF8.single b), "", "". repeat split; done. }
  destruct (UTF8.decode2 b b2) as [x|] eqn:E2.
  { destruct (decode2_Some _ _ _ E2) as (Hb & H2 & Hx).
    exists x, (String b2 ""), s2. split; [done |].
    split; [by repeat constructor |]. split; [done |]. split; [done |].
    intros A char none. cbn [UTF8.uncons]. by rewrite E2. }
  destruct s2 as [|b3 s3].
  { exists (UTF8.single b), "", (String b2 ""). repeat split; try done.
    intros A char none. cbn [UTF8.uncons]. by rewrite E2. }
  destruct (UTF8.decode3 b b2 b3) as [x|] eqn:E3.
  { destruct (decode3_Some _ _ _ _ E3) as (Hb & H2 & H3 & Hx).
    exists x, (String b2 (String b3 "")), s3. split; [done |].
    split; [by repeat constructor |]. split; [done |]. split; [done |].
    intros A char none. cbn [UTF8.uncons]. by rewrite E2, E3. }
  destruct s3 as [|b4 s4].
  { exists (UTF8.single b), "", (String b2 (String b3 "")). repeat split; try done.
    intros A char none. cbn [UTF8.uncons]. by rewrite E2, E3. }
  destruct (UTF8.decode4 b b2 b3 b4) as [x|] eqn:E4.
  { destruct (decode4_Some _ _ _ _ _ E4) as (Hb & H2 & H3 & H4 & Hx).
    exists x, (String b2 (String b3 (String b4 ""))), s4. split; [done |].
    split; [by repeat constructor |]. split; [done |]. split; [done |].
    intros A char none. cbn [UTF8.uncons]. by rewrite E2, E3, E4. }
  exists (UTF8.single b), "", (String b2 (String b3 (String b4 s4))).
  repeat split; try done.
  intros A char none. cbn [UTF8.uncons]. by rewrite E2, E3, E4.
Qed.

(** An ASCII byte is a character, and so is, read alone, a continuation
    byte that no lead byte precedes. *)
Lemma uncons_alone (b : ascii) (s : string) {A : Type}
    (char : N -> nat -> string -> A) (none : A) :
  UTF8.is_ascii b = true \/ UTF8.continuation b = true ->
  UTF8.uncons (String b s) char none = char (UTF8.single b) 1%nat s.
Proof.
  intros Hb. destruct (uncons_cases b s) as (x & u & rest & -> & _ & Hx & Hu & ->).
  destruct u as [|c u]; [by rewrite Hx |].
  destruct Hu as [Hlead _]; [done |].
  destruct (lead_byte b Hlead) as [Hascii Hcont].
  destruct Hb; congruence.
Qed.

End Characters.

(** ** The matcher on ASCII literals *)

(** The set [[\s\S]]. *)
Lemma any_char_accepted (x : N) :
  Regex.accepts
    (Regex.Union Regex.Space (Regex.Union (Regex.Neg Regex.Space) Regex.Nothing)) x = true.
Proof. cbn. by destruct (Regex.is_space x). Qed.

Lemma star_unfold (m : Regex.CharSet) (k : string -> option nat) (s : string) :
  Regex.star m k s =
  UTF8.uncons s
    (fun x w rest =>
       if Regex.accepts m x then
         match Regex.star m k rest with
         | Some n => Some (w + n)
         | None => k s
         end
       else k s)
    (k s).
Proof. by destruct s. Qed.

Lemma exec_unfold (p : Regex.Pattern) (s : string) :
  Regex.exec p s =
  match Regex.match_here p s with
  | Some n => Some (String.substring 0 n s)
  | None => UTF8.uncons s (fun _ _ rest => Regex.exec p rest) None
  end.
Proof. by destruct s. Qed.

(** A literal that is an ASCII character matches its byte, and only that. *)
Lemma match_here_lit (c : ascii) (p : Regex.Pattern) (b : ascii) (s : string) :
  UTF8.is_ascii c = true ->
  Regex.match_here (Regex.mkAtom (Regex.Lit c) Regex.One :: p) (String b s) =
  if Ascii.eqb b c then S <$> Regex.match_here p s else None.
Proof.
  intros Hc. cbn [Regex.match_here Regex.quant Regex.cset].
  assert (Hbound : (N_of_ascii c < 0x80)%N) by by apply N.ltb_lt.
  destruct (uncons_cases b s) as (x & u & rest & -> & _ & Hx & Hu & ->).
  cbn [Regex.accepts]. destruct u as [|d u].
  - rewrite Hx by done. rewrite append_nil.
    destruct (Ascii.eqb_spec b c) as [-> | Hne].
    + by rewrite single_ascii, N.eqb_refl.
    + unfold UTF8.single. destruct (UTF8.is_ascii b).
      * destruct (N.eqb_spec (N_of_ascii b) (N_of_ascii c)) as [E |]; [| done].
        destruct Hne. by rewrite <- (ascii_N_embedding b), E, ascii_N_embedding.
      * destruct (N.eqb_spec UTF8.replacement (N_of_ascii c)) as [E |]; [| done].
        unfold UTF8.replacement in E. lia.
  - destruct Hu as [Hlead Hwide]; [done |].
    destruct (N.eqb_spec x (N_of_ascii c)) as [E |]; [lia |].
    destruct (Ascii.eqb_spec b c) as [-> | _]; [| done].
    destruct (lead_byte c Hlead). congruence.
Qed.

(** A pattern that begins with an ASCII literal matches at no other byte. *)
Lemma match_here_lit_other (c : ascii) (p : Regex.Pattern) (b : ascii) (s : string) :
  UTF8.is_ascii c = true -> UTF8.is_ascii b = false ->
  Regex.match_here (Regex.mkAtom (Regex.Lit c) Regex.One :: p) (String b s) = None.
Proof.
  intros Hc Hb. rewrite match_here_lit by done.
  destruct (Ascii.eqb_spec b c) as [-> | _]; [congruence | done].
Qed.

Section Anchored.

(** [k] succeeds only where an ASCII byte stands: so does a pattern that
    begins with an ASCII literal. *)
Variable k : string -> option nat.
Hypothesis k_ascii : forall b s, UTF8.is_ascii b = false -> k (String b s) = None.

Let any := Regex.Union Regex.Space (Regex.Union (Regex.Neg Regex.Space) Regex.Nothing).

Lemma star_any_skip (u rest : string) :
  Forall (fun c => UTF8.continuation c = true) (list_ascii_of_string u) ->
  Regex.star any k (u +:+ rest) = Nat.add (String.length u) <$> Regex.star any k rest.
Proof.
  induction u as [|c u IH]; intros Hu.
  - rewrite append_nil. by destruct (Regex.star any k rest).
  - cbn in Hu. apply Forall_cons in Hu as [Hc Hu].
    rewrite append_cons, star_unfold, uncons_alone by by right.
    unfold any at 1. rewrite any_char_accepted. fold any.
    rewrite IH, k_ascii by by try apply continuation_not_ascii.
    by destruct (Regex.star any k rest).
Qed.

(** Byte by byte: the iteration of [[\s\S]] goes on after a byte exactly
    when it goes on after the character that the byte begins. *)
Lemma star_any_cons (b : ascii) (s : string) :
  Regex.star any k (String b s) =
  match Regex.star any k s with
  | Some n => Some (S n)
  | None => k (String b s)
  end.
Proof.
  rewrite star_unfold.
  destruct (uncons_cases b s) as (x & u & rest & -> & Hu & _ & _ & ->).
  unfold any at 1. rewrite any_char_accepted. fold any.
  rewrite star_any_skip by done.
  by destruct (Regex.star any k rest).
Qed.

End Anchored.

Section AnchoredPattern.

Variable p : Regex.Pattern.
Hypothesis p_ascii :
  forall b s, UTF8.is_ascii b = false -> Regex.match_here p (String b s) = None.

Lemma exec_skip (u rest : string) :
  Forall (fun c => UTF8.continuation c = true) (list_ascii_of_string u) ->
  Regex.exec p (u +:+ rest) = Regex.exec p rest.
Proof.
  induction u as [|c u IH]; intros Hu; [done |].
  cbn in Hu. apply Forall_cons in Hu as [Hc Hu].
  rewrite append_cons, exec_unfold, p_ascii by by apply continuation_not_ascii.
  rewrite uncons_alone by by right. by apply IH.
Qed.

(** Byte by byte: a pattern that matches at ASCII bytes only is found by
    looking at every byte. *)
Lemma exec_cons (b : ascii) (s : string) :
  Regex.exec p (String b s) =
  match Regex.match_here p (String b s) with
  | Some n => Some (String.substring 0 n (String b s))
  | None => Regex.exec p s
  end.
Proof.
  rewrite exec_unfold. destruct (Regex.match_here p (String b s)); [done |].
  destruct (uncons_cases b s) as (x & u & rest & -> & Hu & _ & _ & ->).
  by rewrite exec_skip.
Qed.

End AnchoredPattern.

(** ** Regular-expression literals of the source *)

(** Every literal of the two files is inside the syntax that [Regex.parse]
    reads. *)
Lemma literals_parse :
  Forall (fun src => is_Some (Regex.parse src))
         (Agent.json_array_pattern :: dangerousPatterns).
Proof.
  unfold dangerousPatterns.
  repeat (apply Forall_cons; split; [vm_compute; by eexists |]). apply Forall_nil_2.
Qed.

Lemma eval_literal :
  Regex.literal "eval\s*\(" =
  [Regex.mkAtom (Regex.Lit "e") Regex.One; Regex.mkAtom (Regex.Lit "v") Regex.One;
   Regex.mkAtom (Regex.Lit "a") Regex.One; Regex.mkAtom (Regex.Lit "l") Regex.One;
   Regex.mkAtom Regex.Space Regex.Star; Regex.mkAtom (Regex.Lit "(") Regex.One].
Proof. reflexivity. Qed.

Lemma test_later (p : Regex.Pattern) (c : ascii) (s : string) :
  (forall b s', UTF8.is_ascii b = false -> Regex.match_here p (String b s') = None) ->
  Regex.test p s = true -> Regex.test p (String c s) = true.
Proof.
  intros Hp. unfold Regex.test. rewrite (exec_cons p Hp).
  destruct (Regex.match_here p (String c s)); [done |].
  by destruct (Regex.exec p s).
Qed.

Lemma test_here (p : Regex.Pattern) (s : string) :
  is_Some (Regex.match_here p s) -> Regex.test p s = true.
Proof. intros [n Hn]. unfold Regex.test. by rewrite exec_unfold, Hn. Qed.

Lemma match_here_star (m : Regex.CharSet) (p : Regex.Pattern) (s : string) :
  Regex.match_here (Regex.mkAtom m Regex.Star :: p) s = Regex.star m (Regex.match_here p) s.
Proof. reflexivity. Qed.

(** The iteration of a set stops at an ASCII byte that is not in the set. *)
Lemma star_stops (m : Regex.CharSet) (k : string -> option nat) (b : ascii) (s : string) :
  UTF8.is_ascii b = true -> Regex.accepts m (N_of_ascii b) = false ->
  Regex.star m k (String b s) = k (String b s).
Proof.
  intros Hb Hm. rewrite star_unfold, uncons_alone by by left.
  by rewrite single_ascii, Hm.
Qed.

(** The first dangerous pattern matches every text that holds [eval(]. *)
Lemma eval_pattern_matches (before after : string) :
  Regex.test (Regex.literal "eval\s*\(") (before +:+ "eval(" +:+ after) = true.
Proof.
  rewrite eval_literal.
  induction before as [|c before IH].
  - rewrite append_nil. apply test_here.
    change ("eval(" +:+ after)
      with (String "e" (String "v" (String "a" (String "l" (String "(" after))))).
    rewrite !match_here_lit by done. cbn [Ascii.eqb Bool.eqb].
    rewrite match_here_star, star_stops by done.
    rewrite match_here_lit by done. by eexists.
  - rewrite append_cons. apply test_later; [| done].
    intros b s' Hb. by apply match_here_lit_other.
Qed.

(** White space outside ASCII is white space for [\s]: a no-break space
    (U+00A0, the bytes C2 A0) between [eval] and the bracket, an em space
    (U+2003, the bytes E2 80 83) or a byte order mark (U+FEFF, the bytes
    EF BB BF) between [rm] and [-rf].  A next line (U+0085) and a zero width
    space (U+200B) are no white space. *)
Example white_space_outside_ascii :
  let bytes := fun l => string_of_list_ascii (ascii_of_nat <$> l) in
  Regex.test (Regex.literal "eval\s*\(") ("eval" +:+ bytes [194; 160] +:+ "(1)") = true /\
  Regex.test (Regex.literal "rm\s+-rf") ("rm" +:+ bytes [226; 128; 131] +:+ "-rf /") = true /\
  Regex.test (Regex.literal "rm\s+-rf")
    ("rm" +:+ bytes [239; 187; 191] +:+ bytes [227; 128; 128] +:+ " -rf /") = true /\
  Regex.test (Regex.literal "eval\s*\(") ("eval" +:+ bytes [194; 133] +:+ "(1)") = false /\
  Regex.test (Regex.literal "rm\s+-rf") ("rm" +:+ bytes [226; 128; 139] +:+ "-rf /") = false.
Proof. repeat split; by vm_compute. Qed.

(** ** Validation of changes *)

Lemma flat_map_if_singleton {A B} (p : A -> bool) (f : A -> B) (l : list A) :
  flat_map (fun x => if p x then [f x] else []) l = f <$> List.filter p l.
Proof.
  induction l as [|x l IH]; [done |]. cbn. destruct (p x); cbn; by rewrite IH.
Qed.

Lemma file_errors_filter (file : File) :
  file_errors file =
  danger_message file <$>
    List.filter (fun src => Regex.test (Regex.literal src) (content file))
                dangerousPatterns.
Proof. apply (flat_map_if_singleton _ (danger_message file)). Qed.

Lemma danger_message_in (file : File) (src : string) :
  src ∈ dangerousPatterns ->
  Regex.test (Regex.literal src) (content file) = true ->
  danger_message file src ∈ file_errors file.
Proof.
  intros Hin Htest. rewrite file_errors_filter.
  apply list_elem_of_fmap. exists src. split; [done |].
  apply list_elem_of_In, filter_In. split; [by apply list_elem_of_In | done].
Qed.

Lemma danger_message_names_file (file : File) (src : string) :
  JS.includes (danger_message file src) (uri_toString (uri file)) = true.
Proof. unfold danger_message. apply includes_append. Qed.

Lemma validateChanges_returns (h : Host) (w : VMWorld) (files : list File)
    (options : SandboxOptions) (st : State) :
  exists v st' extra,
    validateChanges h w files options st = (JS.Return v, st') /\
    valid v = (List.length (errors v) =? 0)%nat /\
    errors v = (flat_map file_errors files ++ extra)%list /\
    (extra = [] \/ exists msg, extra = ["TypeScript validation failed: " +:+ msg]).
Proof.
  unfold validateChanges.
  destruct ((0 <? List.length (List.filter is_ts_file files))%nat
            && negb (skip_ts_check options)).
  - unfold try_catch, mbind, M_bind, bind.
    destruct (executeInVM h w ts_check_script
                (mkOptions (Some 10000%Z) None None None None) st) as [[r|t] st1].
    + destruct (success r); cbn.
      * eexists _, _, []. rewrite app_nil_r. repeat split; by left.
      * eexists _, _, _. repeat split. right. by eexists.
    + cbn. eexists _, _, []. rewrite app_nil_r. repeat split; by left.
  - unfold mbind, M_bind, bind. cbn.
    eexists _, _, []. rewrite app_nil_r. repeat split; by left.
Qed.

(** A file that calls [eval] after a no-break space is reported. *)
Example eval_after_a_no_break_space :
  file_errors
    (mkFile Sample.workspace
       ("eval" +:+ String (ascii_of_nat 194) (String (ascii_of_nat 160) "(1)")))
  = ["Dangerous pattern detected in file:///work: /eval\s*\(/"].
Proof. by vm_compute. Qed.

(** C7. For every file list [validateChanges] returns; [valid] is true
    exactly when the list of errors is empty; the list holds, file by file,
    one entry for each dangerous pattern that matches the file's content,
    each naming the file (and, after them, at most the entry of the
    TypeScript check); so a file whose content holds [eval(] makes the
    result invalid, with an error that names the file. *)
Theorem validateChanges_reports_every_match (h : Host) (w : VMWorld)
    (files : list File) (options : SandboxOptions) (st : State) :
  exists v st' extra,
    validateChanges h w files options st = (JS.Return v, st') /\
    (valid v = true <-> errors v = []) /\
    errors v = (flat_map file_errors files ++ extra)%list /\
    (extra = [] \/ exists msg, extra = ["TypeScript validation failed: " +:+ msg]) /\
    (forall file,
       file_errors file =
       danger_message file <$>
         List.filter (fun src => Regex.test (Regex.literal src) (content file))
                     dangerousPatterns) /\
    (forall file src,
       file ∈ files -> src ∈ dangerousPatterns ->
       Regex.test (Regex.literal src) (content file) = true ->
       danger_message file src ∈ errors v /\
       JS.includes (danger_message file src) (uri_toString (uri file)) = true) /\
    (forall file before after,
       file ∈ files -> content file = before +:+ "eval(" +:+ after ->
       valid v = false /\
       exists e, e ∈ errors v /\ JS.includes e (uri_toString (uri file)) = true).
Proof.
  destruct (validateChanges_returns h w files options st)
    as (v & st' & extra & E & Hvalid & Herrors & Hextra).
  assert (Hin : forall file src,
            file ∈ files -> src ∈ dangerousPatterns ->
            Regex.test (Regex.literal src) (content file) = true ->
            danger_message file src ∈ errors v).
  { intros file src Hfile Hsrc Htest. rewrite Herrors.
    apply elem_of_app. left. apply list_elem_of_In, in_flat_map.
    exists file. split; [by apply list_elem_of_In |].
    by apply list_elem_of_In, danger_message_in. }
  exists v, st', extra. split; [done |]. split; [| split; [done | split; [done |]]].
  { rewrite Hvalid. destruct (errors v); cbn; split; done. }
  split; [apply file_errors_filter |]. split.
  - intros file src Hfile Hsrc Htest. split; [by apply Hin |].
    apply danger_message_names_file.
  - intros file before after Hfile Hcontent.
    assert (Hmsg : danger_message file "eval\s*\(" ∈ errors v).
    { apply Hin; [done | unfold dangerousPatterns; apply list_elem_of_here |].
      rewrite Hcontent. apply eval_pattern_matches. }
    split.
    + rewrite Hvalid. destruct (errors v); [by apply elem_of_nil in Hmsg | done].
    + eexists. split; [exact Hmsg | apply danger_message_names_file].
Qed.

(** ** Planning *)

Import Agent.

Lemma json_array_literal :
  Regex.literal json_array_pattern =
  [Regex.mkAtom (Regex.Lit "[") Regex.One;
   Regex.mkAtom (Regex.Union Regex.Space (Regex.Union (Regex.Neg Regex.Space) Regex.Nothing))
                Regex.Star;
   Regex.mkAtom (Regex.Lit "]") Regex.One].
Proof. reflexivity. Qed.

Lemma closing_bracket_ascii (b : ascii) (s : string) :
  UTF8.is_ascii b = false ->
  Regex.match_here [Regex.mkAtom (Regex.Lit "]") Regex.One] (String b s) = None.
Proof. by apply match_here_lit_other. Qed.

Lemma json_array_ascii (b : ascii) (s : string) :
  UTF8.is_ascii b = false ->
  Regex.match_here (Regex.literal json_array_pattern) (String b s) = None.
Proof. rewrite json_array_literal. by apply match_here_lit_other. Qed.

(** After the opening bracket: the rest of the pattern matches exactly when a
    closing bracket follows. *)
Lemma star_to_closing_bracket (s : string) :
  is_Some
    (Regex.star
       (Regex.Union Regex.Space (Regex.Union (Regex.Neg Regex.Space) Regex.Nothing))
       (Regex.match_here [Regex.mkAtom (Regex.Lit "]") Regex.One]) s)
  <-> exists b c, s = b +:+ "]" +:+ c.
Proof.
  set (m := Regex.Union Regex.Space (Regex.Union (Regex.Neg Regex.Space) Regex.Nothing)).
  set (k := Regex.match_here [Regex.mkAtom (Regex.Lit "]") Regex.One]).
  induction s as [|x s IH].
  - cbn. split; [by intros [? ?] |]. intros (b & c & E). by destruct b.
  - unfold m at 1. rewrite (star_any_cons k closing_bracket_ascii). fold m. split.
    + destruct (Regex.star m k s) eqn:Es.
      * intros _. destruct (proj1 IH) as (b & c & ->); [by eexists |].
        by exists (String x b), c.
      * unfold k. rewrite match_here_lit by done.
        destruct (Ascii.eqb_spec x "]") as [-> | ]; [| by intros [? ?]].
        intros _. by exists "", s.
    + intros (b & c & E). destruct b as [|y b].
      * autorewrite with str in E. injection E as -> ->.
        destruct (Regex.star m k c); [by eexists |]. unfold k.
        rewrite match_here_lit by done. by eexists.
      * rewrite append_cons in E. injection E as -> ->.
        destruct (proj2 IH) as [n ->]; [by eexists _, _ | by eexists].
Qed.

Lemma match_here_json_array (s : string) :
  Regex.match_here (Regex.literal json_array_pattern) s =
  match s with
  | String x s' =>
      if Ascii.eqb x "[" then
        S <$> Regex.star
                (Regex.Union Regex.Space (Regex.Union (Regex.Neg Regex.Space) Regex.Nothing))
                (Regex.match_here [Regex.mkAtom (Regex.Lit "]") Regex.One]) s'
      else None
  | EmptyString => None
  end.
Proof.
  rewrite json_array_literal. destruct s as [|x s']; [done |].
  by rewrite match_here_lit.
Qed.

Lemma exec_None_cons (p : Regex.Pattern) (x : ascii) (s : string) :
  (forall b s', UTF8.is_ascii b = false -> Regex.match_here p (String b s') = None) ->
  Regex.exec p (String x s) = None <->
  Regex.match_here p (String x s) = None /\ Regex.exec p s = None.
Proof.
  intros Hp. rewrite (exec_cons p Hp).
  destruct (Regex.match_here p (String x s)); [| tauto].
  split; [done | by intros [? _]].
Qed.

Lemma jsonMatch_None (text : string) :
  jsonMatch text = None <-> ~ Spec.has_bracketed_span text.
Proof.
  unfold jsonMatch, Spec.has_bracketed_span.
  induction text as [|x text IH].
  - split; [| done]. intros _ (a & b & c & E). by destruct a.
  - rewrite exec_None_cons, IH, match_here_json_array by apply json_array_ascii. split.
    + intros [Hhere Hno] (a & b & c & E). destruct a as [|y a].
      * autorewrite with str in E. injection E as -> ->.
        rewrite Ascii.eqb_refl in Hhere.
        destruct (proj2 (star_to_closing_bracket (b +:+ "]" +:+ c))) as [n Hn];
          [by eexists _, _ |].
        autorewrite with str in Hn. by rewrite Hn in Hhere.
      * rewrite append_cons in E. injection E as -> ->.
        apply Hno. by exists a, b, c.
    + intros Hno. split.
      * destruct (Ascii.eqb_spec x "[") as [-> | ]; [| done].
        destruct (Regex.star _ _ text) eqn:Es; [| done].
        exfalso. apply Hno.
        destruct (proj1 (star_to_closing_bracket text)) as (b & c & ->); [by eexists |].
        by exists "", b, c.
      * intros (a & b & c & ->). apply Hno. by exists (String x a), b, c.
Qed.

(** C1, as amended.  [planTask] throws [No AI model configured] when no
    model is configured; when a model is configured, a failure of the
    provider call is thrown again to the caller, and a response whose text
    holds no opening bracket followed by a closing bracket gives the plan of
    four steps [Search], [Generate], [Edit], [Verify] with the descriptions
    written in the code. *)
Theorem planTask_outcomes (c : Collaborators) (description : string) (context : URI) :
  (getActiveModel c = None \/ getActiveModel c = Some "" ->
   planTask c description context = JS.Throw (JS.Err (JS.newError "No AI model configured")))
  /\
  (forall model, getActiveModel c = Some model -> model <> "" ->
     let request := mkRequest context "" 0 model (plan_prompt description context) in
     (forall error, requestCompletion c request = JS.Throw error ->
        planTask c description context = JS.Throw error) /\
     (forall response, requestCompletion c request = JS.Return response ->
        ~ Spec.has_bracketed_span (text response) ->
        planTask c description context =
        JS.Return (mkPlan [
          PlanStep.mk AgentStepType.Search
            ("Search for files related to: " +:+ description) None;
          PlanStep.mk AgentStepType.Generate
            ("Generate code for: " +:+ description) None;
          PlanStep.mk AgentStepType.Edit "Apply changes" None;
          PlanStep.mk AgentStepType.Verify "Verify changes work correctly" None ]))).
Proof.
  split.
  - unfold planTask. by intros [-> | ->].
  - intros model Hmodel Hne request. unfold planTask. rewrite Hmodel.
    assert (JS.truthy_string model = true) as ->.
    { unfold JS.truthy_string. by destruct (String.eqb_spec model ""). }
    cbn [negb]. fold request. split.
    + by intros error ->.
    + intros response -> Hno. apply jsonMatch_None in Hno. by rewrite Hno.
Qed.

(** A provider call that fails makes [planTask] throw the provider's
    error: no plan is returned. *)
Lemma provider_failure_is_rethrown :
  (forall request,
     requestCompletion Sample.unavailable_model request
     = JS.Throw (JS.Err (JS.newError "model unavailable"))) /\
  planTask Sample.unavailable_model "add input validation" Sample.workspace
  = JS.Throw (JS.Err (JS.newError "model unavailable")) /\
  planTask Sample.unavailable_model "add input validation" Sample.workspace
  <> JS.Return (fallback_plan "add input validation").
Proof. by repeat split. Qed.

Example prose_gives_the_fallback_plan :
  planTask Sample.prose_model "add input validation" Sample.workspace
  = JS.Return (fallback_plan "add input validation").
Proof. reflexivity. Qed.

(** ** The service: what each function does to the tables *)

Import Life.

Section Tables.

Implicit Types (s : Service) (k taskId : string) (r i : nat) (run : Run).

Lemma tasks_updateTask taskId updates s k :
  _tasks (updateTask taskId updates s) !! k =
  if decide (k = taskId)
  then (fun t => spread_task t updates) <$> _tasks s !! k
  else _tasks s !! k.
Proof.
  unfold updateTask. case_decide as Hk.
  - subst k. destruct (_tasks s !! taskId) as [t|] eqn:E; cbn.
    + by rewrite lookup_insert_eq.
    + by rewrite E.
  - destruct (_tasks s !! taskId); cbn; [by rewrite lookup_insert_ne | done].
Qed.

Lemma runs_updateTask taskId updates s : runs (updateTask taskId updates s) = runs s.
Proof. unfold updateTask. by destruct (_tasks s !! taskId). Qed.

Lemma cancellations_updateTask taskId updates s :
  _taskCancellations (updateTask taskId updates s) = _taskCancellations s.
Proof. unfold updateTask. by destruct (_tasks s !! taskId). Qed.

Lemma tasks_updateStep taskId stepId updates s k :
  _tasks (updateStep taskId stepId updates s) !! k =
  if decide (k = taskId)
  then step_update stepId updates <$> _tasks s !! k
  else _tasks s !! k.
Proof.
  unfold updateStep, step_update.
  destruct (_tasks s !! taskId) as [t|] eqn:E.
  - destruct (findIndex stepId (AgentTask.steps t)) eqn:F.
    + rewrite tasks_updateTask. case_decide; [subst k |]; [| done].
      rewrite E. cbn. by rewrite F.
    + case_decide; [subst k |]; [| done]. rewrite E. cbn. by rewrite F.
  - case_decide; [subst k |]; [| done]. by rewrite E.
Qed.

Lemma runs_updateStep taskId stepId updates s :
  runs (updateStep taskId stepId updates s) = runs s.
Proof.
  unfold updateStep. destruct (_tasks s !! taskId) as [t|]; [| done].
  destruct (findIndex stepId (AgentTask.steps t)); [| done]. apply runs_updateTask.
Qed.

Lemma cancellations_updateStep taskId stepId updates s :
  _taskCancellations (updateStep taskId stepId updates s) = _taskCancellations s.
Proof.
  unfold updateStep. destruct (_tasks s !! taskId) as [t|]; [| done].
  destruct (findIndex stepId (AgentTask.steps t)); [| done].
  apply cancellations_updateTask.
Qed.

Lemma enterIteration_tasks r i s run k :
  runs s !! r = Some run ->
  _tasks (enterIteration r i s) !! k =
  if decide (k = AgentTask.id (run_task run))
  then enter_task run i <$> _tasks s !! k
  else _tasks s !! k.
Proof.
  intros Hrun. unfold enterIteration, enter_task. rewrite Hrun.
  destruct (AgentTask.steps (run_task run) !! i) as [step|].
  - destruct (isCancellationRequested run); cbn [set_phase _tasks].
    + apply tasks_updateTask.
    + rewrite tasks_updateTask, tasks_updateStep.
      case_decide; [| done]. by destruct (_tasks s !! k).
  - cbn [set_phase _tasks]. apply tasks_updateTask.
Qed.

Lemma enterIteration_runs r i s run :
  runs s !! r = Some run ->
  runs (enterIteration r i s) = alter (with_phase (enter_phase run i)) r (runs s).
Proof.
  intros Hrun. unfold enterIteration, enter_phase. rewrite Hrun.
  destruct (AgentTask.steps (run_task run) !! i) as [step|].
  - destruct (isCancellationRequested run); cbn [set_phase runs];
      by rewrite ?runs_updateTask, ?runs_updateStep.
  - cbn [set_phase runs]. by rewrite runs_updateTask.
Qed.

Lemma enterIteration_cancellations r i s :
  _taskCancellations (enterIteration r i s) = _taskCancellations s.
Proof.
  unfold enterIteration. destruct (runs s !! r) as [run|]; [| done].
  destruct (AgentTask.steps (run_task run) !! i) as [step|].
  - destruct (isCancellationRequested run); cbn [set_phase _taskCancellations];
      by rewrite ?cancellations_updateTask, ?cancellations_updateStep.
  - cbn [set_phase _taskCancellations]. by rewrite cancellations_updateTask.
Qed.

Lemma settle_tasks r c s run i step k :
  runs s !! r = Some run -> phase run = Awaiting i ->
  AgentTask.steps (run_task run) !! i = Some step ->
  _tasks (settle r c s) !! k =
  if decide (k = AgentTask.id (run_task run))
  then settle_task run c i step <$> _tasks s !! k
  else _tasks s !! k.
Proof.
  intros Hrun Hphase Hstep. unfold settle, settle_task.
  rewrite Hrun, Hphase, Hstep.
  destruct (executeStep c step (run_context run) (run_options run)) as [result|error].
  - rewrite (enterIteration_tasks _ _ _ run) by by rewrite runs_updateStep.
    rewrite tasks_updateStep. case_decide; [| done]. by destruct (_tasks s !! k).
  - destruct (loop_stopOnError (run_options run)).
    + cbn [set_phase _tasks]. rewrite tasks_updateTask, tasks_updateStep.
      case_decide; [| done]. by destruct (_tasks s !! k).
    + rewrite (enterIteration_tasks _ _ _ run) by by rewrite runs_updateStep.
      rewrite tasks_updateStep. case_decide; [| done]. by destruct (_tasks s !! k).
Qed.

Lemma settle_runs r c s run i step :
  runs s !! r = Some run -> phase run = Awaiting i ->
  AgentTask.steps (run_task run) !! i = Some step ->
  runs (settle r c s) = alter (with_phase (settle_phase run c i step)) r (runs s).
Proof.
  intros Hrun Hphase Hstep. unfold settle, settle_phase.
  rewrite Hrun, Hphase, Hstep.
  destruct (executeStep c step (run_context run) (run_options run)) as [result|error].
  - rewrite (enterIteration_runs _ _ _ run) by by rewrite runs_updateStep.
    by rewrite runs_updateStep.
  - destruct (loop_stopOnError (run_options run)).
    + cbn [set_phase runs]. by rewrite runs_updateTask, runs_updateStep.
    + rewrite (enterIteration_runs _ _ _ run) by by rewrite runs_updateStep.
      by rewrite runs_updateStep.
Qed.

(** [settle] does nothing unless the run awaits one of its steps. *)
Lemma settle_idle r c s :
  (forall run i, runs s !! r = Some run -> phase run = Awaiting i ->
     AgentTask.steps (run_task run) !! i = None) ->
  settle r c s = s.
Proof.
  intros Hidle. unfold settle. destruct (runs s !! r) as [run|] eqn:Hrun; [| done].
  destruct (phase run) as [i| |] eqn:Hphase; [| done | done].
  by rewrite (Hidle run i).
Qed.

Lemma settle_cancellations r c s :
  _taskCancellations (settle r c s) = _taskCancellations s.
Proof.
  unfold settle. destruct (runs s !! r) as [run|]; [| done].
  destruct (phase run) as [i| |]; [| done | done].
  destruct (AgentTask.steps (run_task run) !! i) as [step|]; [| done].
  destruct (executeStep c step (run_context run) (run_options run)).
  - by rewrite enterIteration_cancellations, cancellations_updateStep.
  - destruct (loop_stopOnError (run_options run)).
    + cbn [set_phase _taskCancellations].
      by rewrite cancellations_updateTask, cancellations_updateStep.
    + by rewrite enterIteration_cancellations, cancellations_updateStep.
Qed.

Lemma notify_tasks r s : _tasks (notify r s) = _tasks s.
Proof.
  unfold notify. destruct (runs s !! r) as [run|]; [| done].
  destruct (phase run); [done | | done].
  by destruct (_tasks s !! AgentTask.id (run_task run)).
Qed.

Lemma notify_cancellations r s : _taskCancellations (notify r s) = _taskCancellations s.
Proof.
  unfold notify. destruct (runs s !! r) as [run|]; [| done].
  destruct (phase run); [done | | done].
  by destruct (_tasks s !! AgentTask.id (run_task run)).
Qed.

Lemma cancelTask_tasks taskId s k :
  _tasks (cancelTask taskId s) !! k =
  if decide (k = taskId /\ is_Some (_taskCancellations s !! taskId))
  then (fun t => spread_task t (mark AgentTaskStatus.Cancelled)) <$> _tasks s !! k
  else _tasks s !! k.
Proof.
  unfold cancelTask. destruct (_taskCancellations s !! taskId) as [r|] eqn:E.
  - cbn [_tasks]. rewrite tasks_updateTask. cbn [cancel _tasks].
    case_decide as H1; case_decide as H2; try done.
    + exfalso. apply H2. split; [done | by eexists].
    + by destruct H2.
  - case_decide as H; [| done]. by destruct H as [_ [? ?]].
Qed.

End Tables.

(** ** The life of one task *)

Section LifeFacts.

Implicit Types (t : AgentTask.t) (run : Run) (i j n : nat).

Lemma evolves_refl t : evolves t t.
Proof. by repeat split. Qed.

Lemma evolves_trans t1 t2 t3 : evolves t1 t2 -> evolves t2 t3 -> evolves t1 t3.
Proof.
  intros (? & ? & ? & ? & ? & ?) (? & ? & ? & ? & ? & ?).
  repeat split; try congruence. lia.
Qed.

Lemma rank_le_2 st : rank st <= 2.
Proof. destruct st; cbn; lia. Qed.

Lemma rank_terminal st : is_terminal st = true <-> rank st = 2.
Proof. destruct st; cbn; split; (done || lia). Qed.

Lemma evolves_terminal t st error :
  is_terminal st = true ->
  evolves t (spread_task t (mkTaskUpdates (Some st) None None error)).
Proof.
  intros Hst%rank_terminal. repeat split; try done. cbn. rewrite Hst. apply rank_le_2.
Qed.

Lemma evolves_at_step t i : evolves t (spread_task t (at_step i)).
Proof. by repeat split. Qed.

Lemma step_ids_alter (f : AgentStep.t -> AgentStep.t) i (l : list AgentStep.t) :
  (forall x, AgentStep.id (f x) = AgentStep.id x) ->
  AgentStep.id <$> alter f i l = AgentStep.id <$> l.
Proof.
  intros Hf. apply list_eq. intros j. rewrite !list_lookup_fmap.
  destruct (decide (i = j)) as [-> | Hij].
  - rewrite list_lookup_alter_eq. destruct (l !! j); cbn; [by rewrite Hf | done].
  - by rewrite list_lookup_alter_ne.
Qed.

Lemma evolves_step_update stepId updates t : evolves t (step_update stepId updates t).
Proof.
  unfold step_update. destruct (findIndex stepId (AgentTask.steps t)); [| apply evolves_refl].
  repeat split; try done. unfold step_ids. cbn. by apply step_ids_alter.
Qed.

Lemma evolves_enter_task run i t : evolves t (enter_task run i t).
Proof.
  unfold enter_task. destruct (AgentTask.steps (run_task run) !! i).
  - destruct (isCancellationRequested run).
    + by apply evolves_terminal.
    + eapply evolves_trans; [apply evolves_step_update | apply evolves_at_step].
  - by apply evolves_terminal.
Qed.

Lemma evolves_settle_task run c i step t : evolves t (settle_task run c i step t).
Proof.
  unfold settle_task.
  destruct (executeStep c step (run_context run) (run_options run)).
  - eapply evolves_trans; [apply evolves_step_update | apply evolves_enter_task].
  - destruct (loop_stopOnError (run_options run)).
    + eapply evolves_trans; [apply evolves_step_update | by apply evolves_terminal].
    + eapply evolves_trans; [apply evolves_step_update | apply evolves_enter_task].
Qed.

Lemma step_ids_evolves t t' : evolves t t' -> step_ids t' = step_ids t.
Proof. by intros (? & ? & ? & ? & ? & ?). Qed.

(** *** Which steps an update can touch *)

Lemma same_after_refl n t : same_after n t t.
Proof. by intros j _. Qed.

Lemma same_after_trans n t1 t2 t3 :
  same_after n t1 t2 -> same_after n t2 t3 -> same_after n t1 t3.
Proof. intros H12 H23 j Hj. by rewrite H23, H12. Qed.

Lemma same_after_weaken n m t t' : n <= m -> same_after n t t' -> same_after m t t'.
Proof. intros Hnm H j Hj. apply H. lia. Qed.

Lemma same_after_spread n t st current error :
  same_after n t (spread_task t (mkTaskUpdates st None current error)).
Proof. by intros j _. Qed.

(** The step that [findIndex] finds for the identifier of step [i] is at
    position [i] or before. *)
Lemma findIndex_le (original : list AgentStep.t) t i step :
  step_ids t = AgentStep.id <$> original ->
  original !! i = Some step ->
  exists i0 step0,
    list_find (fun s => AgentStep.id s = AgentStep.id step) (AgentTask.steps t)
    = Some (i0, step0) /\ i0 <= i.
Proof.
  intros Hids Hstep.
  assert (Hi : exists step', AgentTask.steps t !! i = Some step' /\
                             AgentStep.id step' = AgentStep.id step).
  { assert (H : step_ids t !! i = Some (AgentStep.id step)).
    { by rewrite Hids, list_lookup_fmap, Hstep. }
    unfold step_ids in H. rewrite list_lookup_fmap in H.
    destruct (AgentTask.steps t !! i) as [step'|]; [| done].
    exists step'. split; [done | by injection H]. }
  destruct Hi as (step' & Hlook & Hid).
  destruct (list_find (fun s => AgentStep.id s = AgentStep.id step) (AgentTask.steps t))
    as [[i0 step0]|] eqn:Hfind.
  - exists i0, step0. split; [done |].
    apply list_find_Some in Hfind as (_ & _ & Hmin).
    destruct (decide (i0 <= i)) as [| Hgt]; [done |].
    exfalso. apply (Hmin i step' Hlook); [lia | done].
  - apply list_find_None in Hfind.
    rewrite Forall_forall in Hfind. exfalso.
    apply (Hfind step'); [| done]. by eapply list_elem_of_lookup_2.
Qed.

(** With distinct identifiers it is the step at position [i] itself. *)
Lemma findIndex_eq (original : list AgentStep.t) t i step :
  step_ids t = AgentStep.id <$> original ->
  NoDup (AgentStep.id <$> original) ->
  original !! i = Some step ->
  exists step0,
    list_find (fun s => AgentStep.id s = AgentStep.id step) (AgentTask.steps t)
    = Some (i, step0).
Proof.
  intros Hids Hnodup Hstep.
  destruct (findIndex_le original t i step Hids Hstep) as (i0 & step0 & Hfind & Hle).
  exists step0. rewrite Hfind. do 2 f_equal.
  apply list_find_Some in Hfind as (Hlook & Hid & _).
  eapply NoDup_lookup; [exact Hnodup | |].
  - rewrite <- Hids. unfold step_ids. rewrite list_lookup_fmap, Hlook. reflexivity.
  - rewrite list_lookup_fmap, Hstep. cbn. by rewrite Hid.
Qed.

Lemma same_after_step_update run i step updates t :
  step_ids t = step_ids (run_task run) ->
  AgentTask.steps (run_task run) !! i = Some step ->
  same_after i t (step_update (AgentStep.id step) updates t).
Proof.
  intros Hids Hstep j Hj. unfold step_update, findIndex.
  destruct (findIndex_le _ t i step Hids Hstep) as (i0 & step0 & -> & Hle).
  cbn. apply list_lookup_alter_ne. lia.
Qed.

Lemma same_after_enter_task run i t :
  step_ids t = step_ids (run_task run) ->
  same_after i t (enter_task run i t).
Proof.
  intros Hids. unfold enter_task.
  destruct (AgentTask.steps (run_task run) !! i) as [step|] eqn:Hstep.
  - destruct (isCancellationRequested run); [apply same_after_spread |].
    eapply same_after_trans; [by eapply same_after_step_update | apply same_after_spread].
  - apply same_after_spread.
Qed.

Lemma same_after_settle_task run c i step t :
  step_ids t = step_ids (run_task run) ->
  AgentTask.steps (run_task run) !! i = Some step ->
  same_after (S i) t (settle_task run c i step t).
Proof.
  intros Hids Hstep. unfold settle_task.
  assert (Hupdate : forall updates,
            same_after (S i) t (step_update (AgentStep.id step) updates t)).
  { intros updates. eapply same_after_weaken; [| by eapply same_after_step_update]. lia. }
  assert (Henter : forall updates,
            same_after (S i) t
              (enter_task run (S i) (step_update (AgentStep.id step) updates t))).
  { intros updates. eapply same_after_trans; [apply Hupdate |].
    apply same_after_enter_task.
    by rewrite (step_ids_evolves _ _ (evolves_step_update _ _ _)). }
  destruct (executeStep c step (run_context run) (run_options run)); [apply Henter |].
  destruct (loop_stopOnError (run_options run)); [| apply Henter].
  eapply same_after_trans; [apply Hupdate | apply same_after_spread].
Qed.

(** When the loop stops at the boundary (the source is cancelled) or at the
    failure, no step after [i] is touched. *)
Lemma same_after_settle_task_stopped run c i step t :
  step_ids t = step_ids (run_task run) ->
  AgentTask.steps (run_task run) !! i = Some step ->
  settle_phase run c i step = Resolved ->
  same_after i t (settle_task run c i step t).
Proof.
  intros Hids Hstep. unfold settle_task, settle_phase.
  assert (Henter : forall updates,
            enter_phase run (S i) = Resolved ->
            same_after i t
              (enter_task run (S i) (step_update (AgentStep.id step) updates t))).
  { intros updates Hp. eapply same_after_trans; [by eapply same_after_step_update |].
    unfold enter_phase in Hp. unfold enter_task.
    destruct (AgentTask.steps (run_task run) !! S i); [| apply same_after_spread].
    destruct (isCancellationRequested run); [apply same_after_spread | done]. }
  destruct (executeStep c step (run_context run) (run_options run)); [apply Henter |].
  destruct (loop_stopOnError (run_options run)); [| apply Henter].
  intros _. eapply same_after_trans; [by eapply same_after_step_update |].
  apply same_after_spread.
Qed.

End LifeFacts.

(** ** The invariant of the service *)

Section Coherence.

Implicit Types (s : Service) (t : AgentTask.t) (run : Run) (r i j : nat).

Lemma coherent_empty : coherent Agent.empty.
Proof. split; intros *; cbn; by rewrite ?lookup_nil. Qed.

Lemma lookup_alter_run (f : Run -> Run) r r0 (l : list Run) run' :
  alter f r l !! r0 = Some run' ->
  exists run, l !! r0 = Some run /\
              ((r0 = r /\ run' = f run) \/ (r0 <> r /\ run' = run)).
Proof.
  destruct (decide (r = r0)) as [-> | Hne].
  - rewrite list_lookup_alter_eq. destruct (l !! r0) as [run|]; [| done].
    intros [= <-]. exists run. split; [done | by left].
  - rewrite list_lookup_alter_ne by done. intros H. exists run'.
    split; [done |]. right. split; [congruence | done].
Qed.

Lemma enter_phase_awaiting run i j :
  enter_phase run i = Awaiting j ->
  j = i /\ i < List.length (AgentTask.steps (run_task run)) /\
  isCancellationRequested run = false.
Proof.
  unfold enter_phase.
  destruct (AgentTask.steps (run_task run) !! i) as [step|] eqn:Hstep; [| done].
  destruct (isCancellationRequested run); [done |].
  intros [= <-]. repeat split. by eapply lookup_lt_Some.
Qed.

Lemma settle_phase_awaiting run c i step j :
  settle_phase run c i step = Awaiting j ->
  j = S i /\ S i < List.length (AgentTask.steps (run_task run)) /\
  isCancellationRequested run = false.
Proof.
  unfold settle_phase.
  destruct (executeStep c step (run_context run) (run_options run));
    [apply enter_phase_awaiting |].
  destruct (loop_stopOnError (run_options run)); [done | apply enter_phase_awaiting].
Qed.

(** The invariant is kept by a change that keeps the runs, up to their phase
    and their cancellation, and the tasks, up to their step identifiers:
    for every run either the phase and the steps after the awaited one are
    the same, or the new phase, if it awaits a step, awaits one that exists
    and is followed by pending steps. *)
Lemma coherent_preserved s s' :
  coherent s ->
  (forall k t, _tasks s !! k = Some t ->
     exists t', _tasks s' !! k = Some t' /\ step_ids t' = step_ids t) ->
  (forall r run', runs s' !! r = Some run' ->
     exists run, runs s !! r = Some run /\ run_task run' = run_task run /\
       ((phase run' = phase run /\
         forall i t t', phase run = Awaiting i ->
           _tasks s !! AgentTask.id (run_task run) = Some t ->
           _tasks s' !! AgentTask.id (run_task run) = Some t' ->
           same_after i t t')
        \/
        (forall i, phase run' = Awaiting i ->
           i < List.length (AgentTask.steps (run_task run)) /\
           forall t' j, _tasks s' !! AgentTask.id (run_task run) = Some t' ->
                        i < j -> pending_at t' j))) ->
  coherent s'.
Proof.
  intros Hs Htasks Hruns. split.
  - intros r run' Hrun'. destruct (Hruns r run' Hrun') as (run & Hrun & Htask & _).
    destruct (run_has_task s Hs r run Hrun) as (t & Ht & Hids).
    destruct (Htasks _ t Ht) as (t' & Ht' & Hids').
    exists t'. rewrite Htask. split; [done | congruence].
  - intros r1 r2 run1' run2' H1 H2 Hid.
    destruct (Hruns r1 run1' H1) as (run1 & Hrun1 & Htask1 & _).
    destruct (Hruns r2 run2' H2) as (run2 & Hrun2 & Htask2 & _).
    apply (run_tasks_distinct s Hs r1 r2 run1 run2 Hrun1 Hrun2). congruence.
  - intros r run' Hrun'. destruct (Hruns r run' Hrun') as (run & Hrun & -> & _).
    by apply (run_steps_distinct s Hs r run).
  - intros r run' i Hrun' Hphase.
    destruct (Hruns r run' Hrun') as (run & Hrun & Htask & [[Hsame _] | Hnew]).
    + rewrite Htask. apply (awaited_step_exists s Hs r run i Hrun). congruence.
    + rewrite Htask. by apply Hnew.
  - intros r run' i t' j Hrun' Hphase Ht' Hij.
    destruct (Hruns r run' Hrun') as (run & Hrun & Htask & [[Hsame Hafter] | Hnew]).
    + rewrite Htask in Ht'. rewrite Hsame in Hphase.
      destruct (run_has_task s Hs r run Hrun) as (t & Ht & _).
      intros step Hstep. rewrite (Hafter i t t' Hphase Ht Ht' j Hij) in Hstep.
      by apply (later_steps_pending s Hs r run i t j Hrun Hphase Ht Hij).
    + rewrite Htask in Ht'. by apply (Hnew i Hphase).
Qed.

Lemma coherent_settle r c s : coherent s -> coherent (settle r c s).
Proof.
  intros Hs.
  destruct (runs s !! r) as [run|] eqn:Hrun;
    [| by rewrite settle_idle by (intros ? ? ?; congruence)].
  destruct (phase run) as [i| |] eqn:Hphase;
    [| by rewrite settle_idle by (intros ? ? ?; congruence)..].
  destruct (AgentTask.steps (run_task run) !! i) as [step|] eqn:Hstep;
    [| by rewrite settle_idle by (intros ? ? ?; congruence)].
  pose proof (settle_tasks r c s run i step) as Htasks.
  pose proof (settle_runs r c s run i step Hrun Hphase Hstep) as Hruns.
  apply (coherent_preserved s); [done | |].
  - intros k t Ht. rewrite (Htasks k Hrun Hphase Hstep), Ht.
    case_decide; [| by exists t]. eexists. split; [done |].
    apply step_ids_evolves, evolves_settle_task.
  - intros r0 run' Hrun'. rewrite Hruns in Hrun'.
    apply lookup_alter_run in Hrun' as (run0 & Hrun0 & [[-> ->] | [Hne ->]]).
    + assert (run0 = run) as -> by congruence.
      exists run. split; [done |]. split; [done |]. right.
      intros j Hj. cbn in Hj. apply settle_phase_awaiting in Hj as (-> & Hlt & _).
      split; [done |]. intros t' j Ht' Hj.
      rewrite (Htasks _ Hrun Hphase Hstep) in Ht'. rewrite decide_True in Ht' by done.
      destruct (_tasks s !! AgentTask.id (run_task run)) as [t|] eqn:Ht; [| done].
      injection Ht' as <-.
      destruct (run_has_task s Hs r run Hrun) as (t0 & Ht0 & Hids).
      assert (t0 = t) as -> by congruence.
      intros step' Hstep'.
      rewrite (same_after_settle_task run c i step t Hids Hstep j Hj) in Hstep'.
      apply (later_steps_pending s Hs r run i t j Hrun Hphase Ht); [lia | done].
    + exists run0. split; [done |]. split; [done |]. left. split; [done |].
      intros i0 t t' _ Ht Ht'.
      rewrite (Htasks _ Hrun Hphase Hstep) in Ht'.
      rewrite decide_False in Ht'.
      * assert (t' = t) as -> by congruence. apply same_after_refl.
      * intros Hid. apply Hne.
        by apply (run_tasks_distinct s Hs r0 r run0 run Hrun0 Hrun).
Qed.

Lemma coherent_cancel r s : coherent s -> coherent (cancel r s).
Proof.
  intros Hs. apply (coherent_preserved s); [done | |].
  - intros k t Ht. by exists t.
  - intros r0 run' Hrun'. cbn in Hrun'.
    apply lookup_alter_run in Hrun' as (run0 & Hrun0 & [[-> ->] | [Hne ->]]);
      exists run0; (split; [done |]); (split; [done |]); left; (split; [done |]);
      intros i t t' _ Ht Ht'; cbn in Ht';
      (assert (t' = t) as -> by congruence); apply same_after_refl.
Qed.

Lemma coherent_cancelTask taskId s : coherent s -> coherent (cancelTask taskId s).
Proof.
  intros Hs. apply (coherent_preserved s); [done | |].
  - intros k t Ht. rewrite cancelTask_tasks, Ht. case_decide; by eexists.
  - intros r0 run' Hrun'.
    assert (Hruns : runs (cancelTask taskId s) = runs s \/
                    exists r, runs (cancelTask taskId s) = alter cancelled r (runs s)).
    { unfold cancelTask. destruct (_taskCancellations s !! taskId) as [r|]; [| by left].
      right. exists r. cbn [runs]. by rewrite runs_updateTask. }
    assert (Hrun0 : exists run0, runs s !! r0 = Some run0 /\
                                 run_task run' = run_task run0 /\
                                 phase run' = phase run0).
    { destruct Hruns as [Hruns | [r Hruns]]; rewrite Hruns in Hrun'.
      - by exists run'.
      - apply lookup_alter_run in Hrun' as (run0 & Hrun0 & [[-> ->] | [Hne ->]]);
          by exists run0. }
    destruct Hrun0 as (run0 & Hrun0 & Htask & Hphase).
    exists run0. split; [done |]. split; [done |]. left. split; [done |].
    intros i t t' _ Ht Ht'. rewrite cancelTask_tasks, Ht in Ht'.
    case_decide; injection Ht' as <-; [apply same_after_spread | apply same_after_refl].
Qed.

Lemma notify_runs r s :
  runs (notify r s) = runs s \/
  (exists run, runs s !! r = Some run /\ phase run = Resolved /\
               runs (notify r s) = alter (with_phase Notified) r (runs s)).
Proof.
  unfold notify. destruct (runs s !! r) as [run|] eqn:Hrun; [| by left].
  destruct (phase run) eqn:Hphase; [by left | | by left].
  right. exists run. repeat split; try done.
  by destruct (_tasks s !! AgentTask.id (run_task run)).
Qed.

Lemma coherent_notify r s : coherent s -> coherent (notify r s).
Proof.
  intros Hs. apply (coherent_preserved s); [done | |].
  - intros k t Ht. rewrite notify_tasks. by exists t.
  - intros r0 run' Hrun'.
    destruct (notify_runs r s) as [Hruns | (run & Hrun & Hphase & Hruns)];
      rewrite Hruns in Hrun'.
    + exists run'. split; [done |]. split; [done |]. left. split; [done |].
      intros i t t' _ Ht Ht'. rewrite notify_tasks in Ht'.
      assert (t' = t) as -> by congruence. apply same_after_refl.
    + apply lookup_alter_run in Hrun' as (run0 & Hrun0 & [[-> ->] | [Hne ->]]);
        exists run0; (split; [done |]); (split; [done |]).
      * by right.
      * left. split; [done |]. intros i t t' _ Ht Ht'. rewrite notify_tasks in Ht'.
        assert (t' = t) as -> by congruence. apply same_after_refl.
Qed.

End Coherence.

Section ExecuteTask.

Variables (plan : AgentPlan) (context : URI) (options : AgentExecutionOptions)
          (taskId : string) (stepUuid : nat -> string) (s : Service).

Let task := new_task plan (default 10%Z (maxSteps options)) taskId stepUuid.
Let r := List.length (runs s).
Let run :=
  mkRun false task context
        (mkLoopOptions (default true (retryOnFailure options))
                       (default true (stopOnError options))
                       (default false (dryRun options)))
        (Awaiting 0).
Let s' := snd (executeTask plan context options taskId stepUuid s).

Lemma executeTask_tasks k :
  _tasks s' !! k =
  if decide (k = taskId) then Some (enter_task run 0 task) else _tasks s !! k.
Proof.
  unfold s', executeTask. cbn [snd].
  rewrite (enterIteration_tasks _ _ _ run).
  - cbn [_tasks run_task run AgentTask.id task new_task].
    case_decide as Hk.
    + subst k. by rewrite lookup_insert_eq.
    + by rewrite lookup_insert_ne.
  - cbn [runs]. by apply list_lookup_middle.
Qed.

Lemma executeTask_runs :
  runs s' = (runs s ++ [with_phase (enter_phase run 0) run])%list.
Proof.
  unfold s', executeTask. cbn [snd].
  rewrite (enterIteration_runs _ _ _ run).
  - cbn [runs]. fold r. unfold r.
    apply list_eq. intros n.
    destruct (decide (n = List.length (runs s))) as [-> | Hn].
    + rewrite list_lookup_alter_eq.
      by rewrite !(list_lookup_middle _ []) by done.
    + rewrite list_lookup_alter_ne by done.
      destruct (decide (n < List.length (runs s))).
      * by rewrite !lookup_app_l by done.
      * rewrite !lookup_ge_None_2; [done | |]; rewrite length_app; cbn; lia.
  - cbn [runs]. by apply list_lookup_middle.
Qed.

Lemma executeTask_cancellations :
  _taskCancellations s' = <[taskId := r]> (_taskCancellations s).
Proof. unfold s', executeTask. cbn [snd]. by rewrite enterIteration_cancellations. Qed.

Lemma executeTask_run r0 run' :
  runs s' !! r0 = Some run' ->
  (runs s !! r0 = Some run') \/
  (r0 = r /\ run' = with_phase (enter_phase run 0) run).
Proof.
  rewrite executeTask_runs. intros H.
  apply lookup_app_Some in H as [H | [Hge H]]; [by left |].
  right. destruct (r0 - List.length (runs s)) as [|n] eqn:E; [| done].
  cbn in H. injection H as <-. split; [unfold r; lia | done].
Qed.

Lemma new_task_pending j : pending_at task j.
Proof.
  intros step. unfold task, new_task, new_steps. cbn [AgentTask.steps].
  rewrite list_lookup_imap. destruct (slice_0 _ _ !! j); [| done].
  by intros [= <-].
Qed.

Lemma new_task_steps_distinct :
  (forall i j : nat, stepUuid i = stepUuid j -> i = j) -> NoDup (step_ids task).
Proof.
  intros Hinj. apply NoDup_alt. intros i j x.
  unfold step_ids, task, new_task, new_steps. cbn [AgentTask.steps].
  rewrite !list_lookup_fmap, !list_lookup_imap.
  destruct (slice_0 _ _ !! i); [| done]. destruct (slice_0 _ _ !! j); [| done].
  cbn. intros [= <-] [= H]. by apply Hinj.
Qed.

Lemma coherent_executeTask :
  _tasks s !! taskId = None ->
  (forall i j : nat, stepUuid i = stepUuid j -> i = j) ->
  coherent s -> coherent s'.
Proof.
  intros Hfresh Hinj Hs.
  assert (Hold : forall r0 run0, runs s !! r0 = Some run0 ->
                                 AgentTask.id (run_task run0) <> taskId).
  { intros r0 run0 Hrun0 Hid.
    destruct (run_has_task s Hs r0 run0 Hrun0) as (t & Ht & _). congruence. }
  assert (Hlen : forall r0 run0, runs s !! r0 = Some run0 -> r0 <> r).
  { intros r0 run0 Hrun0%lookup_lt_Some. unfold r. lia. }
  split.
  - intros r0 run' [Hrun0 | [-> ->]]%executeTask_run.
    + rewrite executeTask_tasks, decide_False by by eapply Hold.
      by apply (run_has_task s Hs r0).
    + cbn [run_task with_phase]. rewrite executeTask_tasks, decide_True by done.
      eexists. split; [done |]. apply step_ids_evolves, evolves_enter_task.
  - intros r1 r2 run1 run2 [H1 | [-> ->]]%executeTask_run
                           [H2 | [-> ->]]%executeTask_run Hid.
    + by apply (run_tasks_distinct s Hs r1 r2 run1 run2).
    + exfalso. by apply (Hold r1 run1 H1).
    + exfalso. by apply (Hold r2 run2 H2).
    + done.
  - intros r0 run' [Hrun0 | [-> ->]]%executeTask_run.
    + by apply (run_steps_distinct s Hs r0).
    + by apply new_task_steps_distinct.
  - intros r0 run' i [Hrun0 | [-> ->]]%executeTask_run Hphase.
    + by apply (awaited_step_exists s Hs r0 run').
    + cbn in Hphase. by apply enter_phase_awaiting in Hphase as (-> & ? & _).
  - intros r0 run' i t' j [Hrun0 | [-> ->]]%executeTask_run Hphase Ht' Hij.
    + rewrite executeTask_tasks, decide_False in Ht' by by eapply Hold.
      by apply (later_steps_pending s Hs r0 run' i t' j).
    + cbn [run_task with_phase] in Ht'.
      rewrite executeTask_tasks, decide_True in Ht' by done.
      injection Ht' as <-. cbn in Hphase.
      apply enter_phase_awaiting in Hphase as (-> & _ & _).
      intros step Hstep.
      rewrite (same_after_enter_task run 0 task eq_refl j Hij) in Hstep.
      by apply (new_task_pending j).
Qed.

End ExecuteTask.

Lemma coherent_apply (op : Op) (s : Service) :
  fresh op s -> coherent s -> coherent (apply op s).
Proof.
  destruct op; cbn [apply fresh]; intros Hfresh Hs.
  - destruct Hfresh. by apply coherent_executeTask.
  - by apply coherent_cancelTask.
  - by apply coherent_cancel.
  - by apply coherent_settle.
  - by apply coherent_notify.
Qed.

Lemma coherent_reaches (s s' : Service) : reaches s s' -> coherent s -> coherent s'.
Proof.
  induction 1 as [| s1 s2 s3 (op & Hfresh & ->) _ IH]; [done |].
  intros Hs. by apply IH, coherent_apply.
Qed.

(** Every state that the service can be in satisfies the invariant. *)
Lemma reachable_coherent (s : Service) : reaches Agent.empty s -> coherent s.
Proof. intros H. apply (coherent_reaches _ _ H), coherent_empty. Qed.

Lemma reaches_run_ops (ops : list Op) (s : Service) :
  fresh_ops ops s -> reaches s (run_ops ops s).
Proof.
  revert s. induction ops as [| op ops IH]; intros s.
  - intros _. apply rtc_refl.
  - intros [Hop Hops]. cbn. eapply rtc_l; [| by apply IH]. by exists op.
Qed.

(** ** The status of a task *)

Lemma evolves_apply (op : Op) (s : Service) (k : string) (t : AgentTask.t) :
  fresh op s -> _tasks s !! k = Some t ->
  exists t', _tasks (apply op s) !! k = Some t' /\ evolves t t'.
Proof.
  destruct op as [plan context options taskId stepUuid | taskId | r | r c | r];
    cbn [apply fresh]; intros Hfresh Ht.
  - destruct Hfresh as [Hfresh _].
    rewrite executeTask_tasks, decide_False by congruence.
    exists t. split; [done | apply evolves_refl].
  - rewrite cancelTask_tasks, Ht. case_decide; eexists; (split; [done |]).
    + by apply evolves_terminal.
    + apply evolves_refl.
  - exists t. split; [done | apply evolves_refl].
  - destruct (runs s !! r) as [run|] eqn:Hrun;
      [| rewrite settle_idle by (intros ? ? ?; congruence);
         exists t; split; [done | apply evolves_refl]].
    destruct (phase run) as [i| |] eqn:Hphase;
      [| rewrite settle_idle by (intros ? ? ?; congruence);
         exists t; split; [done | apply evolves_refl]..].
    destruct (AgentTask.steps (run_task run) !! i) as [step|] eqn:Hstep;
      [| rewrite settle_idle by (intros ? ? ?; congruence);
         exists t; split; [done | apply evolves_refl]].
    rewrite (settle_tasks r c s run i step k Hrun Hphase Hstep), Ht.
    case_decide; eexists; (split; [done |]).
    + apply evolves_settle_task.
    + apply evolves_refl.
  - rewrite notify_tasks. exists t. split; [done | apply evolves_refl].
Qed.

Lemma evolves_reaches (s s' : Service) (k : string) (t : AgentTask.t) :
  reaches s s' -> _tasks s !! k = Some t ->
  exists t', _tasks s' !! k = Some t' /\ evolves t t'.
Proof.
  intros H. revert t. induction H as [| s1 s2 s3 (op & Hfresh & ->) _ IH]; intros t Ht.
  - exists t. split; [done | apply evolves_refl].
  - destruct (evolves_apply op s1 k t Hfresh Ht) as (t1 & Ht1 & H1).
    destruct (IH t1 Ht1) as (t2 & Ht2 & H2).
    exists t2. split; [done | by eapply evolves_trans].
Qed.

(** C2, as amended.  Along every sequence of operations (new tasks getting
    fresh identifiers) a task stays in the table with its identifier, name,
    description and metadata, and its status never moves back on
    Pending, Running, terminal: in particular a task that has a terminal
    status keeps a terminal status, though not always the same one. *)
Theorem task_status_never_moves_back (s s' : Service) (taskId : string)
    (task : AgentTask.t) :
  reaches s s' ->
  _tasks s !! taskId = Some task ->
  exists task',
    _tasks s' !! taskId = Some task' /\
    rank (AgentTask.status task) <= rank (AgentTask.status task') /\
    (is_terminal (AgentTask.status task) = true ->
     is_terminal (AgentTask.status task') = true) /\
    AgentTask.id task' = AgentTask.id task /\
    AgentTask.name task' = AgentTask.name task /\
    AgentTask.description task' = AgentTask.description task /\
    AgentTask.metadata task' = AgentTask.metadata task.
Proof.
  intros Hreach Htask.
  destruct (evolves_reaches s s' taskId task Hreach Htask)
    as (task' & Htask' & Hid & Hname & Hdesc & Hmeta & _ & Hrank).
  exists task'. repeat split; try done.
  rewrite !rank_terminal. pose proof (rank_le_2 (AgentTask.status task')). lia.
Qed.

Lemma task_status_never_moves_back_witness :
  exists task',
    _tasks (cancelTask "task-1" Sample.finished) !! "task-1" = Some task' /\
    is_terminal (AgentTask.status task') = true /\
    AgentTask.id task' = "task-1".
Proof.
  assert (Hreach : reaches Sample.finished (cancelTask "task-1" Sample.finished)).
  { by apply (reaches_run_ops [CancelTask "task-1"]). }
  destruct (task_status_never_moves_back Sample.finished
              (cancelTask "task-1" Sample.finished) "task-1" _ Hreach eq_refl)
    as (task' & Htask' & _ & Hterminal & Hid & _).
  exists task'. split; [exact Htask' |]. split; [exact (Hterminal eq_refl) | exact Hid].
Defined.

(** Tasks are created running (or completed at once, when the plan has no
    step to run): never pending. *)
Lemma executeTask_creates_running (plan : AgentPlan) (context : URI)
    (options : AgentExecutionOptions) (taskId : string) (stepUuid : nat -> string)
    (s : Service) :
  exists t,
    _tasks (snd (executeTask plan context options taskId stepUuid s)) !! taskId = Some t /\
    1 <= rank (AgentTask.status t).
Proof.
  rewrite executeTask_tasks, decide_True by done. eexists. split; [done |].
  match goal with |- context [enter_task ?run 0 ?t] =>
    destruct (evolves_enter_task run 0 t) as (_ & _ & _ & _ & _ & H) end.
  exact H.
Qed.

(** A completed task is cancelled by a later [cancelTask]; and a task that
    [cancelTask] cancelled while its last step was running is completed when
    that step finishes, its step being updated on the way. *)
Lemma terminal_status_is_overwritten :
  (AgentTask.status <$> _tasks Sample.finished !! "task-1"
   = Some AgentTaskStatus.Completed /\
   AgentTask.status <$> _tasks (cancelTask "task-1" Sample.finished) !! "task-1"
   = Some AgentTaskStatus.Cancelled) /\
  (AgentTask.status <$> _tasks (cancelTask "task-1" Sample.started) !! "task-1"
   = Some AgentTaskStatus.Cancelled /\
   AgentTask.status <$>
     _tasks (settle 0 Sample.prose_model (cancelTask "task-1" Sample.started)) !! "task-1"
   = Some AgentTaskStatus.Completed /\
   AgentTask.steps <$>
     _tasks (settle 0 Sample.prose_model (cancelTask "task-1" Sample.started)) !! "task-1"
   <> AgentTask.steps <$> _tasks (cancelTask "task-1" Sample.started) !! "task-1").
Proof. repeat split; by vm_compute. Qed.

(** ** The table of cancellation sources *)

(** An operation other than [cancelTask] on the task [k] leaves the source
    of [k] in the side table, and so does every sequence of such operations. *)
Lemma source_kept_apply (op : Op) (s : Service) (k : string) :
  op <> CancelTask k ->
  is_Some (_taskCancellations s !! k) ->
  is_Some (_taskCancellations (apply op s) !! k).
Proof.
  intros Hop Hk.
  destruct op as [plan context options taskId stepUuid | taskId | r | r c | r];
    cbn [apply].
  - rewrite executeTask_cancellations.
    destruct (decide (k = taskId)) as [-> | Hne].
    + rewrite lookup_insert_eq. by eexists.
    + by rewrite lookup_insert_ne.
  - unfold cancelTask. destruct (_taskCancellations s !! taskId) eqn:E; [| done].
    cbn [_taskCancellations]. rewrite cancellations_updateTask.
    rewrite lookup_delete_ne; [done |]. intros ->. by apply Hop.
  - done.
  - by rewrite settle_cancellations.
  - by rewrite notify_cancellations.
Qed.

Lemma source_kept_run_ops (ops : list Op) (s : Service) (k : string) :
  CancelTask k ∉ ops ->
  is_Some (_taskCancellations s !! k) ->
  is_Some (_taskCancellations (run_ops ops s) !! k).
Proof.
  revert s. induction ops as [|op ops IH]; intros s Hops Hk; [done |].
  cbn [run_ops]. apply not_elem_of_cons in Hops as [Hop Hops].
  apply IH; [done |]. apply source_kept_apply; [| done]. by intros ->.
Qed.

(** C9, as amended.  The cancellation source of a task is entered in the
    side table when [executeTask] creates the task, and [executeTask] leaves
    the entries of the other tasks as they are; [cancelTask] removes the
    entry of its task (and no other entry), and nothing else removes an
    entry: the steps of the loop, also those that end the task as completed,
    failed or cancelled, the completion callback and the firing of a token
    leave the table as it is, so that through every sequence of operations
    without a [cancelTask] on the task, the source of the task stays in the
    table. *)
Theorem cancellation_source_is_removed_by_cancelTask_only :
  (forall plan context options taskId stepUuid s,
     _taskCancellations (snd (executeTask plan context options taskId stepUuid s))
       !! taskId = Some (List.length (runs s))) /\
  (forall plan context options taskId stepUuid k s, k <> taskId ->
     _taskCancellations (snd (executeTask plan context options taskId stepUuid s)) !! k
     = _taskCancellations s !! k) /\
  (forall taskId s, _taskCancellations (cancelTask taskId s) !! taskId = None) /\
  (forall taskId k s, k <> taskId ->
     _taskCancellations (cancelTask taskId s) !! k = _taskCancellations s !! k) /\
  (forall r c s, _taskCancellations (settle r c s) = _taskCancellations s) /\
  (forall r s, _taskCancellations (notify r s) = _taskCancellations s) /\
  (forall r s, _taskCancellations (cancel r s) = _taskCancellations s) /\
  (forall op s k, op <> CancelTask k ->
     is_Some (_taskCancellations s !! k) ->
     is_Some (_taskCancellations (apply op s) !! k)) /\
  (forall ops s k, CancelTask k ∉ ops ->
     is_Some (_taskCancellations s !! k) ->
     is_Some (_taskCancellations (run_ops ops s) !! k)).
Proof.
  split; [| split; [| split; [| split; [| split; [| split; [| split; [| split]]]]]]].
  - intros. rewrite executeTask_cancellations. apply lookup_insert_eq.
  - intros plan context options taskId stepUuid k s Hk.
    rewrite executeTask_cancellations. by apply lookup_insert_ne.
  - intros taskId s. unfold cancelTask.
    destruct (_taskCancellations s !! taskId) eqn:E; [| done].
    cbn. apply lookup_delete_eq.
  - intros taskId k s Hk. unfold cancelTask.
    destruct (_taskCancellations s !! taskId) eqn:E; [| done].
    cbn. rewrite lookup_delete_ne by done. by rewrite cancellations_updateTask.
  - apply settle_cancellations.
  - apply notify_cancellations.
  - done.
  - apply source_kept_apply.
  - apply source_kept_run_ops.
Qed.

(** A task that has completed still has its source in the side table. *)
Lemma completed_task_keeps_its_source :
  AgentTask.status <$> _tasks Sample.finished !! "task-1"
  = Some AgentTaskStatus.Completed /\
  phase <$> runs Sample.finished !! 0 = Some Resolved /\
  _taskCancellations Sample.finished !! "task-1" = Some 0 /\
  _taskCancellations (notify 0 Sample.finished) !! "task-1" = Some 0.
Proof. repeat split; by vm_compute. Qed.

(** ** A loop that has returned *)

Lemma stopped_not_awaiting (run : Run) (i : nat) : stopped run -> phase run <> Awaiting i.
Proof. unfold stopped. by destruct (phase run). Qed.

(** Once the loop of a run has returned, no operation changes the steps of
    its task, and the status changes only by becoming cancelled. *)
Lemma stopped_apply (op : Op) (s : Service) (r : nat) (run : Run) (t : AgentTask.t) :
  coherent s -> fresh op s ->
  runs s !! r = Some run -> stopped run ->
  _tasks s !! AgentTask.id (run_task run) = Some t ->
  exists run' t',
    runs (apply op s) !! r = Some run' /\
    run_task run' = run_task run /\ stopped run' /\
    _tasks (apply op s) !! AgentTask.id (run_task run) = Some t' /\
    AgentTask.steps t' = AgentTask.steps t /\
    (AgentTask.status t' = AgentTask.status t \/
     AgentTask.status t' = AgentTaskStatus.Cancelled).
Proof.
  intros Hs Hfresh Hrun Hstopped Ht.
  destruct op as [plan context options taskId stepUuid | taskId | r0 | r0 c | r0];
    cbn [apply fresh] in *.
  - destruct Hfresh as [Hfresh _]. exists run, t.
    rewrite executeTask_runs, executeTask_tasks, decide_False by congruence.
    rewrite lookup_app_l by by eapply lookup_lt_Some. repeat split; by try left.
  - assert (Hrun' : exists run', runs (cancelTask taskId s) !! r = Some run' /\
                                 run_task run' = run_task run /\ phase run' = phase run).
    { unfold cancelTask. destruct (_taskCancellations s !! taskId) as [r0|]; [| by exists run].
      cbn [runs]. rewrite runs_updateTask. cbn [cancel runs].
      destruct (decide (r0 = r)) as [-> | Hne].
      - rewrite list_lookup_alter_eq, Hrun. by eexists.
      - rewrite list_lookup_alter_ne by done. by exists run. }
    destruct Hrun' as (run' & Hrun' & Htask & Hphase).
    rewrite cancelTask_tasks, Ht.
    case_decide; exists run'; eexists;
      (split; [done |]); (split; [done |]);
      (split; [by unfold stopped; rewrite Hphase |]);
      (split; [done |]); (split; [done |]); first [by right | by left].
  - cbn [cancel runs _tasks]. destruct (decide (r0 = r)) as [-> | Hne].
    + rewrite list_lookup_alter_eq, Hrun. eexists _, t. repeat split; by try left.
    + rewrite list_lookup_alter_ne by done. exists run, t. repeat split; by try left.
  - destruct (runs s !! r0) as [run0|] eqn:Hrun0;
      [| rewrite settle_idle by (intros ? ? ?; congruence);
         exists run, t; repeat split; by try left].
    destruct (phase run0) as [i| |] eqn:Hphase0;
      [| rewrite settle_idle by (intros ? ? ?; congruence);
         exists run, t; repeat split; by try left..].
    destruct (AgentTask.steps (run_task run0) !! i) as [step|] eqn:Hstep;
      [| rewrite settle_idle by (intros ? ? ?; congruence);
         exists run, t; repeat split; by try left].
    assert (Hne : r0 <> r).
    { intros ->. assert (run0 = run) as -> by congruence.
      by apply (stopped_not_awaiting run i). }
    rewrite (settle_runs r0 c s run0 i step Hrun0 Hphase0 Hstep).
    rewrite (settle_tasks r0 c s run0 i step _ Hrun0 Hphase0 Hstep).
    rewrite list_lookup_alter_ne by done. rewrite decide_False.
    + exists run, t. repeat split; by try left.
    + intros Hid. apply Hne. symmetry.
      by apply (run_tasks_distinct s Hs r r0 run run0).
  - rewrite notify_tasks.
    destruct (notify_runs r0 s) as [-> | (run0 & Hrun0 & Hphase0 & ->)].
    + exists run, t. repeat split; by try left.
    + destruct (decide (r0 = r)) as [-> | Hne].
      * rewrite list_lookup_alter_eq, Hrun. eexists _, t. repeat split; by try left.
      * rewrite list_lookup_alter_ne by done. exists run, t. repeat split; by try left.
Qed.

Lemma stopped_reaches (s s' : Service) (r : nat) (run : Run) (t : AgentTask.t) :
  reaches s s' -> coherent s ->
  runs s !! r = Some run -> stopped run ->
  _tasks s !! AgentTask.id (run_task run) = Some t ->
  exists run' t',
    runs s' !! r = Some run' /\
    run_task run' = run_task run /\ stopped run' /\
    _tasks s' !! AgentTask.id (run_task run) = Some t' /\
    AgentTask.steps t' = AgentTask.steps t /\
    (AgentTask.status t' = AgentTask.status t \/
     AgentTask.status t' = AgentTaskStatus.Cancelled).
Proof.
  intros H. revert run t.
  induction H as [| s1 s2 s3 (op & Hfresh & ->) _ IH]; intros run t Hs Hrun Hstopped Ht.
  - exists run, t. repeat split; by try left.
  - destruct (stopped_apply op s1 r run t Hs Hfresh Hrun Hstopped Ht)
      as (run1 & t1 & Hrun1 & Htask1 & Hstopped1 & Ht1 & Hsteps1 & Hstatus1).
    rewrite <- Htask1 in Ht1.
    destruct (IH run1 t1 (coherent_apply op s1 Hfresh Hs) Hrun1 Hstopped1 Ht1)
      as (run2 & t2 & Hrun2 & Htask2 & Hstopped2 & Ht2 & Hsteps2 & Hstatus2).
    exists run2, t2. rewrite Htask1 in Ht2. repeat split; try done; try congruence.
    destruct Hstatus2 as [-> | ->]; [done | by right].
Qed.

(** What [settle] leaves, in a run that awaits step [i]. *)
Lemma settle_awaited (s : Service) (r : nat) (run : Run) (i : nat) (step : AgentStep.t)
    (c : Collaborators) :
  coherent s ->
  runs s !! r = Some run -> phase run = Awaiting i ->
  AgentTask.steps (run_task run) !! i = Some step ->
  exists t,
    _tasks s !! AgentTask.id (run_task run) = Some t /\
    step_ids t = step_ids (run_task run) /\
    _tasks (settle r c s) !! AgentTask.id (run_task run)
    = Some (settle_task run c i step t) /\
    runs (settle r c s) !! r = Some (with_phase (settle_phase run c i step) run).
Proof.
  intros Hs Hrun Hphase Hstep.
  destruct (run_has_task s Hs r run Hrun) as (t & Ht & Hids).
  exists t. split; [done |]. split; [done |].
  rewrite (settle_tasks r c s run i step _ Hrun Hphase Hstep), decide_True, Ht by done.
  split; [done |].
  by rewrite (settle_runs r c s run i step Hrun Hphase Hstep), list_lookup_alter_eq, Hrun.
Qed.

(** ** Cancellation at the step boundary *)

(** C5.  In a reachable state, let a loop await its step [i], with an
    iteration to begin after it (there is a step [i + 1], and the loop is not
    stopped by a failure of step [i]), and let cancellation have been
    requested.  When the awaited handler finishes, the check at the boundary
    stops the loop; from then on, whatever happens to the service, the loop
    stays stopped, the task is cancelled, no step of the task changes, and
    every step after [i] is pending. *)
Theorem cancellation_is_checked_at_the_step_boundary (s s' : Service) (r : nat)
    (run : Run) (i : nat) (step : AgentStep.t) (c : Collaborators) :
  reaches Agent.empty s ->
  runs s !! r = Some run -> phase run = Awaiting i ->
  AgentTask.steps (run_task run) !! i = Some step ->
  isCancellationRequested run = true ->
  S i < List.length (AgentTask.steps (run_task run)) ->
  (forall error,
     executeStep c step (run_context run) (run_options run) = JS.Throw error ->
     loop_stopOnError (run_options run) = false) ->
  reaches (settle r c s) s' ->
  exists run' t1 t',
    _tasks (settle r c s) !! AgentTask.id (run_task run) = Some t1 /\
    runs s' !! r = Some run' /\ stopped run' /\
    _tasks s' !! AgentTask.id (run_task run) = Some t' /\
    AgentTask.status t' = AgentTaskStatus.Cancelled /\
    AgentTask.steps t' = AgentTask.steps t1 /\
    (forall j, i < j -> pending_at t' j).
Proof.
  intros Hreach Hrun Hphase Hstep Hcancelled Hnext Hgoes Hlater.
  pose proof (reachable_coherent s Hreach) as Hs.
  destruct (settle_awaited s r run i step c Hs Hrun Hphase Hstep)
    as (t & Ht & Hids & Ht1 & Hrun1).
  destruct (lookup_lt_is_Some_2 _ _ Hnext) as [next Hnextstep].
  assert (Hp : settle_phase run c i step = Resolved).
  { unfold settle_phase, enter_phase. rewrite Hnextstep, Hcancelled.
    destruct (executeStep c step (run_context run) (run_options run)) eqn:E; [done |].
    by rewrite (Hgoes _ eq_refl). }
  assert (Hstatus : AgentTask.status (settle_task run c i step t)
                    = AgentTaskStatus.Cancelled).
  { unfold settle_task, enter_task. rewrite Hnextstep, Hcancelled.
    destruct (executeStep c step (run_context run) (run_options run)) eqn:E; [done |].
    by rewrite (Hgoes _ eq_refl). }
  assert (Hstopped : stopped (with_phase (settle_phase run c i step) run)).
  { unfold stopped. cbn. by rewrite Hp. }
  destruct (stopped_reaches (settle r c s) s' r _ (settle_task run c i step t) Hlater
              (coherent_settle r c s Hs) Hrun1 Hstopped Ht1) as
    (run' & t' & Hrun' & _ & Hstopped' & Ht' & Hsteps' & Hstatus').
  exists run', (settle_task run c i step t), t'.
  split; [done |]. split; [done |]. split; [done |]. split; [exact Ht' |].
  split; [destruct Hstatus' as [-> | ->]; done |]. split; [done |].
  intros j Hj step' Hstep'. rewrite Hsteps' in Hstep'.
  rewrite (same_after_settle_task_stopped run c i step t Hids Hstep Hp j Hj) in Hstep'.
  by apply (later_steps_pending s Hs r run i t j Hrun Hphase Ht Hj).
Qed.

(** ** Failure of a step *)

Section Failure.

Implicit Types (s : Service) (t : AgentTask.t) (run : Run) (r i j k n : nat).

(** With distinct identifiers, [updateStep] updates the step at the position
    of the step it was called for. *)
Lemma step_update_steps run k step updates t :
  step_ids t = step_ids (run_task run) ->
  NoDup (step_ids (run_task run)) ->
  AgentTask.steps (run_task run) !! k = Some step ->
  AgentTask.steps (step_update (AgentStep.id step) updates t)
  = alter (fun step => spread_step step updates) k (AgentTask.steps t).
Proof.
  intros Hids Hnodup Hstep. unfold step_update, findIndex.
  by destruct (findIndex_eq _ t k step Hids Hnodup Hstep) as (step0 & ->).
Qed.

Lemma enter_task_steps_before run k t j :
  step_ids t = step_ids (run_task run) ->
  NoDup (step_ids (run_task run)) ->
  j < k ->
  AgentTask.steps (enter_task run k t) !! j = AgentTask.steps t !! j.
Proof.
  intros Hids Hnodup Hj. unfold enter_task.
  destruct (AgentTask.steps (run_task run) !! k) as [step|] eqn:Hstep; [| done].
  destruct (isCancellationRequested run); [done |].
  cbn [spread_task AgentTask.steps at_step u_steps default].
  rewrite (step_update_steps run k) by done. apply list_lookup_alter_ne. lia.
Qed.

(** The step that has just been handled, after [settle]. *)
Lemma settle_task_at run c k step t :
  step_ids t = step_ids (run_task run) ->
  NoDup (step_ids (run_task run)) ->
  AgentTask.steps (run_task run) !! k = Some step ->
  AgentTask.steps (settle_task run c k step t) !! k =
  (fun old =>
     spread_step old
       match executeStep c step (run_context run) (run_options run) with
       | JS.Return result =>
           mkStepUpdates (Some AgentStepStatus.Completed) (Some result) None
       | JS.Throw error =>
           mkStepUpdates (Some AgentStepStatus.Failed) None (Some (JS.error_text error))
       end) <$> AgentTask.steps t !! k.
Proof.
  intros Hids Hnodup Hstep. unfold settle_task.
  assert (Hthen : forall updates,
            AgentTask.steps
              (enter_task run (S k) (step_update (AgentStep.id step) updates t)) !! k
            = (fun old => spread_step old updates) <$> AgentTask.steps t !! k).
  { intros updates. rewrite enter_task_steps_before; [| | done | lia].
    - rewrite (step_update_steps run k) by done. apply list_lookup_alter_eq.
    - by rewrite (step_ids_evolves _ _ (evolves_step_update _ _ _)). }
  destruct (executeStep c step (run_context run) (run_options run)); [apply Hthen |].
  destruct (loop_stopOnError (run_options run)); [| apply Hthen].
  cbn [spread_task AgentTask.steps u_steps default].
  rewrite (step_update_steps run k) by done. apply list_lookup_alter_eq.
Qed.

(** The steps before it are not touched. *)
Lemma settle_task_before run c k step t j :
  step_ids t = step_ids (run_task run) ->
  NoDup (step_ids (run_task run)) ->
  AgentTask.steps (run_task run) !! k = Some step ->
  j < k ->
  AgentTask.steps (settle_task run c k step t) !! j = AgentTask.steps t !! j.
Proof.
  intros Hids Hnodup Hstep Hj. unfold settle_task.
  assert (Hthen : forall updates,
            AgentTask.steps
              (enter_task run (S k) (step_update (AgentStep.id step) updates t)) !! j
            = AgentTask.steps t !! j).
  { intros updates. rewrite enter_task_steps_before; [| | done | lia].
    - rewrite (step_update_steps run k) by done. apply list_lookup_alter_ne. lia.
    - by rewrite (step_ids_evolves _ _ (evolves_step_update _ _ _)). }
  destruct (executeStep c step (run_context run) (run_options run)); [apply Hthen |].
  destruct (loop_stopOnError (run_options run)); [| apply Hthen].
  cbn [spread_task AgentTask.steps u_steps default].
  rewrite (step_update_steps run k) by done. apply list_lookup_alter_ne. lia.
Qed.


End Failure.


(** ** The sample runs *)

Lemma step_uuid_inj (i j : nat) : Sample.step_uuid i = Sample.step_uuid j -> i = j.
Proof.
  unfold Sample.step_uuid. rewrite !append_cons, !append_nil. intros H.
  injection H as H. by apply (inj pretty).
Qed.

(** The three-step plan has been started and its first step, an edit, has
    been handled: the loop awaits the step that has no handler. *)
Lemma first_step_done_reachable :
  reaches Agent.empty
    (settle 0 Sample.prose_model (Sample.started_three Sample.default_options)).
Proof.
  apply (reaches_run_ops
           [ExecuteTask Sample.three_steps Sample.workspace Sample.default_options
              "task-3" Sample.step_uuid;
            Settle 0 Sample.prose_model]).
  split; [split; [done | exact step_uuid_inj] | done].
Qed.

(** The plan has been started, and its token cancelled while the first step
    is being handled. *)
Lemma cancelled_in_first_step_reachable :
  reaches Agent.empty (cancel 0 (Sample.started_three Sample.default_options)).
Proof.
  apply (reaches_run_ops
           [ExecuteTask Sample.three_steps Sample.workspace Sample.default_options
              "task-3" Sample.step_uuid;
            TokenCancelled 0]).
  split; [split; [done | exact step_uuid_inj] | done].
Qed.


Lemma cancellation_is_checked_at_the_step_boundary_witness :
  exists t',
    _tasks (settle 0 Sample.prose_model
              (cancel 0 (Sample.started_three Sample.default_options)))
      !! "task-3" = Some t' /\
    AgentTask.status t' = AgentTaskStatus.Cancelled /\
    (forall j, 0 < j -> pending_at t' j).
Proof.
  destruct (cancellation_is_checked_at_the_step_boundary
              (cancel 0 (Sample.started_three Sample.default_options))
              (settle 0 Sample.prose_model
                 (cancel 0 (Sample.started_three Sample.default_options)))
              0 _ 0 _ Sample.prose_model
              cancelled_in_first_step_reachable eq_refl eq_refl eq_refl eq_refl)
    as (run' & t1 & t' & _ & _ & _ & Ht' & Hstatus & _ & Hpending).
  - vm_compute. lia.
  - intros error H. discriminate H.
  - apply rtc_refl.
  - exists t'. split; [exact Ht' |]. split; [exact Hstatus | exact Hpending].
Defined.

(** * Further properties of the sandbox and of the service *)


(** * Further properties of the sandbox *)

(** ** [parseCommand] *)

Section ParseCommand.

Implicit Types (t : Tokenizer) (cs : list ascii) (ps : list string) (c q : ascii).

(** The end of [parseCommand]: the word being read, if any, is the last part. *)
Lemma parseCommand_fold (command : string) :
  parseCommand command =
  let t := fold_left tokenizer_step (list_ascii_of_string command)
                     (mkTokenizer [] "" false None) in
  if JS.truthy_string (current t) then (parts t ++ [current t])%list else parts t.
Proof. reflexivity. Qed.

Lemma truthy_string_ne (s : string) : JS.truthy_string s = true <-> s <> "".
Proof.
  unfold JS.truthy_string. by destruct (String.eqb_spec s "").
Qed.

Lemma chars_append (a b : string) :
  list_ascii_of_string (a +:+ b) = (list_ascii_of_string a ++ list_ascii_of_string b)%list.
Proof.
  induction a as [|x a IH]; [by rewrite append_nil |].
  rewrite append_cons. cbn. by rewrite IH.
Qed.

Lemma push_char_append (s : string) c (rest : string) :
  push_char s c +:+ rest = s +:+ String c rest.
Proof. unfold push_char. by rewrite append_assoc, append_cons, append_nil. Qed.

Lemma append_empty_r (s : string) : s +:+ "" = s.
Proof. induction s as [|x s IH]; [done |]. by rewrite append_cons, IH. Qed.

(** The parts already found are only added to. *)
Lemma tokenizer_step_parts t c ps :
  tokenizer_step (mkTokenizer (ps ++ parts t) (current t) (inQuotes t) (quoteChar t)) c
  = let t' := tokenizer_step t c in
    mkTokenizer (ps ++ parts t') (current t') (inQuotes t') (quoteChar t').
Proof.
  unfold tokenizer_step. cbn.
  repeat (match goal with |- context [if ?b then _ else _] => destruct b end; cbn);
    by rewrite ?app_assoc.
Qed.

Lemma fold_tokenizer_parts cs t ps :
  fold_left tokenizer_step cs
    (mkTokenizer (ps ++ parts t) (current t) (inQuotes t) (quoteChar t))
  = let t' := fold_left tokenizer_step cs t in
    mkTokenizer (ps ++ parts t') (current t') (inQuotes t') (quoteChar t').
Proof.
  revert t. induction cs as [|c cs IH]; intros t; [done |].
  cbn [fold_left]. rewrite tokenizer_step_parts. cbn zeta. apply IH.
Qed.

(** No part is empty. *)
Lemma tokenizer_step_nonempty t c :
  Forall (fun p => p <> "") (parts t) ->
  Forall (fun p => p <> "") (parts (tokenizer_step t c)).
Proof.
  intros H. unfold tokenizer_step.
  repeat (match goal with |- context [if ?b then _ else _] => destruct b eqn:? end; cbn);
    try done.
  apply Forall_app. split; [done |]. apply Forall_singleton. by apply truthy_string_ne.
Qed.

Lemma fold_tokenizer_nonempty cs t :
  Forall (fun p => p <> "") (parts t) ->
  Forall (fun p => p <> "") (parts (fold_left tokenizer_step cs t)).
Proof.
  revert t. induction cs as [|c cs IH]; intros t H; [done |].
  cbn [fold_left]. by apply IH, tokenizer_step_nonempty.
Qed.

(** Outside quotes no quote character is remembered. *)
Lemma tokenizer_step_quoteChar t c :
  (inQuotes t = false -> quoteChar t = None) ->
  inQuotes (tokenizer_step t c) = false -> quoteChar (tokenizer_step t c) = None.
Proof.
  intros H. unfold tokenizer_step.
  repeat (match goal with |- context [if ?b then _ else _] => destruct b eqn:? end; cbn);
    try done.
Qed.

Lemma fold_tokenizer_quoteChar cs t :
  (inQuotes t = false -> quoteChar t = None) ->
  inQuotes (fold_left tokenizer_step cs t) = false ->
  quoteChar (fold_left tokenizer_step cs t) = None.
Proof.
  revert t. induction cs as [|c cs IH]; intros t H; [done |].
  cbn [fold_left]. by apply IH, tokenizer_step_quoteChar.
Qed.

(** Characters that are neither spaces nor quotes are added to the word
    being read. *)
Lemma tokenizer_step_plain ps (cur : string) c :
  c <> " "%char -> Notions.is_quote c = false ->
  tokenizer_step (mkTokenizer ps cur false None) c
  = mkTokenizer ps (push_char cur c) false None.
Proof.
  intros Hspace Hquote. unfold tokenizer_step. cbn.
  unfold Notions.is_quote in Hquote. rewrite Hquote. cbn.
  by destruct (Ascii.eqb_spec c " ").
Qed.

Lemma fold_tokenizer_plain (word : string) ps (cur : string) :
  Forall (fun c => c <> " "%char /\ Notions.is_quote c = false)
         (list_ascii_of_string word) ->
  fold_left tokenizer_step (list_ascii_of_string word) (mkTokenizer ps cur false None)
  = mkTokenizer ps (cur +:+ word) false None.
Proof.
  revert cur. induction word as [|c word IH]; intros cur H.
  - by rewrite append_empty_r.
  - cbn [list_ascii_of_string] in *. apply Forall_cons in H as [[Hspace Hquote] H].
    cbn [fold_left]. rewrite tokenizer_step_plain, IH by done.
    by rewrite push_char_append.
Qed.

(** Inside quotes every character but the closing quote is added to the
    word being read. *)
Lemma tokenizer_step_quoted ps (cur : string) q c :
  c <> q ->
  tokenizer_step (mkTokenizer ps cur true (Some q)) c
  = mkTokenizer ps (push_char cur c) true (Some q).
Proof.
  intros Hc. unfold tokenizer_step. cbn. rewrite andb_false_r.
  rewrite bool_decide_eq_false_2 by congruence. cbn. by rewrite andb_false_r.
Qed.

Lemma fold_tokenizer_quoted (body : string) ps (cur : string) q :
  Notions.free_of q body ->
  fold_left tokenizer_step (list_ascii_of_string body) (mkTokenizer ps cur true (Some q))
  = mkTokenizer ps (cur +:+ body) true (Some q).
Proof.
  revert cur. induction body as [|c body IH]; intros cur H.
  - by rewrite append_empty_r.
  - unfold Notions.free_of in *. cbn [list_ascii_of_string] in *.
    apply Forall_cons in H as [Hc H].
    cbn [fold_left]. rewrite tokenizer_step_quoted, IH by done.
    by rewrite push_char_append.
Qed.

End ParseCommand.

(** X1.  [parseCommand] returns no empty part: runs of spaces separate two
    parts like one space does, and an argument written as two quotes with
    nothing between them is lost. *)
Theorem parseCommand_has_no_empty_part (command part : string) :
  part ∈ parseCommand command -> part <> "".
Proof.
  rewrite parseCommand_fold. cbn zeta.
  set (t := fold_left _ _ _).
  assert (H : Forall (fun p => p <> "") (parts t)).
  { by apply fold_tokenizer_nonempty. }
  rewrite Forall_forall in H.
  destruct (JS.truthy_string (current t)) eqn:E; [| apply H].
  intros [Hin | Hin%list_elem_of_singleton]%elem_of_app; [by apply H |].
  subst part. by apply truthy_string_ne.
Qed.

Lemma parseCommand_has_no_empty_part_witness :
  "npm" ∈ parseCommand "npm   test  ''" /\ "npm" <> "".
Proof.
  assert (H : "npm" ∈ parseCommand "npm   test  ''") by (vm_compute; apply list_elem_of_here).
  split; [exact H |]. exact (parseCommand_has_no_empty_part _ _ H).
Defined.


Section ParseWords.

Implicit Types (t : Tokenizer) (ps ws : list string) (q : ascii).

(** A space outside quotes ends the word being read. *)
Lemma tokenizer_step_space ps (cur : string) :
  tokenizer_step (mkTokenizer ps cur false None) " "
  = mkTokenizer (if JS.truthy_string cur then ps ++ [cur] else ps)%list "" false None.
Proof.
  unfold tokenizer_step. cbn. destruct (JS.truthy_string cur) eqn:E; [done |].
  apply not_true_iff_false in E. rewrite truthy_string_ne in E.
  by destruct (decide (cur = "")) as [-> |].
Qed.

Lemma join_cons (sep x y : string) (rest : list string) :
  JS.join sep (x :: y :: rest) = x +:+ sep +:+ JS.join sep (y :: rest).
Proof. reflexivity. Qed.

Lemma fold_tokenizer_words ws ps :
  Forall Notions.plain ws ->
  let t := fold_left tokenizer_step (list_ascii_of_string (JS.join " " ws))
                     (mkTokenizer ps "" false None) in
  (if JS.truthy_string (current t) then parts t ++ [current t] else parts t)%list
  = (ps ++ ws)%list.
Proof.
  revert ps. induction ws as [|w ws IH]; intros ps H.
  - cbn. by rewrite app_nil_r.
  - apply Forall_cons in H as [[Hne Hw] H]. destruct ws as [|w' ws].
    + cbn [JS.join]. cbn zeta. rewrite fold_tokenizer_plain, append_nil by done. cbn.
      by rewrite (proj2 (truthy_string_ne w)).
    + rewrite join_cons. cbn zeta.
      rewrite !chars_append, !fold_left_app, fold_tokenizer_plain, append_nil by done.
      cbn [list_ascii_of_string fold_left]. rewrite tokenizer_step_space.
      rewrite (proj2 (truthy_string_ne w)) by done.
      specialize (IH (ps ++ [w])%list H). cbn zeta in IH. rewrite IH.
      by rewrite <- app_assoc.
Qed.

End ParseWords.

(** X2.  Words that need no quoting survive a round trip: joined with single
    spaces and parsed again, they come back as they were. *)
Theorem parseCommand_of_joined_words (words : list string) :
  Forall Notions.plain words ->
  parseCommand (JS.join " " words) = words.
Proof.
  intros H. rewrite parseCommand_fold. by apply (fold_tokenizer_words words []).
Qed.

Lemma parseCommand_of_joined_words_witness :
  parseCommand (JS.join " " ["npx"; "jest"; "--ci"; "src/a.test.ts"])
  = ["npx"; "jest"; "--ci"; "src/a.test.ts"].
Proof.
  apply parseCommand_of_joined_words.
  repeat (apply Forall_cons; split;
          [split; [done | repeat (apply Forall_cons; split; [done |]); apply Forall_nil_2] |]).
  apply Forall_nil_2.
Defined.

(** X3.  A space outside quotes separates: when every quote opened in [a] is
    closed in [a], the parts of [a], a space, [b] are the parts of [a]
    followed by the parts of [b]. *)
Theorem parseCommand_splits_at_a_space (a b : string) :
  Notions.closed a ->
  parseCommand (a +:+ " " +:+ b) = (parseCommand a ++ parseCommand b)%list.
Proof.
  unfold Notions.closed. intros Hclosed. rewrite !parseCommand_fold. cbn zeta.
  rewrite !chars_append, !fold_left_app. cbn [list_ascii_of_string fold_left].
  set (ta := fold_left tokenizer_step (list_ascii_of_string a) _) in *.
  assert (Hq : quoteChar ta = None) by by apply fold_tokenizer_quoteChar.
  destruct ta as [ps cur inq qc]. cbn in Hclosed, Hq. subst inq qc.
  rewrite tokenizer_step_space. cbn [current parts].
  set (psa := (if JS.truthy_string cur then ps ++ [cur] else ps)%list).
  pose proof (fold_tokenizer_parts (list_ascii_of_string b)
                (mkTokenizer [] "" false None) psa) as H.
  cbn [parts current inQuotes quoteChar] in H. rewrite app_nil_r in H. rewrite H.
  cbn zeta. cbn [parts current].
  destruct (JS.truthy_string (current _)); [by rewrite app_assoc | done].
Qed.

Lemma parseCommand_splits_at_a_space_witness :
  parseCommand ("echo 'a b'" +:+ " " +:+ "c  d")
  = (parseCommand "echo 'a b'" ++ parseCommand "c  d")%list.
Proof. apply parseCommand_splits_at_a_space. reflexivity. Defined.

(** X4.  An argument in quotes is one part, without its quotes and with its
    spaces; a quote that is never closed extends to the end of the command;
    and a pair of quotes with nothing between them gives no part. *)
Theorem parseCommand_of_a_quoted_argument (q : ascii) (body : string) :
  Notions.is_quote q = true ->
  Notions.free_of q body ->
  parseCommand (String q (body +:+ String q "")) = (if decide (body = "") then [] else [body])
  /\ parseCommand (String q body) = (if decide (body = "") then [] else [body]).
Proof.
  intros Hq Hbody.
  assert (Hopen : forall rest,
            fold_left tokenizer_step (list_ascii_of_string (String q rest))
                      (mkTokenizer [] "" false None)
            = fold_left tokenizer_step (list_ascii_of_string rest)
                        (mkTokenizer [] "" true (Some q))).
  { intros rest. cbn [list_ascii_of_string fold_left]. f_equal.
    unfold tokenizer_step. cbn. unfold Notions.is_quote in Hq. by rewrite Hq. }
  assert (Hclose : forall cur : string,
            tokenizer_step (mkTokenizer [] cur true (Some q)) q
            = mkTokenizer [] cur false None).
  { intros cur. unfold tokenizer_step. cbn. rewrite andb_false_r. cbn.
    by rewrite bool_decide_eq_true_2. }
  assert (Hend : forall cur : string,
            (if JS.truthy_string (current (mkTokenizer [] cur false None))
             then parts (mkTokenizer [] cur false None)
                  ++ [current (mkTokenizer [] cur false None)]
             else parts (mkTokenizer [] cur false None))%list
            = if decide (cur = "") then [] else [cur]).
  { intros cur. cbn. destruct (decide (cur = "")) as [-> | Hne]; [done |].
    by rewrite (proj2 (truthy_string_ne cur)). }
  rewrite !parseCommand_fold. cbn zeta. rewrite !Hopen. split.
  - rewrite chars_append, fold_left_app, fold_tokenizer_quoted, append_nil by done.
    cbn [list_ascii_of_string fold_left]. rewrite Hclose. apply Hend.
  - rewrite fold_tokenizer_quoted, append_nil by done. cbn.
    destruct (decide (body = "")) as [-> | Hne]; [done |].
    by rewrite (proj2 (truthy_string_ne body)).
Qed.

Lemma parseCommand_of_a_quoted_argument_witness :
  parseCommand "'two words'" = ["two words"] /\ parseCommand "'two words" = ["two words"].
Proof.
  apply (parseCommand_of_a_quoted_argument "'" "two words"); [reflexivity |].
  unfold Notions.free_of. cbn.
  repeat (apply Forall_cons; split; [done |]). apply Forall_nil_2.
Defined.


(** ** [isCommandAllowed] with a list of the caller *)

Lemma some_allowed_spec (h : Host) (command : string) (entries : list string) :
  Spec.regex_entries_valid h entries ->
  exists b,
    some_allowed h command entries = JS.Return b /\
    (b = true <-> exists entry, entry ∈ entries /\ Notions.allows h command entry).
Proof.
  induction entries as [|entry entries IH]; intros Hvalid.
  - exists false. split; [done |]. split; [done |]. by intros (entry & Hin%elem_of_nil & _).
  - destruct IH as (b & Hb & Hiff).
    { intros e He. apply Hvalid. by apply list_elem_of_further. }
    cbn [some_allowed]. fold (Spec.written_as_regex entry).
    pose proof (Hvalid entry (list_elem_of_here _ _)) as Hentry.
    assert (Hhere : forall b0 : bool,
              (b0 = true <-> Notions.allows h command entry) ->
              exists b1,
                (if b0 then JS.Return true else some_allowed h command entries)
                = JS.Return b1 /\
                (b1 = true <->
                 exists e, e ∈ entry :: entries /\ Notions.allows h command e)).
    { intros [|] Hb0.
      - exists true. split; [done |]. split; [| done]. intros _.
        exists entry. split; [apply list_elem_of_here | by apply Hb0].
      - exists b. split; [done |]. rewrite Hiff. split.
        + intros (e & He & Hallows). exists e. split; [by apply list_elem_of_further | done].
        + intros (e & [-> | He]%elem_of_cons & Hallows).
          * by apply Hb0 in Hallows.
          * by exists e. }
    unfold Notions.allows in Hhere at 1.
    destruct (Spec.written_as_regex entry) eqn:Hre.
    + destruct (Hentry eq_refl) as [pattern Hpattern]. rewrite Hpattern.
      apply Hhere. split.
      * intros Hmatch. by exists pattern.
      * intros (pattern' & Hp' & Hmatch). congruence.
    + by apply Hhere.
Qed.

(** X5.  With a list of the caller in which every entry written between
    slashes is a regular expression, the check returns, and a command is
    allowed exactly when an entry allows it: an entry written between slashes
    by a match of its regular expression and by nothing else, in particular
    not as a prefix; any other entry as a prefix of the command. *)
Theorem isCommandAllowed_checks_each_entry_its_own_way (h : Host) (command : string)
    (entries : list string) :
  entries <> [] ->
  Spec.regex_entries_valid h entries ->
  exists b,
    isCommandAllowed h command (Some entries) = JS.Return b /\
    (b = true <-> exists entry, entry ∈ entries /\ Notions.allows h command entry).
Proof.
  intros Hne Hvalid. destruct entries as [|entry entries]; [done |].
  by apply some_allowed_spec.
Qed.

Lemma isCommandAllowed_checks_each_entry_its_own_way_witness :
  exists b,
    isCommandAllowed Sample.host "/a+b/c" (Some ["/a+b/"]) = JS.Return b /\
    (b = true <->
     exists entry, entry ∈ ["/a+b/"] /\ Notions.allows Sample.host "/a+b/c" entry).
Proof.
  apply isCommandAllowed_checks_each_entry_its_own_way; [done |].
  intros entry ->%list_elem_of_singleton _. by eexists.
Defined.

(** An entry between slashes is no prefix: the command that starts with the
    text of the entry is refused when the regular expression does not match
    it. *)
Example regex_entry_is_not_a_prefix :
  JS.startsWith "/a+b/c" "/a+b/" = true /\
  isCommandAllowed Sample.host "/a+b/c" (Some ["/a+b/"]) = JS.Return false.
Proof. by vm_compute. Qed.

(** X6.  The entries are tried from left to right and the check stops at the
    first that allows the command: what follows it is not looked at, so
    an entry there that is no regular expression does no harm. *)
Theorem isCommandAllowed_stops_at_the_first_match (h : Host) (command : string)
    (before after : list string) (entry : string) :
  Spec.regex_entries_valid h before ->
  Notions.allows h command entry ->
  isCommandAllowed h command (Some (before ++ entry :: after)%list) = JS.Return true.
Proof.
  intros Hvalid Hallows.
  assert (H : some_allowed h command (before ++ entry :: after)%list = JS.Return true).
  { induction before as [|e before IH].
    - cbn [app some_allowed]. fold (Spec.written_as_regex entry).
      unfold Notions.allows in Hallows. destruct (Spec.written_as_regex entry).
      + destruct Hallows as (pattern & -> & ->). done.
      + by rewrite Hallows.
    - cbn [app some_allowed]. fold (Spec.written_as_regex e).
      rewrite IH by (intros e' He'; apply Hvalid; by apply list_elem_of_further).
      destruct (Spec.written_as_regex e) eqn:Hre.
      + destruct (Hvalid e (list_elem_of_here _ _) Hre) as [pattern ->].
        by destruct (pattern command).
      + by destruct (JS.startsWith command e). }
  by destruct before.
Qed.

Lemma isCommandAllowed_stops_at_the_first_match_witness :
  isCommandAllowed Sample.host "npx jest --ci" (Some (["make"] ++ "/jest/" :: ["/(/"])%list)
  = JS.Return true.
Proof.
  apply isCommandAllowed_stops_at_the_first_match.
  - intros entry ->%list_elem_of_singleton Hre. by vm_compute in Hre.
  - change (exists pattern,
              RegExp Sample.host "jest" = JS.Return pattern /\
              pattern "npx jest --ci" = true).
    eexists. split; [reflexivity | by vm_compute].
Defined.


(** ** The identifier of a sandbox *)

Section Digest.

Local Open Scope N_scope.

Lemma hex_digit_is_hex (d : N) : d < 16 -> Notions.is_hex (SHA256.hex_digit d) = true.
Proof.
  intros Hd.
  assert (H : forallb (fun n => Notions.is_hex (SHA256.hex_digit (N.of_nat n))) (seq 0 16)
              = true) by by vm_compute.
  rewrite forallb_forall in H. rewrite <- (N2Nat.id d). apply H, in_seq. lia.
Qed.

Lemma big_endian_bytes (n : nat) (x : N) :
  Forall (fun b => b < 256) (SHA256.big_endian n x).
Proof.
  revert x. induction n as [|n IH]; intros x; cbn; [done |].
  apply Forall_app. split; [apply IH |]. apply Forall_singleton.
  change 255 with (N.ones 8). rewrite N.land_ones. by apply N.mod_lt.
Qed.

Lemma big_endian_length (n : nat) (x : N) : List.length (SHA256.big_endian n x) = n.
Proof.
  revert x. induction n as [|n IH]; intros x; cbn; [done |].
  rewrite length_app, IH. cbn. lia.
Qed.

Lemma hex_byte_chars (b : N) :
  b < 256 ->
  exists c1 c2, list_ascii_of_string (SHA256.hex_byte b) = [c1; c2] /\
                Notions.is_hex c1 = true /\ Notions.is_hex c2 = true.
Proof.
  intros Hb. eexists _, _. split; [reflexivity |]. split; apply hex_digit_is_hex.
  - rewrite N.shiftr_div_pow2. change (2 ^ 4) with 16.
    apply N.Div0.div_lt_upper_bound. lia.
  - change 15 with (N.ones 4). rewrite N.land_ones. by apply N.mod_lt.
Qed.

End Digest.

Lemma chars_join_empty (xs : list string) :
  list_ascii_of_string (JS.join "" xs) = concat (list_ascii_of_string <$> xs).
Proof.
  induction xs as [|x [|y xs] IH].
  - done.
  - cbn. by rewrite app_nil_r.
  - rewrite join_cons, append_nil, chars_append, IH. done.
Qed.

Lemma hex_word_chars (w : N) :
  List.length (list_ascii_of_string (SHA256.hex_word w)) = 8 /\
  Forall (fun c => Notions.is_hex c = true) (list_ascii_of_string (SHA256.hex_word w)).
Proof.
  unfold SHA256.hex_word. rewrite chars_join_empty.
  pose proof (big_endian_bytes 4 w) as Hbytes.
  pose proof (big_endian_length 4 w) as Hlen.
  destruct (SHA256.big_endian 4 w) as [|b0 [|b1 [|b2 [|b3 [|]]]]]; try done.
  apply Forall_cons in Hbytes as [H0 Hbytes]. apply Forall_cons in Hbytes as [H1 Hbytes].
  apply Forall_cons in Hbytes as [H2 Hbytes]. apply Forall_cons in Hbytes as [H3 _].
  destruct (hex_byte_chars b0 H0) as (? & ? & E0 & ? & ?).
  destruct (hex_byte_chars b1 H1) as (? & ? & E1 & ? & ?).
  destruct (hex_byte_chars b2 H2) as (? & ? & E2 & ? & ?).
  destruct (hex_byte_chars b3 H3) as (? & ? & E3 & ? & ?).
  cbn [fmap list_fmap concat]. rewrite E0, E1, E2, E3. cbn. split; [done |].
  by repeat (apply Forall_cons; split; [done |]).
Qed.

Lemma compress_length (h block : list N) :
  List.length h = 8%nat -> List.length (SHA256.compress h block) = 8%nat.
Proof.
  intros H. unfold SHA256.compress. rewrite length_zip_with, H. done.
Qed.

Lemma blocks_length (fuel : nat) (h ws : list N) :
  List.length h = 8%nat -> List.length (SHA256.blocks fuel h ws) = 8%nat.
Proof.
  revert h ws. induction fuel as [|fuel IH]; intros h ws H; [done |].
  destruct ws as [|w ws]; [done |]. cbn [SHA256.blocks]. by apply IH, compress_length.
Qed.

Lemma digest_hex_chars (s : string) :
  List.length (list_ascii_of_string (SHA256.digest_hex s)) = 64 /\
  Forall (fun c => Notions.is_hex c = true) (list_ascii_of_string (SHA256.digest_hex s)).
Proof.
  unfold SHA256.digest_hex. cbn zeta. rewrite chars_join_empty.
  match goal with |- context [SHA256.blocks ?f ?h ?ws] =>
    pose proof (blocks_length f h ws eq_refl) as Hlen;
    generalize dependent (SHA256.blocks f h ws) end.
  intros l Hlen.
  assert (H : forall l : list N,
            List.length (concat (list_ascii_of_string <$> (SHA256.hex_word <$> l)))
            = 8 * List.length l /\
            Forall (fun c => Notions.is_hex c = true)
                   (concat (list_ascii_of_string <$> (SHA256.hex_word <$> l)))).
  { clear. induction l as [|w l [IH1 IH2]]; [done |].
    destruct (hex_word_chars w) as [Hw1 Hw2]. cbn [fmap list_fmap concat].
    rewrite length_app, Forall_app. split; [| done].
    rewrite Hw1. change (list_fmap _ _ list_ascii_of_string (list_fmap _ _ SHA256.hex_word l))
      with (list_ascii_of_string <$> (SHA256.hex_word <$> l)).
    rewrite IH1. cbn [List.length]. lia. }
  destruct (H l) as [H1 H2]. rewrite Hlen in H1. done.
Qed.

Lemma chars_substring_0 (n : nat) (s : string) :
  list_ascii_of_string (String.substring 0 n s) = take n (list_ascii_of_string s).
Proof.
  revert s. induction n as [|n IH]; intros [|c s]; cbn; try done. by rewrite IH.
Qed.

(** X7.  Under Node, the identifier of a sandbox is a string of sixteen
    lower-case hexadecimal digits, whatever the content: it holds no
    separator and no dot, so the folder it names lies directly inside the
    root of the sandboxes. *)
Theorem generateSandboxId_is_sixteen_hex_digits (h : Host) (content : string) (st : State) :
  eval_require h = true ->
  exists id,
    fst (generateSandboxId h content st) = JS.Return id /\
    String.length id = 16 /\
    Forall (fun c => Notions.is_hex c = true) (list_ascii_of_string id).
Proof.
  intros node. destruct (loads_generateSandboxId h node content st) as [m E].
  eexists. rewrite E. split; [reflexivity |].
  destruct (digest_hex_chars content) as [Hlen Hhex].
  assert (Hchars : forall s : string, String.length s = List.length (list_ascii_of_string s)).
  { induction s as [|c s IH]; cbn; [done | by rewrite IH]. }
  rewrite Hchars, chars_substring_0. split.
  - rewrite length_take, Hlen. done.
  - by apply Forall_take.
Qed.

Lemma generateSandboxId_is_sixteen_hex_digits_witness :
  exists id,
    fst (generateSandboxId Sample.host "../../etc/passwd" initial) = JS.Return id /\
    String.length id = 16 /\
    Forall (fun c => Notions.is_hex c = true) (list_ascii_of_string id).
Proof. apply generateSandboxId_is_sixteen_hex_digits. reflexivity. Defined.


(** ** What the sandbox asks of the operating system *)

Section Requests.

Import Notions.

Context {A B : Type}.
Implicit Types (f g : gmap string nat -> gmap string nat) (l : list Effect).

Lemma runs_to_loads (c : M A) (a : A) : loads c a -> runs_to c (JS.Return a) id [].
Proof. intros H st. destruct (H st) as [m E]. exists m. by rewrite E, app_nil_r. Qed.

Lemma runs_to_ret (a : A) : runs_to (ret a) (JS.Return a) id [].
Proof. intros st. exists (modules st). rewrite app_nil_r. by destruct st. Qed.

Lemma runs_to_throw (t : JS.Thrown) : runs_to (throw (A := A) t) (JS.Throw t) id [].
Proof. intros st. exists (modules st). rewrite app_nil_r. by destruct st. Qed.

Lemma runs_to_lift (o : JS.Outcome A) : runs_to (lift o) o id [].
Proof. intros st. exists (modules st). rewrite app_nil_r. by destruct st. Qed.

Lemma runs_to_bind (c : M A) (k : A -> M B) a o f g l1 l2 :
  runs_to c (JS.Return a) f l1 -> runs_to (k a) o g l2 ->
  runs_to (c ≫= k) o (g ∘ f) (l1 ++ l2).
Proof.
  intros Hc Hk st. destruct (Hc st) as [m E].
  destruct (Hk (mkState m (f (activeExecutions st)) (effects st ++ l1)%list)) as [m' E'].
  exists m'. unfold mbind, M_bind, bind. rewrite E, E'. cbn. by rewrite app_assoc.
Qed.

Lemma runs_to_bind_throw (c : M A) (k : A -> M B) t f l :
  runs_to c (JS.Throw t) f l -> runs_to (c ≫= k) (JS.Throw t) f l.
Proof.
  intros Hc st. destruct (Hc st) as [m E]. exists m.
  unfold mbind, M_bind, bind. by rewrite E.
Qed.

Lemma runs_to_try (c : M A) (handler : JS.Thrown -> M A) a f l :
  runs_to c (JS.Return a) f l -> runs_to (try_catch c handler) (JS.Return a) f l.
Proof.
  intros Hc st. destruct (Hc st) as [m E]. exists m. unfold try_catch. by rewrite E.
Qed.

Lemma runs_to_catch (c : M A) (handler : JS.Thrown -> M A) t o f g l1 l2 :
  runs_to c (JS.Throw t) f l1 -> runs_to (handler t) o g l2 ->
  runs_to (try_catch c handler) o (g ∘ f) (l1 ++ l2).
Proof.
  intros Hc Hh st. destruct (Hc st) as [m E].
  destruct (Hh (mkState m (f (activeExecutions st)) (effects st ++ l1)%list)) as [m' E'].
  exists m'. unfold try_catch. rewrite E, E'. cbn. by rewrite app_assoc.
Qed.

End Requests.

Lemma runs_to_effect (e : Effect) : Notions.runs_to (effect e) (JS.Return tt) id [e].
Proof. intros st. by exists (modules st). Qed.

Lemma runs_to_set_execution (key : string) (pid : nat) :
  Notions.runs_to (set_execution key pid) (JS.Return tt) (insert key pid) [].
Proof. intros st. exists (modules st). by rewrite app_nil_r. Qed.

Lemma runs_to_delete_execution (key : string) :
  Notions.runs_to (delete_execution key) (JS.Return tt) (delete key) [].
Proof. intros st. exists (modules st). by rewrite app_nil_r. Qed.

Lemma runs_to_cleanupSandbox (h : Host) (dir : URI) :
  eval_require h = true ->
  Notions.runs_to (cleanupSandbox h dir) (JS.Return tt) id [Rm (uri_fsPath dir)].
Proof.
  intros node. unfold cleanupSandbox. apply runs_to_try.
  change (@id (gmap string nat)) with (@id (gmap string nat) ∘ id).
  change [Rm (uri_fsPath dir)] with ([] ++ [Rm (uri_fsPath dir)])%list.
  eapply runs_to_bind; [by apply runs_to_loads, loads_getFsPromises |].
  apply runs_to_effect.
Qed.

Lemma added_app (st st' : State) (l : list Effect) :
  effects st' = (effects st ++ l)%list -> Notions.added st st' = l.
Proof. intros E. unfold Notions.added. by rewrite E, drop_app_length. Qed.


Ltac runs_step :=
  first
    [ apply runs_to_effect
    | apply runs_to_lift
    | apply runs_to_ret
    | apply runs_to_throw
    | apply runs_to_set_execution
    | apply runs_to_delete_execution
    | by apply runs_to_cleanupSandbox
    | by apply runs_to_loads, loads_generateSandboxId
    | by apply runs_to_loads, loads_getExecAsync
    | by apply runs_to_loads, loads_getSpawn ].

Ltac runs_bind := eapply runs_to_bind; [runs_step | cbn beta zeta].

(** What a call of [executeInVM] asks of the operating system, path by path. *)
Lemma executeInVM_runs_to (h : Host) (w : VMWorld) (code : string)
    (options : SandboxOptions) :
  eval_require h = true ->
  let dir := joinPath (sandboxRoot h) (String.substring 0 16 (SHA256.digest_hex code)) in
  let file := joinPath dir "script.js" in
  exists r f l,
    Notions.runs_to (executeInVM h w code options) (JS.Return r) f l /\
    l = (match vm_createFolder w with
       | JS.Throw _ => [CreateFolder dir]
       | JS.Return _ =>
           match vm_writeFile w with
           | JS.Throw _ => [CreateFolder dir; WriteFile file code]
           | JS.Return _ =>
               [CreateFolder dir; WriteFile file code;
                Exec ("node " +:+ JS.dquote +:+ uri_fsPath file +:+ JS.dquote)
                     (JS.or_string (uri_fsPath <$> workingDirectory options)
                                   (uri_fsPath dir))
                     (delete "GITHUB_TOKEN" (delete "NPM_TOKEN"
                        (<["NODE_ENV" := "production"]>
                           (options_env options ∪ process_env h))))
                     (or_number (timeout options) 30000)]
           end
       end ++ [Rm (uri_fsPath dir)])%list /\
    (forall table, f table = table).
Proof.
  intros node dir file. unfold executeInVM. cbn zeta.
  destruct (vm_createFolder w) as [[]|t1] eqn:Hfolder.
  2:{ eexists _, _, _. split; [| split].
      - runs_bind. eapply runs_to_catch.
        + runs_bind. eapply runs_to_bind_throw. runs_step.
        + runs_bind. runs_step.
      - done.
      - done. }
  destruct (vm_writeFile w) as [[]|t2] eqn:Hfile.
  2:{ eexists _, _, _. split; [| split].
      - runs_bind. eapply runs_to_catch.
        + runs_bind. runs_bind. runs_bind.
          eapply runs_to_bind_throw. runs_step.
        + runs_bind. runs_step.
      - done.
      - done. }
  destruct (race (or_number (timeout options) 30000) (vm_race w)) as [result|t3] eqn:Hrace.
  - eexists _, _, _. split; [| split].
    + runs_bind. eapply runs_to_try.
      runs_bind. runs_bind. runs_bind. runs_bind.
      runs_bind. runs_bind. runs_bind. runs_bind. runs_step.
    + done.
    + done.
  - eexists _, _, _. split; [| split].
    + runs_bind. eapply runs_to_catch.
      * runs_bind. runs_bind. runs_bind. runs_bind.
        runs_bind. runs_bind. eapply runs_to_bind_throw. runs_step.
      * runs_bind. runs_step.
    + done.
    + done.
Qed.


(** X8.  Under Node, every call of [executeInVM] returns, leaves the table
    of executions as it was, and asks this of the operating system: first the
    creation of the folder of the sandbox, last its removal, whether the call
    succeeded or failed, and between the two at most one process. *)
Theorem executeInVM_removes_its_folder (h : Host) (w : VMWorld) (code : string)
    (options : SandboxOptions) (st : State) :
  eval_require h = true ->
  exists r st' id between,
    executeInVM h w code options st = (JS.Return r, st') /\
    fst (generateSandboxId h code st) = JS.Return id /\
    activeExecutions st' = activeExecutions st /\
    effects st' =
      (effects st ++ CreateFolder (joinPath (sandboxRoot h) id) :: between
         ++ [Rm (uri_fsPath (joinPath (sandboxRoot h) id))])%list /\
    List.length (List.filter is_process between) <= 1.
Proof.
  intros node.
  destruct (executeInVM_runs_to h w code options node) as (r & f & l & Hruns & -> & Hf).
  destruct (Hruns st) as [m E].
  destruct (loads_generateSandboxId h node code st) as [m0 E0].
  rewrite E, E0, Hf. cbn [fst].
  destruct (vm_createFolder w) as [[]|t1]; [destruct (vm_writeFile w) as [[]|t2] |].
  - eexists _, _, _, [_; _]. repeat split. cbn. lia.
  - eexists _, _, _, [_]. repeat split. cbn. lia.
  - eexists _, _, _, []. repeat split. cbn. lia.
Qed.

Lemma executeInVM_removes_its_folder_witness :
  exists r st' id between,
    executeInVM Sample.host Sample.slow_script "for (;;) {}" no_options initial
    = (JS.Return r, st') /\
    fst (generateSandboxId Sample.host "for (;;) {}" initial) = JS.Return id /\
    activeExecutions st' = activeExecutions initial /\
    effects st' =
      (effects initial ++ CreateFolder (joinPath (sandboxRoot Sample.host) id) :: between
         ++ [Rm (uri_fsPath (joinPath (sandboxRoot Sample.host) id))])%list /\
    List.length (List.filter is_process between) <= 1.
Proof. apply executeInVM_removes_its_folder. reflexivity. Defined.

(** X9.  Under Node, the process that [executeInVM] starts is [node] on the
    file [script.js] of the sandbox, with a timeout of 30000 ms when the
    options give none or give 0.  Its environment is [process.env] overridden
    by the [env] of the options, except that [NODE_ENV] is [production] and
    that [NPM_TOKEN] and [GITHUB_TOKEN] are never passed on, even when the
    options set them. *)
Theorem executeInVM_hides_the_tokens (h : Host) (w : VMWorld) (code : string)
    (options : SandboxOptions) (st : State)
    (command cwd : string) (env : gmap string string) (timeout : Z) :
  eval_require h = true ->
  Exec command cwd env timeout
    ∈ Notions.added st (snd (executeInVM h w code options st)) ->
  (exists id,
     fst (generateSandboxId h code st) = JS.Return id /\
     command = "node " +:+ JS.dquote
               +:+ uri_fsPath (joinPath (joinPath (sandboxRoot h) id) "script.js")
               +:+ JS.dquote) /\
  env !! "NPM_TOKEN" = None /\
  env !! "GITHUB_TOKEN" = None /\
  env !! "NODE_ENV" = Some "production" /\
  (forall key, key <> "NPM_TOKEN" -> key <> "GITHUB_TOKEN" -> key <> "NODE_ENV" ->
     env !! key = match options_env options !! key with
                  | Some value => Some value
                  | None => process_env h !! key
                  end) /\
  (Sandbox.timeout options = None \/ Sandbox.timeout options = Some 0%Z ->
   timeout = 30000%Z) /\
  (forall n, Sandbox.timeout options = Some n -> n <> 0%Z -> timeout = n).
Proof.
  intros node.
  destruct (executeInVM_runs_to h w code options node) as (r & f & l & Hruns & -> & Hf).
  destruct (Hruns st) as [m E].
  destruct (loads_generateSandboxId h node code st) as [m0 E0].
  rewrite E, E0. cbn [snd fst]. erewrite added_app by reflexivity.
  intros Hin.
  assert (Hexec :
            Exec command cwd env timeout =
            Exec ("node " +:+ JS.dquote
                  +:+ uri_fsPath
                        (joinPath (joinPath (sandboxRoot h)
                                     (String.substring 0 16 (SHA256.digest_hex code)))
                                  "script.js")
                  +:+ JS.dquote)
                 (JS.or_string (uri_fsPath <$> workingDirectory options)
                    (uri_fsPath (joinPath (sandboxRoot h)
                                   (String.substring 0 16 (SHA256.digest_hex code)))))
                 (delete "GITHUB_TOKEN" (delete "NPM_TOKEN"
                    (<["NODE_ENV" := "production"]>
                       (options_env options ∪ process_env h))))
                 (or_number (Sandbox.timeout options) 30000)).
  { destruct (vm_createFolder w) as [[]|t1]; [destruct (vm_writeFile w) as [[]|t2] |];
      cbn in Hin; set_unfold in Hin; by repeat destruct Hin as [Hin | Hin]. }
  injection Hexec as -> -> -> ->.
  split; [by eexists |].
  split; [by rewrite lookup_delete_ne, lookup_delete_eq |].
  split; [by rewrite lookup_delete_eq |].
  split; [by rewrite !lookup_delete_ne, lookup_insert_eq |].
  split; [| split].
  - intros key H1 H2 H3.
    rewrite !lookup_delete_ne, lookup_insert_ne, lookup_union by done.
    destruct (options_env options !! key), (process_env h !! key); done.
  - by intros [-> | ->].
  - intros n -> Hn. cbn. by destruct (Z.eqb_spec n 0).
Qed.

Lemma executeInVM_hides_the_tokens_witness :
  exists command cwd env timeout,
    Exec command cwd env timeout
      ∈ Notions.added initial
          (snd (executeInVM Sample.host Sample.slow_script "for (;;) {}"
                  (mkOptions (Some 0%Z) None None None
                             (Some {[ "NPM_TOKEN" := "secret" ]}))
                  initial)) /\
    env !! "NPM_TOKEN" = None /\ timeout = 30000%Z.
Proof.
  set (options := mkOptions (Some 0%Z) None None None (Some {[ "NPM_TOKEN" := "secret" ]})).
  set (l := Notions.added initial
              (snd (executeInVM Sample.host Sample.slow_script "for (;;) {}" options
                      initial))).
  assert (Hin : exists command cwd env timeout, Exec command cwd env timeout ∈ l).
  { vm_compute in l. eexists _, _, _, _.
    apply list_elem_of_further, list_elem_of_further, list_elem_of_here. }
  destruct Hin as (command & cwd & env & timeout & Hin).
  exists command, cwd, env, timeout. split; [exact Hin |].
  destruct (executeInVM_hides_the_tokens Sample.host Sample.slow_script "for (;;) {}"
              options initial command cwd env timeout eq_refl Hin)
    as (_ & Hnpm & _ & _ & _ & Hdefault & _).
  split; [exact Hnpm | apply Hdefault; by right].
Defined.


Lemma runs_to_when (b : bool) (e : Effect) :
  Notions.runs_to (when b (effect e)) (JS.Return tt) id (if b then [e] else []).
Proof. destruct b; [apply runs_to_effect | apply runs_to_ret]. Qed.

(** What a call of [executeTests] asks of the operating system, path by
    path. *)
Lemma executeTests_runs_to (h : Host) (w : TestWorld) (command : string)
    (options : SandboxOptions) :
  eval_require h = true ->
  let sandboxId := String.substring 0 16 (SHA256.digest_hex command) in
  let dir := joinPath (sandboxRoot h) sandboxId in
  let executionId := sandboxId +:+ "-" +:+ pretty (t_spawned w) in
  let spawn :=
    Spawn (head (parseCommand command)) (tail (parseCommand command))
          (JS.or_string (uri_fsPath <$> workingDirectory options) (uri_fsPath dir))
          (<["NODE_ENV" := "test"]> (options_env options ∪ process_env h))
          (String.eqb (process_platform h) "win32") in
  exists o f l,
    Notions.runs_to (executeTests h w command options) o f l /\
    match isCommandAllowed h command (allowedCommands options) with
    | JS.Throw t => o = JS.Throw t /\ l = [] /\ f = id
    | JS.Return false => (exists r, o = JS.Return r) /\ l = [] /\ f = id
    | JS.Return true =>
        match t_createFolder w with
        | JS.Throw _ => (exists r, o = JS.Return r) /\ l = [CreateFolder dir] /\ f = id
        | JS.Return _ =>
            match t_child w with
            | SpawnThrows t => o = JS.Throw t /\ l = [CreateFolder dir; spawn] /\ f = id
            | Closed timer_fired token_fired _ _ _ =>
                (exists r, o = JS.Return r) /\
                l = ([CreateFolder dir; spawn]
                     ++ (if timer_fired then [Kill (t_pid w) "SIGTERM"] else [])
                     ++ (if token_fired then [Kill (t_pid w) "SIGTERM"] else [])
                     ++ [Rm (uri_fsPath dir)])%list /\
                f = delete executionId ∘ insert executionId (t_pid w)
            | Errored _ _ =>
                (exists r, o = JS.Return r) /\
                l = [CreateFolder dir; spawn; Rm (uri_fsPath dir)] /\
                f = delete executionId ∘ insert executionId (t_pid w)
            end
        end
    end.
Proof.
  intros node sandboxId dir executionId spawn. unfold executeTests. cbn zeta.
  destruct (isCommandAllowed h command (allowedCommands options)) as [[|]|t] eqn:Hallowed.
  - cbn [negb].
    destruct (t_createFolder w) as [[]|t1] eqn:Hfolder.
    + destruct (t_child w) as [t | timer token code out err | error out] eqn:Hchild.
      * eexists _, _, _. split.
        -- runs_bind. runs_bind. eapply runs_to_bind.
           { eapply runs_to_try. runs_bind. runs_bind. runs_step. }
           cbn beta iota zeta. runs_bind. runs_bind. runs_step.
        -- done.
      * eexists _, _, _. split.
        -- runs_bind. runs_bind. eapply runs_to_bind.
           { eapply runs_to_try. runs_bind. runs_bind. runs_step. }
           cbn beta iota zeta. runs_bind. runs_bind. runs_bind.
           eapply runs_to_bind; [apply runs_to_when |].
           eapply runs_to_bind; [apply runs_to_when |].
           runs_bind. runs_bind. runs_step.
        -- split; [by eexists |]. split; [| done]. by destruct timer, token.
      * eexists _, _, _. split.
        -- runs_bind. runs_bind. eapply runs_to_bind.
           { eapply runs_to_try. runs_bind. runs_bind. runs_step. }
           cbn beta iota zeta. runs_bind. runs_bind. runs_bind. runs_bind. runs_bind.
           runs_step.
        -- split; [by eexists |]. done.
    + eexists _, _, _. split.
      * runs_bind. runs_bind. eapply runs_to_bind.
        { eapply runs_to_catch.
          - runs_bind. eapply runs_to_bind_throw. runs_step.
          - runs_step. }
        cbn beta iota zeta. runs_step.
      * split; [by eexists |]. done.
  - cbn [negb]. eexists _, _, _. split.
    + runs_bind. runs_bind. runs_step.
    + split; [by eexists |]. done.
  - eexists _, _, _. split.
    + runs_bind. eapply runs_to_bind_throw. runs_step.
    + done.
Qed.


(** X10.  Under Node, a process that [executeTests] starts is the first part
    of the parsed command with the other parts as its arguments, and is
    started only for a command that the allow-list allows.  Its environment
    is [process.env] overridden by the [env] of the options, with [NODE_ENV]
    set to [test]: here [NPM_TOKEN] and [GITHUB_TOKEN] are passed on.  A
    shell is used on Windows only. *)
Theorem executeTests_spawns_the_parsed_command (h : Host) (w : TestWorld)
    (command : string) (options : SandboxOptions) (st : State)
    (cmd : option string) (args : list string) (cwd : string)
    (env : gmap string string) (shell : bool) :
  eval_require h = true ->
  Spawn cmd args cwd env shell
    ∈ Notions.added st (snd (executeTests h w command options st)) ->
  isCommandAllowed h command (allowedCommands options) = JS.Return true /\
  cmd = head (parseCommand command) /\
  args = tail (parseCommand command) /\
  env !! "NODE_ENV" = Some "test" /\
  (forall key, key <> "NODE_ENV" ->
     env !! key = match options_env options !! key with
                  | Some value => Some value
                  | None => process_env h !! key
                  end) /\
  (shell = true <-> process_platform h = "win32").
Proof.
  intros node.
  destruct (executeTests_runs_to h w command options node) as (o & f & l & Hruns & H).
  destruct (Hruns st) as [m E]. rewrite E. cbn [snd]. erewrite added_app by reflexivity.
  intros Hin.
  assert (Hspawn :
            isCommandAllowed h command (allowedCommands options) = JS.Return true /\
            Spawn cmd args cwd env shell =
            Spawn (head (parseCommand command)) (tail (parseCommand command))
                  (JS.or_string (uri_fsPath <$> workingDirectory options)
                     (uri_fsPath (joinPath (sandboxRoot h)
                                    (String.substring 0 16 (SHA256.digest_hex command)))))
                  (<["NODE_ENV" := "test"]> (options_env options ∪ process_env h))
                  (String.eqb (process_platform h) "win32")).
  { destruct (isCommandAllowed h command (allowedCommands options)) as [[|]|t].
    - split; [done |].
      destruct (t_createFolder w) as [[]|t1].
      + destruct (t_child w) as [t | [|] [|] code out err | error out];
          destruct H as (_ & -> & _); set_unfold in Hin;
          by repeat destruct Hin as [Hin | Hin].
      + destruct H as (_ & -> & _). set_unfold in Hin. by destruct Hin.
    - destruct H as (_ & -> & _). by apply elem_of_nil in Hin.
    - destruct H as (_ & -> & _). by apply elem_of_nil in Hin. }
  destruct Hspawn as [Hallowed Hspawn]. injection Hspawn as -> -> -> -> ->.
  split; [done |]. do 2 (split; [done |]).
  split; [by rewrite lookup_insert_eq |]. split.
  - intros key Hkey. rewrite lookup_insert_ne, lookup_union by done.
    destruct (options_env options !! key), (process_env h !! key); done.
  - by destruct (String.eqb_spec (process_platform h) "win32").
Qed.

Lemma executeTests_spawns_the_parsed_command_witness :
  exists cmd args cwd env shell,
    Spawn cmd args cwd env shell
      ∈ Notions.added initial
          (snd (executeTests Sample.host Sample.killed_by_timer "node 'my test.js' --ci"
                  no_options initial)) /\
    cmd = Some "node" /\ args = ["my test.js"; "--ci"].
Proof.
  set (l := Notions.added initial
              (snd (executeTests Sample.host Sample.killed_by_timer
                      "node 'my test.js' --ci" no_options initial))).
  assert (Hin : exists cmd args cwd env shell, Spawn cmd args cwd env shell ∈ l).
  { vm_compute in l. eexists _, _, _, _, _.
    apply list_elem_of_further, list_elem_of_here. }
  destruct Hin as (cmd & args & cwd & env & shell & Hin).
  exists cmd, args, cwd, env, shell. split; [exact Hin |].
  destruct (executeTests_spawns_the_parsed_command Sample.host Sample.killed_by_timer
              "node 'my test.js' --ci" no_options initial cmd args cwd env shell
              eq_refl Hin)
    as (_ & Hcmd & Hargs & _).
  split; [exact Hcmd | exact Hargs].
Defined.

(** X11.  Under Node, a call of [executeTests] starts at most one process
    and leaves no execution registered: the table of executions holds
    nothing after the call that it did not hold before, however the call
    ends. *)
Theorem executeTests_leaves_no_execution (h : Host) (w : TestWorld)
    (command : string) (options : SandboxOptions) (st : State) :
  eval_require h = true ->
  let st' := snd (executeTests h w command options st) in
  activeExecutions st' ⊆ activeExecutions st /\
  List.length (List.filter is_process (Notions.added st st')) <= 1.
Proof.
  intros node.
  destruct (executeTests_runs_to h w command options node) as (o & f & l & Hruns & H).
  destruct (Hruns st) as [m E]. rewrite E. cbn [snd]. cbn zeta.
  erewrite added_app by reflexivity. cbn [activeExecutions].
  assert (Hdelete : forall (key : string) (pid : nat),
            (delete key ∘ insert key pid) (activeExecutions st) ⊆ activeExecutions st).
  { intros key pid. cbn. rewrite delete_insert_eq. apply delete_subseteq. }
  destruct (isCommandAllowed h command (allowedCommands options)) as [[|]|t].
  - destruct (t_createFolder w) as [[]|t1].
    + destruct (t_child w) as [t | [|] [|] code out err | error out];
        destruct H as (_ & -> & ->); (split; [done || apply Hdelete | cbn; lia]).
    + destruct H as (_ & -> & ->). split; [done | cbn; lia].
  - destruct H as (_ & -> & ->). split; [done | cbn; lia].
  - destruct H as (_ & -> & ->). split; [done | cbn; lia].
Qed.

Lemma executeTests_leaves_no_execution_witness :
  activeExecutions
    (snd (executeTests Sample.host Sample.killed_by_timer "node test.js" no_options initial))
  ⊆ activeExecutions initial.
Proof.
  apply (executeTests_leaves_no_execution Sample.host Sample.killed_by_timer
           "node test.js" no_options initial eq_refl).
Defined.

(** X12.  Under Node, [executeTests] removes the folder of the sandbox when
    the child it started has ended, with a ['close'] or an ['error'] event,
    and only then: when [spawn] itself throws, the folder that the call
    created stays. *)
Theorem executeTests_removes_its_folder_after_the_child (h : Host) (w : TestWorld)
    (command : string) (options : SandboxOptions) (st : State) :
  eval_require h = true ->
  exists id,
    fst (generateSandboxId h command st) = JS.Return id /\
    (Rm (uri_fsPath (joinPath (sandboxRoot h) id))
       ∈ Notions.added st (snd (executeTests h w command options st))
     <->
     isCommandAllowed h command (allowedCommands options) = JS.Return true /\
     t_createFolder w = JS.Return tt /\
     forall t, t_child w <> SpawnThrows t).
Proof.
  intros node.
  destruct (executeTests_runs_to h w command options node) as (o & f & l & Hruns & H).
  destruct (Hruns st) as [m E]. rewrite E. cbn [snd]. erewrite added_app by reflexivity.
  destruct (loads_generateSandboxId h node command st) as [m0 E0]. rewrite E0.
  eexists. split; [reflexivity |].
  destruct (isCommandAllowed h command (allowedCommands options)) as [[|]|t].
  - destruct (t_createFolder w) as [[]|t1].
    + destruct (t_child w) as [t | [|] [|] code out err | error out];
        destruct H as (_ & -> & _); set_unfold; split;
        try (intros _; split; [done |]; split; done);
        try (intros _; tauto).
      * intros Hin. by repeat destruct Hin as [Hin | Hin].
      * intros (_ & _ & Hno). by destruct (Hno t).
    + destruct H as (_ & -> & _). set_unfold. split.
      * by intros [? | ?].
      * by intros (_ & ? & _).
  - destruct H as (_ & -> & _). split; [by intros ?%elem_of_nil | by intros [? _]].
  - destruct H as (_ & -> & _). split; [by intros ?%elem_of_nil | by intros [? _]].
Qed.

Lemma executeTests_removes_its_folder_after_the_child_witness :
  exists id,
    fst (generateSandboxId Sample.host "node test.js" initial) = JS.Return id /\
    (Rm (uri_fsPath (joinPath (sandboxRoot Sample.host) id))
       ∈ Notions.added initial
           (snd (executeTests Sample.host Sample.killed_by_timer "node test.js"
                   no_options initial))
     <->
     isCommandAllowed Sample.host "node test.js" (allowedCommands no_options)
     = JS.Return true /\
     t_createFolder Sample.killed_by_timer = JS.Return tt /\
     forall t, t_child Sample.killed_by_timer <> SpawnThrows t).
Proof. apply executeTests_removes_its_folder_after_the_child. reflexivity. Defined.


(** ** Outside Node *)

(** X13.  Where [require] cannot be had, and no module has been loaded
    before, [executeInVM] and [executeTests] throw the error of
    [getNodeRequire] before anything is asked of the operating system: the
    identifier of the sandbox is computed outside their [try] blocks.
    [validateChanges] still returns: its TypeScript check is inside a [try]
    block, and is skipped. *)
Theorem sandbox_needs_node (h : Host) (st : State) :
  eval_require h = false ->
  _nodeRequire (modules st) = false ->
  _crypto (modules st) = false ->
  let error :=
    JS.Err (JS.newError
      (if isNodeOrElectron h
       then "Node.js require is not available. AgentSandbox requires Node.js integration to be enabled."
       else "AgentSandbox can only be used in Node.js/Electron contexts. require is not available.")) in
  (forall w code options, executeInVM h w code options st = (JS.Throw error, st)) /\
  (forall w command options, executeTests h w command options st = (JS.Throw error, st)) /\
  (forall w files options,
     validateChanges h w files options st
     = (JS.Return (mkValidation (List.length (flat_map file_errors files) =? 0)%nat
                                (flat_map file_errors files)), st)).
Proof.
  intros Hrequire Hcache Hcrypto error.
  assert (Hid : forall content, generateSandboxId h content st = (JS.Throw error, st)).
  { intros content. unfold generateSandboxId, getCrypto, getNodeRequire.
    unfold mbind, M_bind, bind, get_modules. rewrite Hcrypto, Hcache, Hrequire.
    unfold error. by destruct (isNodeOrElectron h). }
  assert (Hvm : forall w code options, executeInVM h w code options st = (JS.Throw error, st)).
  { intros w code options. unfold executeInVM. cbn zeta.
    unfold mbind at 1, M_bind at 1, bind at 1. by rewrite Hid. }
  split; [exact Hvm |]. split.
  - intros w command options. unfold executeTests. cbn zeta.
    unfold mbind at 1, M_bind at 1, bind at 1. by rewrite Hid.
  - intros w files options. unfold validateChanges. cbn zeta.
    destruct ((0 <? List.length (List.filter is_ts_file files))%nat
              && negb (skip_ts_check options)); [| done].
    unfold try_catch, mbind, M_bind, bind. by rewrite Hvm.
Qed.

Lemma sandbox_needs_node_witness :
  executeTests (mkHost false false Sample.RegExp ∅ "linux" (sandboxRoot Sample.host))
    Sample.killed_by_timer "npm test" no_options initial
  = (JS.Throw (JS.Err (JS.newError
       "AgentSandbox can only be used in Node.js/Electron contexts. require is not available.")),
     initial).
Proof.
  destruct (sandbox_needs_node
              (mkHost false false Sample.RegExp ∅ "linux" (sandboxRoot Sample.host))
              initial eq_refl eq_refl eq_refl) as (_ & Htests & _).
  exact (Htests Sample.killed_by_timer "npm test" no_options).
Defined.

(** ** The TypeScript check of [validateChanges] *)

(** X14.  Under Node, the errors of [validateChanges] are the messages of
    the dangerous patterns and, after them, one more message exactly when
    there is a file whose path ends in [.ts] or [.tsx], the variable
    [SKIP_TS_CHECK] of the options is not set to a non-empty string, and the
    run of the check in the sandbox fails; the message holds what
    [executeInVM] reports as stderr.  With no such file, or with the variable
    set, nothing is asked of the operating system. *)
Theorem validateChanges_typescript_check (h : Host) (w : VMWorld) (files : list File)
    (options : SandboxOptions) (st : State) :
  eval_require h = true ->
  let checked :=
    existsb is_ts_file files && negb (skip_ts_check options) in
  exists v st',
    validateChanges h w files options st = (JS.Return v, st') /\
    errors v =
      (flat_map file_errors files ++
       match Spec.vm_failure w 10000 with
       | Some error =>
           if checked then
             ["TypeScript validation failed: "
              +:+ JS.or_string (JS.stderr_of error)
                    (JS.or_string (JS.message_of error) (JS.String_of error))]
           else []
       | None => []
       end)%list /\
    (checked = false -> st' = st).
Proof.
  intros node checked.
  assert (Hsome : (0 <? List.length (List.filter is_ts_file files))%nat
                  = existsb is_ts_file files).
  { clear. induction files as [|file files IH]; [done |]. cbn.
    destruct (is_ts_file file); [done | by rewrite <- IH]. }
  unfold validateChanges. cbn zeta. rewrite Hsome. fold checked.
  destruct checked.
  - unfold try_catch, mbind, M_bind, bind.
    destruct (executeInVM_returns h w ts_check_script
                (mkOptions (Some 10000%Z) None None None None) st node)
      as (r & st1 & -> & Hr).
    cbn [timeout or_number Z.eqb] in Hr.
    destruct (Spec.vm_failure w 10000) as [error|].
    + subst r. cbn. eexists _, _. by repeat split.
    + destruct Hr as [-> _]. cbn. eexists _, _. split; [done |].
      split; [by rewrite app_nil_r | done].
  - unfold mbind, M_bind, bind. cbn. eexists _, _. split; [done |].
    split; [| done]. cbn. destruct (Spec.vm_failure w 10000); by rewrite app_nil_r.
Qed.

Lemma validateChanges_typescript_check_witness :
  exists v st',
    validateChanges Sample.host Sample.slow_script
      [mkFile (mkURI "/work/a.ts" "/work/a.ts" "file:///work/a.ts") "let x = 1"]
      no_options initial = (JS.Return v, st') /\
    errors v = ["TypeScript validation failed: Execution timeout after 10000ms"].
Proof.
  destruct (validateChanges_typescript_check Sample.host Sample.slow_script
              [mkFile (mkURI "/work/a.ts" "/work/a.ts" "file:///work/a.ts") "let x = 1"]
              no_options initial eq_refl) as (v & st' & E & Herrors & _).
  exists v, st'. split; [exact E |]. rewrite Herrors. reflexivity.
Defined.


(** ** Contents that [validateChanges] accepts *)

(** A pattern that begins with the characters of [word] matches only where
    [word] stands. *)
Lemma match_here_word (word : string) (p : Regex.Pattern) (s : string) :
  Forall (fun c => UTF8.is_ascii c = true) (list_ascii_of_string word) ->
  is_Some (Regex.match_here
             (((fun c => Regex.mkAtom (Regex.Lit c) Regex.One) <$> list_ascii_of_string word)
              ++ p)%list s) ->
  String.prefix word s = true.
Proof.
  intros Hword. revert s. induction word as [|c word IH]; intros s.
  - by destruct s.
  - cbn in Hword. apply Forall_cons in Hword as [Hc Hword].
    cbn [list_ascii_of_string fmap list_fmap app].
    destruct s as [|x s]; [by intros [? ?] |].
    rewrite match_here_lit by done.
    destruct (Ascii.eqb_spec x c) as [-> | Hne]; [| by intros [? ?]].
    intros [n Hn]. cbn. destruct (ascii_dec c c) as [_ | Hcc]; [| done].
    apply IH; [done |].
    match type of Hn with S <$> ?k = _ => destruct k; [by eexists | done] end.
Qed.

Lemma test_word (word : string) (p : Regex.Pattern) (s : string) :
  Forall (fun c => UTF8.is_ascii c = true) (list_ascii_of_string word) ->
  Regex.test
    (((fun c => Regex.mkAtom (Regex.Lit c) Regex.One) <$> list_ascii_of_string word)
     ++ p)%list s
  = true ->
  JS.includes s word = true.
Proof.
  intros Hword. destruct word as [|c word].
  { intros _. apply includes_prefix. by destruct s. }
  assert (Hp : forall b s', UTF8.is_ascii b = false ->
            Regex.match_here
              (((fun c => Regex.mkAtom (Regex.Lit c) Regex.One)
                  <$> list_ascii_of_string (String c word)) ++ p)%list (String b s')
            = None).
  { intros b s' Hb. cbn [list_ascii_of_string fmap list_fmap app].
    apply match_here_lit_other; [| done]. cbn in Hword. by apply Forall_cons in Hword as [? _]. }
  unfold Regex.test. induction s as [|x s IH].
  - rewrite exec_unfold. intros H. apply includes_prefix, (match_here_word _ p); [done |].
    destruct (Regex.match_here _ ""); [by eexists | done].
  - rewrite (exec_cons _ Hp). intros H.
    destruct (Regex.match_here _ (String x s)) eqn:E.
    + apply includes_prefix, (match_here_word _ p); [done |]. rewrite E. by eexists.
    + cbn [JS.includes]. rewrite (IH H). apply orb_true_r.
Qed.

(** Every dangerous pattern begins with one of the trigger words. *)
Lemma dangerous_patterns_begin_with_a_word (src : string) :
  src ∈ dangerousPatterns ->
  exists word p,
    word ∈ Notions.trigger_words /\
    Forall (fun c => UTF8.is_ascii c = true) (list_ascii_of_string word) /\
    Regex.literal src =
    (((fun c => Regex.mkAtom (Regex.Lit c) Regex.One) <$> list_ascii_of_string word) ++ p)%list.
Proof.
  unfold dangerousPatterns, Notions.trigger_words. intros Hin.
  repeat (apply elem_of_cons in Hin as [-> | Hin]);
    [ exists "eval" | exists "Function" | exists "require" | exists "require"
    | exists "process.exit" | exists "rm" | exists "rm" | by apply elem_of_nil in Hin ];
    (eexists; split; [set_solver | split; [by repeat constructor | reflexivity]]).
Qed.

(** X15.  A content that holds none of the words [eval], [Function],
    [require], [process.exit] and [rm] matches no dangerous pattern: the file
    contributes no error. *)
Theorem file_without_trigger_words_is_accepted (file : File) :
  (forall word, word ∈ Notions.trigger_words -> JS.includes (content file) word = false) ->
  file_errors file = [].
Proof.
  intros Hclean. rewrite file_errors_filter.
  assert (H : forall l : list string,
            (forall src, src ∈ l -> src ∈ dangerousPatterns) ->
            List.filter (fun src => Regex.test (Regex.literal src) (content file)) l = []).
  { induction l as [|src l IH]; intros Hl; [done |]. cbn.
    destruct (Regex.test (Regex.literal src) (content file)) eqn:Htest.
    - destruct (dangerous_patterns_begin_with_a_word src)
        as (word & p & Hword & Hascii & Hp).
      { apply Hl, list_elem_of_here. }
      rewrite Hp in Htest. apply test_word in Htest; [| done].
      by rewrite Hclean in Htest.
    - apply IH. intros src' Hsrc'. by apply Hl, list_elem_of_further. }
  by rewrite H.
Qed.

Lemma file_without_trigger_words_is_accepted_witness :
  file_errors (mkFile Sample.workspace "export const total = (a, b) => a + b;") = [].
Proof.
  apply file_without_trigger_words_is_accepted. intros word Hword.
  unfold Notions.trigger_words in Hword.
  repeat (apply elem_of_cons in Hword as [-> | Hword]); try reflexivity.
  by apply elem_of_nil in Hword.
Defined.


(** * Further properties of the agent service *)

(** ** The text that [planTask] parses *)

Lemma free_of_no_occurrence (q : ascii) (s b c : string) :
  Notions.free_of q s -> s <> b +:+ String q c.
Proof.
  unfold Notions.free_of. intros H ->. rewrite chars_append in H.
  apply Forall_app in H as [_ H]. cbn in H. by apply Forall_cons in H as [? _].
Qed.

(** After the opening bracket the match runs to the last closing bracket. *)
Lemma star_to_last_closing_bracket (b c : string) :
  Notions.free_of "]" c ->
  Regex.star
    (Regex.Union Regex.Space (Regex.Union (Regex.Neg Regex.Space) Regex.Nothing))
    (Regex.match_here [Regex.mkAtom (Regex.Lit "]") Regex.One]) (b +:+ "]" +:+ c)
  = Some (S (String.length b)).
Proof.
  intros Hc.
  set (m := Regex.Union Regex.Space (Regex.Union (Regex.Neg Regex.Space) Regex.Nothing)).
  set (k := Regex.match_here [Regex.mkAtom (Regex.Lit "]") Regex.One]).
  assert (Hnone : Regex.star m k c = None).
  { destruct (Regex.star m k c) eqn:E; [| done]. exfalso.
    destruct (proj1 (star_to_closing_bracket c)) as (b' & c' & Hbc); [by eexists |].
    by apply (free_of_no_occurrence "]" c b' c'). }
  induction b as [|x b IH].
  - rewrite append_nil, append_cons, append_nil.
    unfold m at 1. rewrite (star_any_cons k closing_bracket_ascii). fold m.
    rewrite Hnone. unfold k. by rewrite match_here_lit.
  - rewrite append_cons. cbn [String.length].
    unfold m at 1. rewrite (star_any_cons k closing_bracket_ascii). fold m.
    by rewrite IH.
Qed.

Lemma substring_0_append (a b : string) :
  String.substring 0 (String.length a) (a +:+ b) = a.
Proof.
  induction a as [|x a IH]; [by destruct b |].
  rewrite append_cons. cbn. by rewrite IH.
Qed.

Lemma jsonMatch_span (a b c : string) :
  Notions.free_of "[" a -> Notions.free_of "]" c ->
  jsonMatch (a +:+ "[" +:+ b +:+ "]" +:+ c) = Some ("[" +:+ b +:+ "]").
Proof.
  intros Ha Hc. unfold jsonMatch. induction a as [|x a IH].
  - rewrite append_nil, append_cons, append_nil.
    assert (Hhere : Regex.match_here (Regex.literal json_array_pattern)
                      (String "[" (b +:+ "]" +:+ c))
                    = Some (S (S (String.length b)))).
    { rewrite match_here_json_array. cbn [Ascii.eqb Bool.eqb].
      by rewrite star_to_last_closing_bracket. }
    rewrite exec_unfold, Hhere. f_equal.
    replace (String "[" (b +:+ "]" +:+ c)) with (("[" +:+ b +:+ "]") +:+ c)
      by by rewrite !append_cons, !append_nil, append_assoc.
    replace (S (S (String.length b))) with (String.length ("[" +:+ b +:+ "]")).
    + apply substring_0_append.
    + rewrite append_cons, append_nil. cbn. f_equal. clear.
      induction b as [|y b IH]; [done |]. rewrite append_cons. cbn. by rewrite IH.
  - unfold Notions.free_of in Ha. cbn in Ha. apply Forall_cons in Ha as [Hx Ha].
    rewrite append_cons, (exec_cons _ json_array_ascii), match_here_json_array.
    destruct (Ascii.eqb_spec x "[") as [-> | _]; [done |]. by apply IH.
Qed.

(** X16.  When a model is configured and answers, [planTask] gives to
    [JSON.parse] the text from the first opening bracket of the answer to
    its last closing bracket, and nothing else of the answer; the plan is
    what [JSON.parse] returns, and what [JSON.parse] throws is thrown to the
    caller. *)
Theorem planTask_parses_the_bracketed_span (c : Collaborators) (description : string)
    (context : URI) (model : string) (response : CompletionResponse)
    (before inside after : string) :
  getActiveModel c = Some model -> model <> "" ->
  requestCompletion c (mkRequest context "" 0 model (plan_prompt description context))
  = JS.Return response ->
  text response = before +:+ "[" +:+ inside +:+ "]" +:+ after ->
  Notions.free_of "[" before -> Notions.free_of "]" after ->
  planTask c description context =
  match JSON_parse c ("[" +:+ inside +:+ "]") with
  | JS.Return steps => JS.Return (mkPlan steps)
  | JS.Throw error => JS.Throw error
  end.
Proof.
  intros Hmodel Hne Hresponse Htext Hbefore Hafter. unfold planTask.
  rewrite Hmodel, (proj2 (truthy_string_ne model)) by done. cbn [negb].
  by rewrite Hresponse, Htext, jsonMatch_span.
Qed.

Lemma planTask_parses_the_bracketed_span_witness :
  planTask Scenario.idle_model "tidy the imports" Sample.workspace
  = JS.Return (mkPlan []).
Proof.
  rewrite (planTask_parses_the_bracketed_span Scenario.idle_model
             "tidy the imports" Sample.workspace "local-model"
             (mkResponse "Nothing to do: [] (no steps)." "local-model")
             "Nothing to do: " "" " (no steps).").
  - reflexivity.
  - reflexivity.
  - discriminate.
  - reflexivity.
  - reflexivity.
  - unfold Notions.free_of. cbn. repeat constructor; discriminate.
  - unfold Notions.free_of. cbn. repeat constructor; discriminate.
Defined.


(** ** Reachable states *)

Import Order.

Lemma reachable_ind (P : Service -> Prop) :
  P Agent.empty ->
  (forall s op, reaches Agent.empty s -> P s -> fresh op s -> P (apply op s)) ->
  forall s, reaches Agent.empty s -> P s.
Proof.
  intros Hempty Hstep. unfold reaches. apply rtc_ind_r; [done |].
  intros s1 s2 Hs1 (op & Hfresh & ->) IH. by apply Hstep.
Qed.

Section Runs.

Implicit Types (s : Service) (t : AgentTask.t) (run : Run) (r i j : nat) (k : string).

(** [settle] in a run that awaits nothing, or in no run, does nothing. *)
Lemma settle_cases r c s :
  settle r c s = s \/
  exists run i step,
    runs s !! r = Some run /\ phase run = Awaiting i /\
    AgentTask.steps (run_task run) !! i = Some step.
Proof.
  destruct (runs s !! r) as [run|] eqn:Hrun;
    [| left; by rewrite settle_idle by (intros ? ? ?; congruence)].
  destruct (phase run) as [i| |] eqn:Hphase;
    [| left; by rewrite settle_idle by (intros ? ? ?; congruence)..].
  destruct (AgentTask.steps (run_task run) !! i) as [step|] eqn:Hstep;
    [| left; by rewrite settle_idle by (intros ? ? ?; congruence)].
  right. by exists run, i, step.
Qed.

Lemma cancelTask_runs k s :
  runs (cancelTask k s) =
  match _taskCancellations s !! k with
  | Some r => alter cancelled r (runs s)
  | None => runs s
  end.
Proof.
  unfold cancelTask. destruct (_taskCancellations s !! k) as [r|]; [| done].
  cbn [runs]. by rewrite runs_updateTask.
Qed.

Lemma cancelTask_cancellations k s :
  _taskCancellations (cancelTask k s) = delete k (_taskCancellations s).
Proof.
  unfold cancelTask. destruct (_taskCancellations s !! k) as [r|] eqn:E.
  - cbn [_taskCancellations]. by rewrite cancellations_updateTask.
  - by rewrite delete_id.
Qed.

(** A change of a run that keeps its task and what it captured, and does
    not take back a cancellation. *)
Lemma kept_id run :
  run_task (id run) = run_task run /\
  run_context (id run) = run_context run /\
  run_options (id run) = run_options run /\
  (isCancellationRequested run = true -> isCancellationRequested (id run) = true).
Proof. done. Qed.

(** An operation other than [executeTask] keeps the runs, their tasks and
    what they captured; it may set a phase and request a cancellation. *)
Lemma apply_run_kept (op : Op) s r :
  (forall plan context options taskId stepUuid,
     op <> ExecuteTask plan context options taskId stepUuid) ->
  exists f : Run -> Run,
    runs (apply op s) !! r = (f <$> runs s !! r) /\
    forall run,
      run_task (f run) = run_task run /\
      run_context (f run) = run_context run /\
      run_options (f run) = run_options run /\
      (isCancellationRequested run = true -> isCancellationRequested (f run) = true).
Proof.
  intros Hop.
  assert (Hsame : forall l : list Run,
            exists f : Run -> Run,
              l !! r = (f <$> l !! r) /\
              forall run,
                run_task (f run) = run_task run /\
                run_context (f run) = run_context run /\
                run_options (f run) = run_options run /\
                (isCancellationRequested run = true ->
                 isCancellationRequested (f run) = true)).
  { intros l. exists id. split; [by destruct (l !! r) | apply kept_id]. }
  assert (Halter : forall (f : Run -> Run) r0,
            (forall run,
               run_task (f run) = run_task run /\
               run_context (f run) = run_context run /\
               run_options (f run) = run_options run /\
               (isCancellationRequested run = true ->
                isCancellationRequested (f run) = true)) ->
            exists g : Run -> Run,
              alter f r0 (runs s) !! r = (g <$> runs s !! r) /\
              forall run,
                run_task (g run) = run_task run /\
                run_context (g run) = run_context run /\
                run_options (g run) = run_options run /\
                (isCancellationRequested run = true ->
                 isCancellationRequested (g run) = true)).
  { intros f r0 Hf. destruct (decide (r0 = r)) as [-> | Hne].
    - exists f. by rewrite list_lookup_alter_eq.
    - rewrite list_lookup_alter_ne by done. apply Hsame. }
  destruct op as [plan context options taskId stepUuid | k | r0 | r0 c | r0]; cbn [apply].
  - by destruct (Hop plan context options taskId stepUuid).
  - rewrite cancelTask_runs. destruct (_taskCancellations s !! k) as [r0|]; [| apply Hsame].
    apply Halter. by intros [a b c d e].
  - cbn [cancel runs]. apply Halter. by intros [a b c d e].
  - destruct (settle_cases r0 c s) as [-> | (run0 & i & step & Hrun0 & Hphase & Hstep)];
      [apply Hsame |].
    rewrite (settle_runs r0 c s run0 i step Hrun0 Hphase Hstep).
    apply Halter. by intros [a b c0 d e].
  - destruct (notify_runs r0 s) as [-> | (run0 & Hrun0 & Hphase & ->)]; [apply Hsame |].
    apply Halter. by intros [a b c0 d e].
Qed.

(** An operation other than [executeTask] adds no task, and keeps the
    identifier of every task. *)
Lemma apply_task_kept (op : Op) s k t' :
  (forall plan context options taskId stepUuid,
     op <> ExecuteTask plan context options taskId stepUuid) ->
  _tasks (apply op s) !! k = Some t' ->
  exists t, _tasks s !! k = Some t /\ AgentTask.id t' = AgentTask.id t.
Proof.
  intros Hop.
  destruct op as [plan context options taskId stepUuid | k0 | r0 | r0 c | r0]; cbn [apply].
  - by destruct (Hop plan context options taskId stepUuid).
  - rewrite cancelTask_tasks. destruct (_tasks s !! k) as [t|]; [| by case_decide].
    case_decide; intros [= <-]; by exists t.
  - intros Ht'. by exists t'.
  - destruct (settle_cases r0 c s) as [-> | (run0 & i & step & Hrun0 & Hphase & Hstep)];
      [intros Ht'; by exists t' |].
    rewrite (settle_tasks r0 c s run0 i step k Hrun0 Hphase Hstep).
    destruct (_tasks s !! k) as [t|]; [| by case_decide].
    case_decide; intros [= <-]; exists t; (split; [done |]); [| done].
    by destruct (evolves_settle_task run0 c i step t) as (? & _).
  - rewrite notify_tasks. intros Ht'. by exists t'.
Qed.

End Runs.


(** ** The side table and the runs *)

Section Tabled.

Implicit Types (s : Service) (t : AgentTask.t) (run : Run) (r i j : nat) (k : string).

Lemma tabled_empty : tabled Agent.empty.
Proof. split; intros *; cbn; by rewrite ?lookup_empty, ?lookup_nil. Qed.

Lemma tabled_executeTask plan context options taskId stepUuid s :
  _tasks s !! taskId = None ->
  coherent s -> tabled s ->
  tabled (snd (executeTask plan context options taskId stepUuid s)).
Proof.
  intros Hfresh Hs Htabled.
  assert (Hold : forall r0 run0, runs s !! r0 = Some run0 ->
                                 AgentTask.id (run_task run0) <> taskId).
  { intros r0 run0 Hrun0 Hid.
    destruct (run_has_task s Hs r0 run0 Hrun0) as (t & Ht & _). congruence. }
  split.
  - intros k r0. rewrite executeTask_cancellations, executeTask_runs.
    destruct (decide (k = taskId)) as [-> | Hk].
    + rewrite lookup_insert_eq. intros [= <-].
      eexists. split; [by apply list_lookup_middle | done].
    + rewrite lookup_insert_ne by done. intros Hentry.
      destruct (entry_names_run s Htabled k r0 Hentry) as (run & Hrun & Hid).
      exists run. split; [| done]. rewrite lookup_app_l; [done |].
      by eapply lookup_lt_Some.
  - intros r0 run' Hrun'. rewrite executeTask_cancellations.
    apply executeTask_run in Hrun' as [Hrun0 | [-> ->]].
    + rewrite lookup_insert_ne by (intros ?; by eapply Hold).
      by apply (run_has_entry s Htabled).
    + left. cbn. by rewrite lookup_insert_eq.
  - intros k t'. rewrite executeTask_tasks, executeTask_runs. case_decide as Hk.
    + subst k. intros [= <-]. split.
      * by destruct (evolves_enter_task
                       (mkRun false
                          (new_task plan (default 10%Z (maxSteps options)) taskId stepUuid)
                          context
                          (mkLoopOptions (default true (retryOnFailure options))
                                         (default true (stopOnError options))
                                         (default false (dryRun options)))
                          (Awaiting 0)) 0
                       (new_task plan (default 10%Z (maxSteps options)) taskId stepUuid))
          as (-> & _).
      * eexists _, _. split; [by apply list_lookup_middle | done].
    + intros Ht'. destruct (task_has_run s Htabled k t' Ht') as (Hid & r0 & run & Hrun & Hk').
      split; [done |]. exists r0, run. split; [| done].
      rewrite lookup_app_l; [done |]. by eapply lookup_lt_Some.
Qed.

Lemma tabled_apply (op : Op) s :
  fresh op s -> coherent s -> tabled s -> tabled (apply op s).
Proof.
  intros Hfresh Hs Htabled.
  assert (Hcase : (exists plan context options taskId stepUuid,
                     op = ExecuteTask plan context options taskId stepUuid) \/
                  (forall plan context options taskId stepUuid,
                     op <> ExecuteTask plan context options taskId stepUuid)).
  { destruct op; [left; by eexists _, _, _, _, _ | right; by intros ..]. }
  destruct Hcase as [(plan & context & options & taskId & stepUuid & ->) | Hop'].
  { destruct Hfresh as [Hfresh _]. by apply tabled_executeTask. }
  assert (Hruns : forall r run, runs s !! r = Some run ->
            exists run', runs (apply op s) !! r = Some run' /\
                         run_task run' = run_task run /\
                         (isCancellationRequested run = true ->
                          isCancellationRequested run' = true)).
  { intros r run Hrun. destruct (apply_run_kept op s r Hop') as (f & -> & Hf).
    rewrite Hrun. exists (f run). split; [done |]. by destruct (Hf run) as (? & _ & _ & ?). }
  assert (Hruns' : forall r run', runs (apply op s) !! r = Some run' ->
            exists run, runs s !! r = Some run /\
                        run_task run' = run_task run /\
                        (isCancellationRequested run = true ->
                         isCancellationRequested run' = true)).
  { intros r run'. destruct (apply_run_kept op s r Hop') as (f & -> & Hf).
    destruct (runs s !! r) as [run|]; [| done]. intros [= <-].
    exists run. split; [done |]. by destruct (Hf run) as (? & _ & _ & ?). }
  assert (Htable : _taskCancellations (apply op s) = _taskCancellations s \/
                   exists k r, op = CancelTask k /\ _taskCancellations s !! k = Some r).
  { destruct op as [plan context options taskId stepUuid | k | r0 | r0 c | r0]; cbn [apply].
    - by destruct (Hop' plan context options taskId stepUuid).
    - destruct (_taskCancellations s !! k) as [r|] eqn:E.
      + right. by exists k, r.
      + left. unfold cancelTask. by rewrite E.
    - by left.
    - left. apply settle_cancellations.
    - left. apply notify_cancellations. }
  split.
  - intros k r Hentry.
    assert (Hold : _taskCancellations s !! k = Some r).
    { destruct Htable as [<- | (k0 & r0 & -> & _)]; [done |].
      cbn [apply] in Hentry. rewrite cancelTask_cancellations in Hentry.
      by apply lookup_delete_Some in Hentry as [_ ?]. }
    destruct (entry_names_run s Htabled k r Hold) as (run & Hrun & Hid).
    destruct (Hruns r run Hrun) as (run' & Hrun' & Htask & _).
    exists run'. split; [done | congruence].
  - intros r run' Hrun'. destruct (Hruns' r run' Hrun') as (run & Hrun & Htask & Hcancel).
    rewrite Htask.
    destruct (run_has_entry s Htabled r run Hrun) as [Hentry | Hc]; [| right; by apply Hcancel].
    destruct Htable as [-> | (k0 & r0 & -> & Hk0)]; [by left |].
    cbn [apply] in *. rewrite cancelTask_cancellations.
    destruct (decide (k0 = AgentTask.id (run_task run))) as [-> | Hne].
    + right. assert (r0 = r) as -> by congruence.
      rewrite cancelTask_runs, Hk0, list_lookup_alter_eq, Hrun in Hrun'.
      by injection Hrun' as <-.
    + left. by rewrite lookup_delete_ne.
  - intros k t' Ht'. destruct (apply_task_kept op s k t' Hop' Ht') as (t & Ht & Hid).
    destruct (task_has_run s Htabled k t Ht) as (Hk & r & run & Hrun & Hrk).
    split; [congruence |].
    destruct (Hruns r run Hrun) as (run' & Hrun' & Htask & _).
    exists r, run'. split; [done | congruence].
Qed.

Lemma reachable_tabled s : reaches Agent.empty s -> tabled s.
Proof.
  revert s. apply reachable_ind; [apply tabled_empty |].
  intros s op Hs Htabled Hfresh. apply tabled_apply; [done | | done].
  by apply reachable_coherent.
Qed.

End Tabled.


(** ** What one operation does to each run and its task *)

Lemma apply_moves (op : Op) (s : Service) :
  fresh op s -> coherent s -> tabled s ->
  forall r run' t',
    runs (apply op s) !! r = Some run' ->
    _tasks (apply op s) !! AgentTask.id (run_task run') = Some t' ->
    (exists run t,
       runs s !! r = Some run /\
       _tasks s !! AgentTask.id (run_task run) = Some t /\
       move run t run' t')
    \/
    (runs s !! r = None /\
     exists plan context options taskId stepUuid,
       op = ExecuteTask plan context options taskId stepUuid /\
       created plan context options taskId stepUuid run' t').
Proof.
  intros Hfresh Hs Htabled r run' t'.
  destruct op as [plan context options taskId stepUuid | k | r0 | r0 c | r0]; cbn [apply].
  - destruct Hfresh as [Hfresh _].
    intros [Hrun | [-> ->]]%executeTask_run.
    + rewrite executeTask_tasks, decide_False.
      * intros Ht'. left. exists run', t'. repeat split; try done. constructor.
      * intros Hid. destruct (run_has_task s Hs r run' Hrun) as (t & Ht & _). congruence.
    + cbn [run_task with_phase]. rewrite executeTask_tasks, decide_True by done.
      intros [= <-]. right. split; [by apply lookup_ge_None_2 |].
      by eexists _, _, _, _, _.
  - rewrite cancelTask_runs, cancelTask_tasks.
    destruct (_taskCancellations s !! k) as [r1|] eqn:Hentry.
    + destruct (entry_names_run s Htabled k r1 Hentry) as (run1 & Hrun1 & Hid1).
      intros (run & Hrun & [[-> ->] | [Hne ->]])%lookup_alter_run.
      * assert (run1 = run) as -> by congruence. cbn [run_task cancelled].
        rewrite decide_True by (split; [done | by eexists]).
        destruct (_tasks s !! AgentTask.id (run_task run)) as [t|] eqn:Ht; [| done].
        intros [= <-]. left. exists run, t. repeat split; try done. constructor.
      * rewrite decide_False.
        -- intros Ht'. left. exists run, t'. repeat split; try done. constructor.
        -- intros [Hid _]. apply Hne.
           apply (run_tasks_distinct s Hs r r1 run run1 Hrun Hrun1). congruence.
    + rewrite decide_False by (intros [_ [? ?]]; done).
      intros Hrun Ht'. left. exists run', t'. repeat split; try done. constructor.
  - cbn [cancel runs _tasks].
    intros (run & Hrun & [[-> ->] | [Hne ->]])%lookup_alter_run Ht';
      left; exists run, t'; repeat split; try done; constructor.
  - destruct (settle_cases r0 c s) as [-> | (run0 & i & step & Hrun0 & Hphase & Hstep)].
    { intros Hrun Ht'. left. exists run', t'. repeat split; try done. constructor. }
    rewrite (settle_runs r0 c s run0 i step Hrun0 Hphase Hstep).
    intros (run & Hrun & [[-> ->] | [Hne ->]])%lookup_alter_run.
    + assert (run0 = run) as -> by congruence. cbn [run_task with_phase].
      rewrite (settle_tasks r0 c s run i step _ Hrun Hphase Hstep), decide_True by done.
      destruct (_tasks s !! AgentTask.id (run_task run)) as [t|] eqn:Ht; [| done].
      intros [= <-]. left. exists run, t. repeat split; try done. by constructor.
    + rewrite (settle_tasks r0 c s run0 i step _ Hrun0 Hphase Hstep), decide_False.
      * intros Ht'. left. exists run, t'. repeat split; try done. constructor.
      * intros Hid. apply Hne.
        by apply (run_tasks_distinct s Hs r r0 run run0 Hrun Hrun0).
  - rewrite notify_tasks.
    destruct (notify_runs r0 s) as [-> | (run0 & Hrun0 & Hphase & ->)].
    { intros Hrun Ht'. left. exists run', t'. repeat split; try done. constructor. }
    intros (run & Hrun & [[-> ->] | [Hne ->]])%lookup_alter_run Ht'.
    + assert (run0 = run) as -> by congruence.
      left. exists run, t'. repeat split; try done. by constructor.
    + left. exists run, t'. repeat split; try done. constructor.
Qed.

(** A property of a run and its task that [executeTask] establishes and
    that every move keeps, in a state that satisfies the invariant, holds in
    every reachable state. *)
Lemma reachable_pairs (P : Run -> AgentTask.t -> Prop) :
  (forall plan context options taskId stepUuid run t,
     (forall i j : nat, stepUuid i = stepUuid j -> i = j) ->
     created plan context options taskId stepUuid run t -> P run t) ->
  (forall s r run t run' t',
     coherent s -> runs s !! r = Some run ->
     _tasks s !! AgentTask.id (run_task run) = Some t ->
     P run t -> move run t run' t' -> P run' t') ->
  forall s, reaches Agent.empty s ->
    forall r run t,
      runs s !! r = Some run -> _tasks s !! AgentTask.id (run_task run) = Some t ->
      P run t.
Proof.
  intros Hcreated Hmove. apply (reachable_ind (fun s => forall r run t, _ -> _ -> P run t)).
  - intros r run t Hrun. cbn in Hrun. by rewrite lookup_nil in Hrun.
  - intros s op Hreach IH Hfresh r run' t' Hrun' Ht'.
    pose proof (reachable_coherent s Hreach) as Hs.
    pose proof (reachable_tabled s Hreach) as Htabled.
    destruct (apply_moves op s Hfresh Hs Htabled r run' t' Hrun' Ht')
      as [(run & t & Hrun & Ht & Hm) |
          (_ & plan & context & options & taskId & stepUuid & -> & Hc)].
    + apply (Hmove s r run t run' t'); try done. by apply (IH r).
    + destruct Hfresh as [_ Hinj]. by apply (Hcreated _ _ _ _ _ _ _ Hinj Hc).
Qed.


(** ** Status and phase *)

Section StatusAndPhase.

Implicit Types (s : Service) (t : AgentTask.t) (run : Run) (r i j : nat) (k : string).

Lemma step_update_status stepId updates t :
  AgentTask.status (step_update stepId updates t) = AgentTask.status t.
Proof. unfold step_update. by destruct (findIndex stepId (AgentTask.steps t)). Qed.

(** Entering an iteration either stops the loop with a terminal status, or
    suspends it and leaves the status as it is. *)
Lemma enter_task_status run i t :
  (enter_phase run i = Resolved /\
   is_terminal (AgentTask.status (enter_task run i t)) = true) \/
  (enter_phase run i = Awaiting i /\
   AgentTask.status (enter_task run i t) = AgentTask.status t).
Proof.
  unfold enter_phase, enter_task.
  destruct (AgentTask.steps (run_task run) !! i) as [step|]; [| by left].
  destruct (isCancellationRequested run); [by left |].
  right. split; [done |]. cbn. apply step_update_status.
Qed.

Lemma settle_task_status run c i step t :
  (settle_phase run c i step = Resolved /\
   is_terminal (AgentTask.status (settle_task run c i step t)) = true) \/
  (settle_phase run c i step = Awaiting (S i) /\
   AgentTask.status (settle_task run c i step t) = AgentTask.status t).
Proof.
  unfold settle_phase, settle_task.
  destruct (executeStep c step (run_context run) (run_options run)) as [result|error].
  - destruct (enter_task_status run (S i)
                (step_update (AgentStep.id step)
                   (mkStepUpdates (Some AgentStepStatus.Completed) (Some result) None) t))
      as [? | [? ->]]; [by left |].
    right. by rewrite step_update_status.
  - destruct (loop_stopOnError (run_options run)); [by left |].
    destruct (enter_task_status run (S i)
                (step_update (AgentStep.id step)
                   (mkStepUpdates (Some AgentStepStatus.Failed) None
                                  (Some (JS.error_text error))) t))
      as [? | [? ->]]; [by left |].
    right. by rewrite step_update_status.
Qed.

(** In every reachable state the task of a run is stored under its
    identifier, is not pending, and is running only while its loop is
    suspended at one of its steps. *)
Lemma reachable_status s :
  reaches Agent.empty s ->
  forall r run t,
    runs s !! r = Some run -> _tasks s !! AgentTask.id (run_task run) = Some t ->
    AgentTask.status t <> AgentTaskStatus.Pending /\
    (AgentTask.status t = AgentTaskStatus.Running -> exists i, phase run = Awaiting i) /\
    (forall i, phase run = Awaiting i ->
       AgentTask.status t = AgentTaskStatus.Running \/
       AgentTask.status t = AgentTaskStatus.Cancelled).
Proof.
  revert s. apply reachable_pairs.
  - intros plan context options taskId stepUuid run t _ [-> ->].
    match goal with |- context [enter_task ?run0 0 ?task] =>
      destruct (enter_task_status run0 0 task) as [[Hp Ht] | [Hp Ht]] end.
    + cbn [phase with_phase]. rewrite Hp.
      destruct (AgentTask.status (enter_task _ _ _)); done.
    + cbn [phase with_phase]. rewrite Hp, Ht.
      split; [done |]. split; [by eexists | by left].
  - intros s r run t run' t' _ _ _ (Hpending & Hrunning & Hawaiting) Hmove.
    destruct Hmove as [run t | run t | run t | run t i step c Hphase Hstep | run t Hphase].
    + done.
    + done.
    + split; [done |]. split; [done |]. by right.
    + destruct (settle_task_status run c i step t) as [[Hp Ht] | [Hp Ht]].
      * cbn [phase with_phase]. rewrite Hp.
        destruct (AgentTask.status (settle_task _ _ _ _ _)); done.
      * cbn [phase with_phase]. rewrite Hp, Ht.
        split; [done |]. split; [by eexists |]. intros _ _. by apply (Hawaiting i).
    + split; [done |]. split; [| done].
      intros Hstatus. destruct (Hrunning Hstatus) as [i Hi]. congruence.
Qed.

End StatusAndPhase.

Lemma elem_of_values (s : Service) (t : AgentTask.t) :
  t ∈ AgentService.values s <->
  exists r run, runs s !! r = Some run /\
                _tasks s !! AgentTask.id (run_task run) = Some t.
Proof.
  unfold AgentService.values. rewrite list_elem_of_omap. split.
  - intros (run & [r Hr]%list_elem_of_lookup & Ht). by exists r, run.
  - intros (r & run & Hr & Ht). exists run. split; [| done].
    apply list_elem_of_lookup. by exists r.
Qed.

(** X19.  In every reachable state [getActiveTasks] returns the tasks of the
    table that are running, and only tasks of the table: no task is ever
    pending.  A task that is running has a loop that is suspended at one of
    its steps, so that no task stays running after its loop has returned. *)
Theorem getActiveTasks_are_the_running_tasks (s : Service) :
  reaches Agent.empty s ->
  (forall taskId t, AgentService.getTask taskId s = Some t ->
     AgentTask.status t <> AgentTaskStatus.Pending) /\
  (forall t,
     t ∈ AgentService.getActiveTasks s <->
     AgentService.getTask (AgentTask.id t) s = Some t /\
     AgentTask.status t = AgentTaskStatus.Running) /\
  (forall t,
     t ∈ AgentService.getActiveTasks s ->
     exists r run i,
       runs s !! r = Some run /\ AgentTask.id (run_task run) = AgentTask.id t /\
       phase run = Awaiting i).
Proof.
  intros Hreach.
  pose proof (reachable_tabled s Hreach) as Htabled.
  pose proof (reachable_status s Hreach) as Hstatus.
  assert (Hpending : forall taskId t, AgentService.getTask taskId s = Some t ->
                       AgentTask.status t <> AgentTaskStatus.Pending).
  { intros k t Ht. unfold AgentService.getTask in Ht.
    destruct (task_has_run s Htabled k t Ht) as (_ & r & run & Hrun & <-).
    by destruct (Hstatus r run t Hrun Ht) as (? & _). }
  assert (Hactive : forall t,
            t ∈ AgentService.getActiveTasks s <->
            AgentService.getTask (AgentTask.id t) s = Some t /\
            AgentTask.status t = AgentTaskStatus.Running).
  { intros t. unfold AgentService.getActiveTasks.
    rewrite list_elem_of_In, filter_In, <- list_elem_of_In, elem_of_values.
    unfold AgentService.is_active, AgentService.getTask. split.
    - intros [(r & run & Hrun & Ht) Hb].
      destruct (task_has_run s Htabled _ t Ht) as (Hid & _). rewrite Hid. split; [done |].
      apply orb_true_iff in Hb as [Hb | Hb]; apply bool_decide_eq_true in Hb; [done |].
      by destruct (Hstatus r run t Hrun Ht) as (? & _).
    - intros [Ht Hrunning].
      destruct (task_has_run s Htabled _ t Ht) as (_ & r & run & Hrun & Hid).
      split.
      + exists r, run. by rewrite Hid.
      + by rewrite Hrunning. }
  split; [done |]. split; [done |].
  intros t [Ht Hrunning]%Hactive. unfold AgentService.getTask in Ht.
  destruct (task_has_run s Htabled _ t Ht) as (_ & r & run & Hrun & Hid).
  rewrite <- Hid in Ht. destruct (Hstatus r run t Hrun Ht) as (_ & Hawaits & _).
  destruct (Hawaits Hrunning) as [i Hi]. by exists r, run, i.
Qed.

Lemma getActiveTasks_are_the_running_tasks_witness :
  AgentService.getActiveTasks
    (settle 0 Sample.prose_model (Sample.started_three Sample.default_options)) <> [] /\
  forall t,
    t ∈ AgentService.getActiveTasks
          (settle 0 Sample.prose_model (Sample.started_three Sample.default_options)) ->
    exists r run i,
      runs (settle 0 Sample.prose_model (Sample.started_three Sample.default_options)) !! r
      = Some run /\
      AgentTask.id (run_task run) = AgentTask.id t /\ phase run = Awaiting i.
Proof.
  split; [by vm_compute |].
  apply (getActiveTasks_are_the_running_tasks _ first_step_done_reachable).
Defined.


(** ** The order of the steps *)

Section StepOrder.

Implicit Types (s : Service) (t : AgentTask.t) (run : Run) (r i j k n : nat).

(** The step that an iteration begins with, and the current step. *)
Lemma enter_task_at run k step t :
  step_ids t = step_ids (run_task run) ->
  NoDup (step_ids (run_task run)) ->
  AgentTask.steps (run_task run) !! k = Some step ->
  isCancellationRequested run = false ->
  AgentTask.steps (enter_task run k t) !! k =
    ((fun old => spread_step old (mkStepUpdates (Some AgentStepStatus.Running) None None))
       <$> AgentTask.steps t !! k) /\
  AgentTask.currentStep (enter_task run k t) = Some k.
Proof.
  intros Hids Hnodup Hstep Hlive. unfold enter_task. rewrite Hstep, Hlive.
  cbn [spread_task AgentTask.steps AgentTask.currentStep at_step u_steps u_currentStep
       default].
  split; [| done]. rewrite (step_update_steps run k) by done. apply list_lookup_alter_eq.
Qed.

Lemma settle_task_next run c i step t :
  step_ids t = step_ids (run_task run) ->
  NoDup (step_ids (run_task run)) ->
  settle_phase run c i step = Awaiting (S i) ->
  (forall next, AgentTask.steps (settle_task run c i step t) !! S i = Some next ->
     AgentStep.status next = AgentStepStatus.Running) /\
  AgentTask.currentStep (settle_task run c i step t) = Some (S i).
Proof.
  intros Hids Hnodup Hphase.
  destruct (settle_phase_awaiting run c i step (S i) Hphase) as (_ & Hlt & Hlive).
  destruct (lookup_lt_is_Some_2 _ _ Hlt) as [next Hnext].
  assert (Hthen : forall updates,
            (forall next0,
               AgentTask.steps
                 (enter_task run (S i) (step_update (AgentStep.id step) updates t)) !! S i
               = Some next0 -> AgentStep.status next0 = AgentStepStatus.Running) /\
            AgentTask.currentStep
              (enter_task run (S i) (step_update (AgentStep.id step) updates t))
            = Some (S i)).
  { intros updates.
    destruct (enter_task_at run (S i) next
                (step_update (AgentStep.id step) updates t)) as [Hat Hcurrent]; try done.
    { by rewrite (step_ids_evolves _ _ (evolves_step_update _ _ _)). }
    split; [| done]. intros next0. rewrite Hat.
    destruct (AgentTask.steps (step_update _ _ _) !! S i); [| done]. by intros [= <-]. }
  unfold settle_task, settle_phase in *.
  destruct (executeStep c step (run_context run) (run_options run)); [apply Hthen |].
  destruct (loop_stopOnError (run_options run)); [done | apply Hthen].
Qed.

Lemma settle_task_finished run c i step t :
  step_ids t = step_ids (run_task run) ->
  NoDup (step_ids (run_task run)) ->
  AgentTask.steps (run_task run) !! i = Some step ->
  (forall j, j < i -> finished_at t j) ->
  forall j, j < S i -> finished_at (settle_task run c i step t) j.
Proof.
  intros Hids Hnodup Hstep Hbefore j Hj handled.
  destruct (decide (j = i)) as [-> | Hne].
  - rewrite settle_task_at by done.
    destruct (AgentTask.steps t !! i) as [old|]; [| done]. intros [= <-].
    destruct (executeStep c step (run_context run) (run_options run)); cbn; tauto.
  - rewrite settle_task_before by (done || lia). apply Hbefore. lia.
Qed.

(** In every reachable state the steps before the one that a loop awaits
    have been handled, the awaited step is running and is the current step;
    and when the loop has returned, handled steps are followed by pending
    steps. *)
Lemma reachable_order s :
  reaches Agent.empty s ->
  forall r run t,
    runs s !! r = Some run -> _tasks s !! AgentTask.id (run_task run) = Some t ->
    (forall i, phase run = Awaiting i ->
       (forall j, j < i -> finished_at t j) /\
       (forall step, AgentTask.steps t !! i = Some step ->
          AgentStep.status step = AgentStepStatus.Running) /\
       AgentTask.currentStep t = Some i) /\
    (stopped run ->
     exists n, (forall j, j < n -> finished_at t j) /\ (forall j, n <= j -> pending_at t j)).
Proof.
  revert s. apply reachable_pairs.
  - intros plan context options taskId stepUuid run t Hinj [-> ->].
    set (task := new_task plan (default 10%Z (maxSteps options)) taskId stepUuid).
    set (run0 := mkRun false task context _ (Awaiting 0)).
    unfold stopped. cbn [phase with_phase]. unfold enter_phase. cbn [run_task run0].
    destruct (AgentTask.steps task !! 0) as [step|] eqn:Hstep; cbn [isCancellationRequested run0].
    + split; [| done]. intros i [= <-].
      destruct (enter_task_at run0 0 step task) as [Hat Hcurrent]; try done.
      { by apply new_task_steps_distinct. }
      split; [intros j Hj; lia |]. split; [| done].
      intros step0. rewrite Hat, Hstep. by intros [= <-].
    + split; [done |]. intros _. exists 0. split; [intros j Hj; lia |].
      intros j _. unfold enter_task. cbn [run_task run0]. rewrite Hstep.
      apply new_task_pending.
  - intros s r run t run' t' Hs Hrun Ht [Hawaiting Hstopped] Hmove.
    destruct (run_has_task s Hs r run Hrun) as (t0 & Ht0 & Hids).
    assert (t0 = t) as -> by congruence.
    pose proof (run_steps_distinct s Hs r run Hrun) as Hnodup.
    destruct Hmove as [run t | run t | run t | run t i step c Hphase Hstep | run t Hphase].
    + done.
    + done.
    + done.
    + destruct (Hawaiting i Hphase) as (Hbefore & Hrunning & Hcurrent).
      pose proof (settle_task_finished run c i step t Hids Hnodup Hstep Hbefore) as Hdone.
      unfold stopped. cbn [phase with_phase].
      destruct (settle_task_status run c i step t) as [[Hp _] | [Hp _]]; rewrite Hp.
      * split; [done |]. intros _. exists (S i). split; [done |].
        intros j Hj handled Hhandled.
        rewrite (same_after_settle_task_stopped run c i step t Hids Hstep Hp j) in Hhandled
          by lia.
        apply (later_steps_pending s Hs r run i t j Hrun Hphase Ht); [lia | done].
      * split; [| done]. intros i0 [= <-].
        destruct (settle_task_next run c i step t Hids Hnodup Hp) as [Hnext Hcur].
        done.
    + split; [done |]. intros _. apply Hstopped. unfold stopped. by rewrite Hphase.
Qed.

End StepOrder.

(** X18.  In every reachable state the steps of every task are in order:
    steps that have been handled (completed or failed), then at most one
    running step, then pending steps; no step is ever skipped.  A step is
    running only while the loop of the task is suspended at it, and it is then
    the current step of the task. *)
Theorem steps_are_handled_in_order (s : Service) (taskId : string) (t : AgentTask.t) :
  reaches Agent.empty s ->
  AgentService.getTask taskId s = Some t ->
  in_order t /\
  (forall j step, AgentTask.steps t !! j = Some step ->
     AgentStep.status step <> AgentStepStatus.Skipped) /\
  (forall j step, AgentTask.steps t !! j = Some step ->
     AgentStep.status step = AgentStepStatus.Running ->
     AgentTask.currentStep t = Some j /\
     exists r run,
       runs s !! r = Some run /\ AgentTask.id (run_task run) = taskId /\
       phase run = Awaiting j).
Proof.
  intros Hreach Ht. unfold AgentService.getTask in Ht.
  pose proof (reachable_coherent s Hreach) as Hs.
  destruct (task_has_run s (reachable_tabled s Hreach) taskId t Ht)
    as (_ & r & run & Hrun & <-).
  destruct (reachable_order s Hreach r run t Hrun Ht) as [Hawaiting Hstopped].
  assert (Hshape :
            (exists i, phase run = Awaiting i /\
               (forall j, j < i -> finished_at t j) /\
               (forall step, AgentTask.steps t !! i = Some step ->
                  AgentStep.status step = AgentStepStatus.Running) /\
               AgentTask.currentStep t = Some i /\
               (forall j, i < j -> pending_at t j)) \/
            (stopped run /\
             exists n, (forall j, j < n -> finished_at t j) /\
                       (forall j, n <= j -> pending_at t j))).
  { destruct (phase run) as [i| |] eqn:Hphase.
    - left. exists i. destruct (Hawaiting i eq_refl) as (? & ? & ?).
      repeat split; try done.
      intros j Hj. by apply (later_steps_pending s Hs r run i t j).
    - right. assert (Hst : stopped run) by (unfold stopped; by rewrite Hphase).
      split; [done | by apply Hstopped].
    - right. assert (Hst : stopped run) by (unfold stopped; by rewrite Hphase).
      split; [done | by apply Hstopped]. }
  assert (Hcases : forall j step, AgentTask.steps t !! j = Some step ->
            AgentStep.status step = AgentStepStatus.Completed \/
            AgentStep.status step = AgentStepStatus.Failed \/
            AgentStep.status step = AgentStepStatus.Pending \/
            (AgentStep.status step = AgentStepStatus.Running /\
             phase run = Awaiting j /\ AgentTask.currentStep t = Some j)).
  { intros j step Hstep.
    destruct Hshape as [(i & Hphase & Hbefore & Hat & Hcurrent & Hafter) |
                        (_ & n & Hbefore & Hafter)].
    - destruct (lt_eq_lt_dec j i) as [[Hlt | ->] | Hgt].
      + destruct (Hbefore j Hlt step Hstep); tauto.
      + right. right. right. by rewrite (Hat step Hstep).
      + right. right. left. by apply (Hafter j Hgt).
    - destruct (le_lt_dec n j) as [Hle | Hlt].
      + right. right. left. by apply (Hafter j Hle).
      + destruct (Hbefore j Hlt step Hstep); tauto. }
  split; [| split].
  - destruct Hshape as [(i & Hphase & Hbefore & Hat & Hcurrent & Hafter) |
                        (_ & n & Hbefore & Hafter)].
    + exists i. split; [done |]. split; [done |]. intros step Hstep. left. by apply Hat.
    + exists n. split; [done |]. split.
      * intros j Hj. apply Hafter. lia.
      * intros step Hstep. right. by apply (Hafter n).
  - intros j step Hstep Hskipped.
    destruct (Hcases j step Hstep) as [H | [H | [H | [H _]]]]; congruence.
  - intros j step Hstep Hrunning.
    destruct (Hcases j step Hstep) as [H | [H | [H | (_ & Hphase & Hcurrent)]]];
      try congruence.
    split; [done |]. by exists r, run.
Qed.

Lemma steps_are_handled_in_order_witness :
  exists t,
    AgentService.getTask "task-3"
      (settle 0 Sample.prose_model (Sample.started_three Sample.default_options)) = Some t /\
    in_order t.
Proof.
  eexists. split; [reflexivity |].
  apply (steps_are_handled_in_order _ "task-3" _ first_step_done_reachable eq_refl).
Defined.


(** ** The steps of a task and its plan *)

Section Identity.

Implicit Types (s : Service) (t : AgentTask.t) (run : Run) (r i j k n : nat).

Lemma alike_list (l : list AgentStep.t) : Forall2 alike l l.
Proof.
  apply Forall2_same_length_lookup_2; [done |]. intros i a b Ha Hb.
  assert (a = b) as -> by congruence. done.
Qed.

Lemma same_steps_refl t : same_steps t t.
Proof. apply alike_list. Qed.

Lemma same_steps_trans t1 t2 t3 : same_steps t1 t2 -> same_steps t2 t3 -> same_steps t1 t3.
Proof.
  unfold same_steps. intros H12 H23.
  eapply Forall2_trans; [| done | done].
  intros a b c (? & ? & ? & ?) (? & ? & ? & ?). unfold alike. repeat split; congruence.
Qed.

Lemma same_steps_spread t st current error :
  same_steps t (spread_task t (mkTaskUpdates st None current error)).
Proof. apply alike_list. Qed.

Lemma same_steps_step_update stepId updates t :
  same_steps t (step_update stepId updates t).
Proof.
  unfold step_update. destruct (findIndex stepId (AgentTask.steps t)) as [index|];
    [| apply same_steps_refl].
  unfold same_steps. cbn [spread_task AgentTask.steps u_steps default].
  apply Forall2_alter_r; [apply alike_list |].
  intros a b _ _ (? & ? & ? & ?). by destruct b.
Qed.

Lemma same_steps_enter_task run i t : same_steps t (enter_task run i t).
Proof.
  unfold enter_task. destruct (AgentTask.steps (run_task run) !! i) as [step|].
  - destruct (isCancellationRequested run); [apply same_steps_spread |].
    eapply same_steps_trans; [apply same_steps_step_update | apply same_steps_spread].
  - apply same_steps_spread.
Qed.

Lemma same_steps_settle_task run c i step t : same_steps t (settle_task run c i step t).
Proof.
  unfold settle_task.
  destruct (executeStep c step (run_context run) (run_options run)).
  - eapply same_steps_trans; [apply same_steps_step_update | apply same_steps_enter_task].
  - destruct (loop_stopOnError (run_options run)).
    + eapply same_steps_trans; [apply same_steps_step_update | apply same_steps_spread].
    + eapply same_steps_trans; [apply same_steps_step_update | apply same_steps_enter_task].
Qed.

(** In every reachable state the task of a run is a later state of the task
    that [executeTask] built, with the same steps. *)
Lemma reachable_identity s :
  reaches Agent.empty s ->
  forall r run t,
    runs s !! r = Some run -> _tasks s !! AgentTask.id (run_task run) = Some t ->
    evolves (run_task run) t /\ same_steps (run_task run) t.
Proof.
  revert s. apply reachable_pairs.
  - intros plan context options taskId stepUuid run t _ [-> ->]. cbn [run_task with_phase].
    split; [apply evolves_enter_task | apply same_steps_enter_task].
  - intros s r run t run' t' _ _ _ [Hevolves Hsame] Hmove.
    destruct Hmove as [run t | run t | run t | run t i step c Hphase Hstep | run t Hphase];
      cbn [run_task cancelled with_phase]; try done.
    + split.
      * eapply evolves_trans; [done |]. by apply evolves_terminal.
      * eapply same_steps_trans; [done | apply same_steps_spread].
    + split.
      * eapply evolves_trans; [done | apply evolves_settle_task].
      * eapply same_steps_trans; [done | apply same_steps_settle_task].
Qed.

(** A run stays where it is, with its task, whatever happens next. *)
Lemma run_kept_reaches s s' r run :
  reaches s s' -> runs s !! r = Some run ->
  exists run', runs s' !! r = Some run' /\ run_task run' = run_task run.
Proof.
  intros Hreach. revert run.
  induction Hreach as [| s1 s2 s3 (op & Hfresh & ->) _ IH]; intros run Hrun; [by exists run |].
  assert (Hnext : exists run1, runs (apply op s1) !! r = Some run1 /\
                               run_task run1 = run_task run).
  { destruct op as [plan context options taskId stepUuid | k | r0 | r0 c | r0].
    - cbn [apply]. rewrite executeTask_runs. exists run. split; [| done].
      rewrite lookup_app_l; [done |]. by eapply lookup_lt_Some.
    - destruct (apply_run_kept (CancelTask k) s1 r) as (f & -> & Hf); [by intros .. |].
      rewrite Hrun. exists (f run). split; [done |]. by destruct (Hf run).
    - destruct (apply_run_kept (TokenCancelled r0) s1 r) as (f & -> & Hf); [by intros .. |].
      rewrite Hrun. exists (f run). split; [done |]. by destruct (Hf run).
    - destruct (apply_run_kept (Settle r0 c) s1 r) as (f & -> & Hf); [by intros .. |].
      rewrite Hrun. exists (f run). split; [done |]. by destruct (Hf run).
    - destruct (apply_run_kept (Notify r0) s1 r) as (f & -> & Hf); [by intros .. |].
      rewrite Hrun. exists (f run). split; [done |]. by destruct (Hf run). }
  destruct Hnext as (run1 & Hrun1 & Htask1).
  destruct (IH run1 Hrun1) as (run' & Hrun' & Htask'). exists run'. split; [done | congruence].
Qed.

End Identity.

(** X25.  A task keeps the steps that [executeTask] gave it: in every later
    state it has one step for each of the first [maxSteps] steps of the plan,
    ten when the options give no [maxSteps], in the order of the plan, each
    with the type and the description of its plan step.  The steps of the
    plan beyond that are dropped without a notice, although the description
    of the task names every step of the plan. *)
Theorem task_keeps_the_steps_of_its_plan (s s' : Service) (plan : AgentPlan)
    (context : URI) (options : AgentExecutionOptions) (taskId : string)
    (stepUuid : nat -> string) :
  reaches Agent.empty s ->
  fresh (ExecuteTask plan context options taskId stepUuid) s ->
  reaches (snd (executeTask plan context options taskId stepUuid s)) s' ->
  let planned :=
    take (match maxSteps options with
          | None => 10
          | Some m =>
              if (m <? 0)%Z then List.length (plan_steps plan) - Z.to_nat (- m)
              else Z.to_nat m
          end) (plan_steps plan) in
  exists t,
    AgentService.getTask taskId s' = Some t /\
    List.length (AgentTask.steps t) = List.length planned /\
    (forall j p, planned !! j = Some p ->
       exists step,
         AgentTask.steps t !! j = Some step /\
         AgentStep.id step = stepUuid j /\
         AgentStep.type step = PlanStep.type p /\
         AgentStep.name step = PlanStep.description p) /\
    AgentTask.description t =
      JS.join (" " +:+ arrow +:+ " ") (PlanStep.description <$> plan_steps plan).
Proof.
  intros Hreach Hfresh Hlater planned.
  set (s1 := snd (executeTask plan context options taskId stepUuid s)) in *.
  assert (Hreach1 : reaches Agent.empty s1).
  { eapply rtc_r; [exact Hreach |]. by exists (ExecuteTask plan context options taskId stepUuid). }
  assert (Hreach' : reaches Agent.empty s') by by eapply rtc_trans.
  assert (Hrun1 : exists run1, runs s1 !! List.length (runs s) = Some run1 /\
            run_task run1 = new_task plan (default 10%Z (maxSteps options)) taskId stepUuid).
  { unfold s1. rewrite executeTask_runs. eexists. split; [by apply list_lookup_middle | done]. }
  destruct Hrun1 as (run1 & Hrun1 & Htask1).
  destruct (run_kept_reaches s1 s' _ run1 Hlater Hrun1) as (run' & Hrun' & Htask').
  rewrite Htask1 in Htask'.
  destruct (run_has_task s' (reachable_coherent s' Hreach') _ run' Hrun') as (t & Ht & _).
  destruct (reachable_identity s' Hreach' _ run' t Hrun' Ht) as [Hevolves Hsame].
  rewrite Htask' in Ht, Hevolves, Hsame. cbn [AgentTask.id new_task] in Ht.
  exists t. split; [done |].
  assert (Hplanned : slice_0 (default 10%Z (maxSteps options)) (plan_steps plan) = planned).
  { unfold slice_0, planned. destruct (maxSteps options) as [m|]; cbn [default id]; [| done].
    destruct (m <? 0)%Z eqn:E; [| done]. apply Z.ltb_lt in E. f_equal. lia. }
  unfold same_steps in Hsame. cbn [AgentTask.steps new_task] in Hsame.
  unfold new_steps in Hsame. rewrite Hplanned in Hsame.
  split; [| split].
  - rewrite <- (Forall2_length _ _ _ Hsame). by rewrite length_imap.
  - intros j p Hp.
    destruct (Forall2_lookup_l _ _ _ j
                (AgentStep.mk (stepUuid j) (PlanStep.type p) (PlanStep.description p)
                              AgentStepStatus.Pending None None None) Hsame)
      as (step & Hstep & Hid & Htype & Hname & _).
    { by rewrite list_lookup_imap, Hp. }
    by exists step.
  - by destruct Hevolves as (_ & _ & -> & _).
Qed.

Lemma task_keeps_the_steps_of_its_plan_witness :
  exists t,
    AgentService.getTask "task-3"
      (settle 0 Sample.prose_model (Sample.started_three Sample.default_options)) = Some t /\
    List.length (AgentTask.steps t) = 3.
Proof.
  destruct (task_keeps_the_steps_of_its_plan Agent.empty
              (settle 0 Sample.prose_model (Sample.started_three Sample.default_options))
              Sample.three_steps Sample.workspace Sample.default_options "task-3"
              Sample.step_uuid)
    as (t & Ht & Hlen & _).
  - apply rtc_refl.
  - split; [done | exact step_uuid_inj].
  - apply (reaches_run_ops [Settle 0 Sample.prose_model]). done.
  - exists t. split; [exact Ht | exact Hlen].
Defined.


(** ** The completion event *)

Section Completion.

Implicit Types (s : Service) (t : AgentTask.t) (run : Run) (r i j : nat) (k : string).

Lemma complete_updateTask k updates s :
  _onDidTaskComplete (updateTask k updates s) = _onDidTaskComplete s.
Proof. unfold updateTask. by destruct (_tasks s !! k). Qed.

Lemma complete_updateStep k stepId updates s :
  _onDidTaskComplete (updateStep k stepId updates s) = _onDidTaskComplete s.
Proof.
  unfold updateStep. destruct (_tasks s !! k) as [t|]; [| done].
  destruct (findIndex stepId (AgentTask.steps t)); [apply complete_updateTask | done].
Qed.

Lemma complete_enterIteration r i s :
  _onDidTaskComplete (enterIteration r i s) = _onDidTaskComplete s.
Proof.
  unfold enterIteration. destruct (runs s !! r) as [run|]; [| done].
  destruct (AgentTask.steps (run_task run) !! i) as [step|].
  - destruct (isCancellationRequested run); cbn [set_phase _onDidTaskComplete];
      by rewrite ?complete_updateTask, ?complete_updateStep.
  - cbn [set_phase _onDidTaskComplete]. by rewrite complete_updateTask.
Qed.

Lemma complete_settle r c s : _onDidTaskComplete (settle r c s) = _onDidTaskComplete s.
Proof.
  unfold settle. destruct (runs s !! r) as [run|]; [| done].
  destruct (phase run) as [i| |]; [| done | done].
  destruct (AgentTask.steps (run_task run) !! i) as [step|]; [| done].
  destruct (executeStep c step (run_context run) (run_options run)).
  - by rewrite complete_enterIteration, complete_updateStep.
  - destruct (loop_stopOnError (run_options run)).
    + cbn [set_phase _onDidTaskComplete]. by rewrite complete_updateTask, complete_updateStep.
    + by rewrite complete_enterIteration, complete_updateStep.
Qed.

Lemma complete_cancelTask k s : _onDidTaskComplete (cancelTask k s) = _onDidTaskComplete s.
Proof.
  unfold cancelTask. destruct (_taskCancellations s !! k); [| done].
  cbn [_onDidTaskComplete]. by rewrite complete_updateTask.
Qed.

Lemma complete_executeTask plan context options taskId stepUuid s :
  _onDidTaskComplete (snd (executeTask plan context options taskId stepUuid s))
  = _onDidTaskComplete s.
Proof. unfold executeTask. cbn [snd]. by rewrite complete_enterIteration. Qed.

(** What [notify] does: nothing, unless the loop of the run has returned
    and its callback has not run yet. *)
Lemma notify_cases r s :
  coherent s ->
  notify r s = s \/
  exists run t,
    runs s !! r = Some run /\ phase run = Resolved /\
    _tasks s !! AgentTask.id (run_task run) = Some t /\
    _onDidTaskComplete (notify r s) = (_onDidTaskComplete s ++ [t])%list /\
    runs (notify r s) = alter (with_phase Notified) r (runs s).
Proof.
  intros Hs. unfold notify. destruct (runs s !! r) as [run|] eqn:Hrun; [| by left].
  destruct (phase run) eqn:Hphase; [by left | | by left].
  destruct (run_has_task s Hs r run Hrun) as (t & Ht & _). rewrite Ht.
  right. by exists run, t.
Qed.

(** How an operation changes the phase of a run. *)
Lemma apply_phase (op : Op) s r run run' :
  runs s !! r = Some run -> runs (apply op s) !! r = Some run' ->
  phase run' = phase run \/
  (exists c i, op = Settle r c /\ phase run = Awaiting i /\ phase run' <> Notified) \/
  (op = Notify r /\ phase run = Resolved /\ phase run' = Notified).
Proof.
  intros Hrun.
  destruct op as [plan context options taskId stepUuid | k | r0 | r0 c | r0]; cbn [apply].
  - rewrite executeTask_runs, lookup_app_l by by eapply lookup_lt_Some.
    intros ?. left. congruence.
  - rewrite cancelTask_runs. destruct (_taskCancellations s !! k) as [r1|].
    + intros (run0 & Hrun0 & [[-> ->] | [Hne ->]])%lookup_alter_run; left;
        assert (run0 = run) as -> by congruence; done.
    + intros ?. left. congruence.
  - cbn [cancel runs].
    intros (run0 & Hrun0 & [[-> ->] | [Hne ->]])%lookup_alter_run; left;
      assert (run0 = run) as -> by congruence; done.
  - destruct (settle_cases r0 c s) as [-> | (run0 & i & step & Hrun0 & Hphase & Hstep)].
    { intros ?. left. congruence. }
    rewrite (settle_runs r0 c s run0 i step Hrun0 Hphase Hstep).
    intros (run1 & Hrun1 & [[-> ->] | [Hne ->]])%lookup_alter_run.
    + assert (run1 = run) as -> by congruence. assert (run0 = run) as -> by congruence.
      right. left. exists c, i. split; [done |]. split; [done |]. cbn.
      by destruct (settle_task_status run c i step (run_task run)) as [[-> _] | [-> _]].
    + left. congruence.
  - destruct (notify_runs r0 s) as [-> | (run0 & Hrun0 & Hphase & ->)].
    { intros ?. left. congruence. }
    intros (run1 & Hrun1 & [[-> ->] | [Hne ->]])%lookup_alter_run.
    + assert (run1 = run) as -> by congruence. assert (run0 = run) as -> by congruence.
      right. right. done.
    + left. congruence.
Qed.

(** The completion events and the runs whose callback has run: one event for
    each such run, carrying a task that has a terminal status. *)
Lemma reachable_completion s :
  reaches Agent.empty s ->
  NoDup (AgentTask.id <$> _onDidTaskComplete s) /\
  (forall t, t ∈ _onDidTaskComplete s ->
     is_terminal (AgentTask.status t) = true /\
     exists r run,
       runs s !! r = Some run /\ phase run = Notified /\
       AgentTask.id (run_task run) = AgentTask.id t) /\
  (forall r run, runs s !! r = Some run -> phase run = Notified ->
     AgentTask.id (run_task run) ∈ AgentTask.id <$> _onDidTaskComplete s).
Proof.
  revert s. apply reachable_ind.
  - split; [apply NoDup_nil_2 |]. split.
    + by intros t ?%elem_of_nil.
    + intros r run Hrun. cbn in Hrun. by rewrite lookup_nil in Hrun.
  - intros s op Hreach (Hnodup & Hevents & Hruns) Hfresh.
    pose proof (reachable_coherent s Hreach) as Hs.
    pose proof (reachable_tabled s Hreach) as Htabled.
    assert (Hkept : forall r run, runs s !! r = Some run ->
              exists run', runs (apply op s) !! r = Some run' /\
                           run_task run' = run_task run).
    { intros r run Hrun.
      apply (run_kept_reaches s (apply op s) r run); [| done].
      apply rtc_once. by exists op. }
    assert (Hback : forall r run', runs (apply op s) !! r = Some run' ->
              phase run' = Notified ->
              exists run, runs s !! r = Some run /\ run_task run' = run_task run /\
                          (phase run = Notified \/ (op = Notify r /\ phase run = Resolved))).
    { intros r run' Hrun' Hphase'.
      destruct (runs s !! r) as [run|] eqn:Hrun.
      - destruct (Hkept r run Hrun) as (run1 & Hrun1 & Htask1).
        assert (run1 = run') as -> by congruence.
        exists run. split; [done |]. split; [done |].
        destruct (apply_phase op s r run run' Hrun Hrun')
          as [Hsame | [(c & i & _ & _ & Hne) | (-> & Hresolved & _)]].
        + left. congruence.
        + done.
        + by right.
      - exfalso. destruct op as [plan context options taskId stepUuid | k | r0 | r0 c | r0].
        + cbn [apply] in Hrun'. apply executeTask_run in Hrun' as [? | [_ ->]]; [congruence |].
          cbn in Hphase'. unfold enter_phase in Hphase'.
          destruct (AgentTask.steps _ !! 0); [| done].
          cbn in Hphase'. done.
        + destruct (apply_run_kept (CancelTask k) s r) as (f & Hf & _); [by intros .. |].
          rewrite Hf, Hrun in Hrun'. done.
        + destruct (apply_run_kept (TokenCancelled r0) s r) as (f & Hf & _); [by intros .. |].
          rewrite Hf, Hrun in Hrun'. done.
        + destruct (apply_run_kept (Settle r0 c) s r) as (f & Hf & _); [by intros .. |].
          rewrite Hf, Hrun in Hrun'. done.
        + destruct (apply_run_kept (Notify r0) s r) as (f & Hf & _); [by intros .. |].
          rewrite Hf, Hrun in Hrun'. done. }
    assert (Hcases : _onDidTaskComplete (apply op s) = _onDidTaskComplete s /\
                     (forall r run, runs s !! r = Some run -> phase run = Resolved ->
                        op <> Notify r)
                     \/
                     exists r run t,
                       op = Notify r /\ runs s !! r = Some run /\ phase run = Resolved /\
                       _tasks s !! AgentTask.id (run_task run) = Some t /\
                       _onDidTaskComplete (apply op s) = (_onDidTaskComplete s ++ [t])%list).
    { destruct op as [plan context options taskId stepUuid | k | r0 | r0 c | r0]; cbn [apply].
      - left. split; [apply complete_executeTask | by intros ..].
      - left. split; [apply complete_cancelTask | by intros ..].
      - left. split; [done | by intros ..].
      - left. split; [apply complete_settle | by intros ..].
      - destruct (notify_cases r0 s Hs) as [Hidle | (run & t & Hrun & Hphase & Ht & Hc & Hr)].
        + left. rewrite Hidle. split; [done |].
          intros r run Hrun Hphase [= ->].
          assert (Hrun' : runs (notify r s) !! r = Some run) by by rewrite Hidle.
          unfold notify in Hidle. rewrite Hrun, Hphase in Hidle.
          destruct (run_has_task s Hs r run Hrun) as (t & Ht & _). rewrite Ht in Hidle.
          apply (f_equal runs) in Hidle. cbn in Hidle.
          apply (f_equal (fun l => phase <$> l !! r)) in Hidle.
          rewrite list_lookup_alter_eq, Hrun in Hidle. cbn in Hidle. congruence.
        + right. by exists r0, run, t. }
    destruct Hcases as [[Hc Hnot] | (r0 & run0 & t0 & -> & Hrun0 & Hphase0 & Ht0 & Hc)];
      rewrite Hc.
    + split; [done |]. split.
      * intros t Ht. destruct (Hevents t Ht) as (Hterminal & r & run & Hrun & Hphase & Hid).
        split; [done |].
        destruct (Hkept r run Hrun) as (run' & Hrun' & Htask').
        exists r, run'. split; [done |]. split; [| congruence].
        destruct (apply_phase op s r run run' Hrun Hrun')
          as [Hsame | [(c & i & _ & Hawaits & _) | (-> & Hresolved & _)]]; congruence.
      * intros r run' Hrun' Hphase'.
        destruct (Hback r run' Hrun' Hphase') as (run & Hrun & Htask & [Hn | [-> Hres]]).
        -- rewrite Htask. by apply (Hruns r run).
        -- by destruct (Hnot r run Hrun Hres).
    + assert (Hid0 : AgentTask.id t0 = AgentTask.id (run_task run0)).
      { by destruct (task_has_run s Htabled _ t0 Ht0) as (-> & _). }
      assert (Hnew : AgentTask.id t0 ∉ AgentTask.id <$> _onDidTaskComplete s).
      { intros (t & Hid & Ht)%list_elem_of_fmap.
        destruct (Hevents t Ht) as (_ & r & run & Hrun & Hphase & Hidr).
        assert (r = r0).
        { apply (run_tasks_distinct s Hs r r0 run run0 Hrun Hrun0). congruence. }
        subst r. congruence. }
      split; [| split].
      * rewrite fmap_app. apply NoDup_app. split; [done |]. split.
        -- intros x Hx [-> | ?%elem_of_nil]%elem_of_cons; done.
        -- apply NoDup_singleton.
      * intros t [Ht | ->%list_elem_of_singleton]%elem_of_app.
        -- destruct (Hevents t Ht) as (Hterminal & r & run & Hrun & Hphase & Hid).
           split; [done |].
           destruct (Hkept r run Hrun) as (run' & Hrun' & Htask').
           exists r, run'. split; [done |]. split; [| congruence].
           destruct (apply_phase (Notify r0) s r run run' Hrun Hrun')
             as [Hsame | [(c & i & ? & _) | (_ & Hresolved & _)]]; congruence.
        -- split.
           ++ destruct (reachable_status s Hreach r0 run0 t0 Hrun0 Ht0)
                as (Hpending & Hrunning & _).
              destruct (AgentTask.status t0) eqn:Hstatus; try done.
              destruct (Hrunning eq_refl) as [i Hi]. congruence.
           ++ destruct (Hkept r0 run0 Hrun0) as (run' & Hrun' & Htask').
              exists r0, run'. split; [done |]. split; [| congruence].
              destruct (apply_phase (Notify r0) s r0 run0 run' Hrun0 Hrun')
                as [Hsame | [(c & i & ? & _) | (_ & _ & Hn)]]; try done.
              exfalso. cbn [apply] in Hrun'. unfold notify in Hrun'.
              rewrite Hrun0, Hphase0, Ht0 in Hrun'. cbn in Hrun'.
              rewrite list_lookup_alter_eq, Hrun0 in Hrun'. injection Hrun' as <-.
              cbn in Hsame. congruence.
      * intros r run' Hrun' Hphase'. rewrite fmap_app.
        destruct (Hback r run' Hrun' Hphase') as (run & Hrun & Htask & [Hn | [[= ->] Hres]]).
        -- apply elem_of_app. left. rewrite Htask. by apply (Hruns r run).
        -- apply elem_of_app. right. assert (run = run0) as -> by congruence.
           rewrite Htask, <- Hid0. apply list_elem_of_here.
Qed.

End Completion.


Lemma notified_reachable : reaches Agent.empty (notify 0 Sample.finished).
Proof.
  apply (reaches_run_ops
           [ExecuteTask Sample.verify_plan Sample.workspace Sample.default_options
              "task-1" Sample.step_uuid;
            Settle 0 Sample.prose_model; Notify 0]).
  split; [split; [done | exact step_uuid_inj] | done].
Qed.

(** X20.  In every reachable state the completion event has been fired at
    most once for a task: exactly once for each task whose loop has returned
    and whose callback has run, and never for a task whose loop is still
    going.  The task that the event carried had a terminal status. *)
Theorem completion_event_fires_once (s : Service) :
  reaches Agent.empty s ->
  NoDup (AgentTask.id <$> _onDidTaskComplete s) /\
  (forall t, t ∈ _onDidTaskComplete s ->
     is_terminal (AgentTask.status t) = true /\
     exists r run,
       runs s !! r = Some run /\ phase run = Notified /\
       AgentTask.id (run_task run) = AgentTask.id t) /\
  (forall r run, runs s !! r = Some run -> phase run = Notified ->
     AgentTask.id (run_task run) ∈ AgentTask.id <$> _onDidTaskComplete s).
Proof. apply reachable_completion. Qed.

Lemma completion_event_fires_once_witness :
  _onDidTaskComplete (notify 0 (notify 0 Sample.finished)) <> [] /\
  NoDup (AgentTask.id <$> _onDidTaskComplete (notify 0 (notify 0 Sample.finished))).
Proof.
  split; [by vm_compute |].
  apply (completion_event_fires_once (notify 0 (notify 0 Sample.finished))).
  eapply rtc_r; [apply notified_reachable |]. by exists (Notify 0).
Defined.


(** ** The update events *)

Section Updates.

Implicit Types (s : Service) (t : AgentTask.t) (run : Run) (r i j : nat) (k : string).

Lemma synced_same s s' :
  _tasks s' = _tasks s -> _onDidTaskUpdate s' = _onDidTaskUpdate s ->
  synced s -> synced s'.
Proof. intros Ht He H k. unfold last_update. rewrite He, Ht. apply H. Qed.

Lemma synced_id s k t : synced s -> _tasks s !! k = Some t -> AgentTask.id t = k.
Proof.
  intros H Ht. rewrite <- (H k) in Ht. unfold last_update in Ht.
  apply last_Some_elem_of in Ht. by apply list_elem_of_filter in Ht as [? _].
Qed.

(** Storing a task under its identifier and firing an event for it. *)
Lemma synced_fire s k t :
  AgentTask.id t = k ->
  synced s ->
  synced (mkService (<[k := t]> (_tasks s)) (_taskCancellations s) (runs s)
                    (_onDidTaskUpdate s ++ [t])%list (_onDidTaskComplete s)).
Proof.
  intros Hid H k0. unfold last_update. cbn [_onDidTaskUpdate _tasks].
  rewrite filter_app. destruct (decide (k0 = k)) as [-> | Hne].
  - rewrite lookup_insert_eq, filter_cons_True, filter_nil by done. apply last_snoc.
  - rewrite lookup_insert_ne, filter_cons_False, filter_nil, app_nil_r by congruence.
    apply H.
Qed.

Lemma synced_updateTask k updates s : synced s -> synced (updateTask k updates s).
Proof.
  intros H. unfold updateTask. destruct (_tasks s !! k) as [t|] eqn:Ht; [| done].
  apply synced_fire; [| done]. cbn. by apply (synced_id s).
Qed.

Lemma synced_updateStep k stepId updates s : synced s -> synced (updateStep k stepId updates s).
Proof.
  intros H. unfold updateStep. destruct (_tasks s !! k) as [t|]; [| done].
  destruct (findIndex stepId (AgentTask.steps t)); [by apply synced_updateTask | done].
Qed.

Lemma synced_set_phase r p s : synced s -> synced (set_phase r p s).
Proof. by apply synced_same. Qed.

Lemma synced_enterIteration r i s : synced s -> synced (enterIteration r i s).
Proof.
  intros H. unfold enterIteration. destruct (runs s !! r) as [run|]; [| done].
  destruct (AgentTask.steps (run_task run) !! i) as [step|].
  - destruct (isCancellationRequested run); apply synced_set_phase, synced_updateTask;
      [done | by apply synced_updateStep].
  - by apply synced_set_phase, synced_updateTask.
Qed.

Lemma synced_apply (op : Op) s : synced s -> synced (apply op s).
Proof.
  intros H. destruct op as [plan context options taskId stepUuid | k | r0 | r0 c | r0];
    cbn [apply].
  - unfold executeTask. cbn [snd]. apply synced_enterIteration.
    by apply (synced_fire s taskId).
  - unfold cancelTask. destruct (_taskCancellations s !! k) as [r|]; [| done].
    eapply synced_same; [| | apply (synced_updateTask k (mark AgentTaskStatus.Cancelled)
                                      (cancel r s))]; [done | done |].
    by apply (synced_same s).
  - by apply (synced_same s).
  - unfold settle. destruct (runs s !! r0) as [run|]; [| done].
    destruct (phase run) as [i| |]; [| done | done].
    destruct (AgentTask.steps (run_task run) !! i) as [step|]; [| done].
    destruct (executeStep c step (run_context run) (run_options run)).
    + by apply synced_enterIteration, synced_updateStep.
    + destruct (loop_stopOnError (run_options run)).
      * by apply synced_set_phase, synced_updateTask, synced_updateStep.
      * by apply synced_enterIteration, synced_updateStep.
  - apply (synced_same s); [apply notify_tasks | | done].
    unfold notify. destruct (runs s !! r0) as [run|]; [| done].
    destruct (phase run); [done | | done].
    by destruct (_tasks s !! AgentTask.id (run_task run)).
Qed.

End Updates.

(** X21.  In every reachable state the table of tasks is what a listener of
    the update event has seen last: [getTask] returns, for every identifier,
    the task carried by the last update event fired for that identifier,
    and nothing for an identifier for which no event was fired.  No change of
    a task goes without its event. *)
Theorem getTask_is_the_last_update (s : Service) (taskId : string) :
  reaches Agent.empty s ->
  AgentService.getTask taskId s = last_update taskId s.
Proof.
  intros Hreach. symmetry. revert taskId. change (synced s).
  revert s Hreach. apply reachable_ind; [done |].
  intros s op _ H _. by apply synced_apply.
Qed.

Lemma getTask_is_the_last_update_witness :
  AgentService.getTask "task-3"
    (settle 0 Sample.prose_model (Sample.started_three Sample.default_options))
  = last_update "task-3"
      (settle 0 Sample.prose_model (Sample.started_three Sample.default_options)).
Proof. apply getTask_is_the_last_update, first_step_done_reachable. Defined.


(** ** [dispose] *)

Section Dispose.

Implicit Types (s : Service) (run : Run) (r : nat) (l : list nat).

Lemma foldr_cancel_tables l s :
  _tasks (foldr cancel s l) = _tasks s /\
  _taskCancellations (foldr cancel s l) = _taskCancellations s /\
  _onDidTaskUpdate (foldr cancel s l) = _onDidTaskUpdate s /\
  _onDidTaskComplete (foldr cancel s l) = _onDidTaskComplete s.
Proof. induction l as [|r l IH]; [done |]. cbn. apply IH. Qed.

Lemma foldr_cancel_runs l s r :
  runs (foldr cancel s l) !! r =
  ((fun run => if decide (r ∈ l) then cancelled run else run) <$> runs s !! r).
Proof.
  induction l as [|r0 l IH].
  - cbn. destruct (runs s !! r); [| done]. cbn. by rewrite decide_False by apply not_elem_of_nil.
  - cbn [foldr cancel runs]. destruct (decide (r0 = r)) as [-> | Hne].
    + rewrite list_lookup_alter_eq, IH. destruct (runs s !! r) as [run|]; [| done]. cbn.
      rewrite (decide_True (P := r ∈ r :: l)) by apply list_elem_of_here.
      by destruct (decide (r ∈ l)).
    + rewrite list_lookup_alter_ne, IH by done.
      destruct (runs s !! r) as [run|]; [| done]. cbn.
      destruct (decide (r ∈ l)) as [Hin | Hout].
      * by rewrite decide_True by by apply list_elem_of_further.
      * rewrite decide_False; [done |]. by intros [? | ?]%elem_of_cons.
Qed.

Lemma foldr_cancel_reaches l s : reaches s (foldr cancel s l).
Proof.
  induction l as [|r l IH]; [apply rtc_refl |].
  cbn [foldr]. eapply rtc_r; [exact IH |]. by exists (TokenCancelled r).
Qed.

End Dispose.

(** X22.  In every reachable state, [dispose] changes no task, fires no
    event and leaves the side table as it is; after it every loop has its
    cancellation requested, also those whose source [cancelTask] had taken
    out of the table; and the loops and their tasks are otherwise as they
    were, so that the service goes on as after so many cancelled tokens. *)
Theorem dispose_requests_every_cancellation (s : Service) :
  reaches Agent.empty s ->
  _tasks (AgentService.dispose s) = _tasks s /\
  _taskCancellations (AgentService.dispose s) = _taskCancellations s /\
  _onDidTaskUpdate (AgentService.dispose s) = _onDidTaskUpdate s /\
  _onDidTaskComplete (AgentService.dispose s) = _onDidTaskComplete s /\
  (forall r run, runs s !! r = Some run ->
     exists run',
       runs (AgentService.dispose s) !! r = Some run' /\
       isCancellationRequested run' = true /\
       run_task run' = run_task run /\ phase run' = phase run) /\
  reaches Agent.empty (AgentService.dispose s).
Proof.
  intros Hreach. unfold AgentService.dispose.
  set (l := snd <$> map_to_list (_taskCancellations s)).
  destruct (foldr_cancel_tables l s) as (Htasks & Htable & Hupdates & Hcomplete).
  do 4 (split; [done |]). split.
  - intros r run Hrun. rewrite foldr_cancel_runs, Hrun. cbn. eexists. split; [done |].
    destruct (run_has_entry s (reachable_tabled s Hreach) r run Hrun) as [Hentry | Hc].
    + rewrite decide_True; [done |]. unfold l. apply list_elem_of_fmap.
      exists (AgentTask.id (run_task run), r). split; [done |].
      by apply elem_of_map_to_list.
    + by destruct (decide (r ∈ l)).
  - eapply rtc_trans; [exact Hreach | apply foldr_cancel_reaches].
Qed.

Lemma dispose_requests_every_cancellation_witness :
  exists run',
    runs (AgentService.dispose (Sample.started_three Sample.default_options)) !! 0
    = Some run' /\
    isCancellationRequested run' = true /\ phase run' = Awaiting 0.
Proof.
  destruct (dispose_requests_every_cancellation
              (Sample.started_three Sample.default_options))
    as (_ & _ & _ & _ & Hruns & _).
  - apply (reaches_run_ops
             [ExecuteTask Sample.three_steps Sample.workspace Sample.default_options
                "task-3" Sample.step_uuid]).
    split; [split; [done | exact step_uuid_inj] | done].
  - edestruct (Hruns 0) as (run' & Hrun' & Hrequested & _ & Hphase); [reflexivity |].
    exists run'. split; [exact Hrun' |]. split; [exact Hrequested |].
    rewrite Hphase. reflexivity.
Defined.


(** ** A loop that is not stopped *)

Section Loop.

Implicit Types (s : Service) (t : AgentTask.t) (run : Run) (r i j k n : nat).

(** What [settle] records for the step it has handled. *)
Lemma settle_task_records run c k step t old :
  step_ids t = step_ids (run_task run) ->
  NoDup (step_ids (run_task run)) ->
  AgentTask.steps (run_task run) !! k = Some step ->
  AgentTask.steps t !! k = Some old ->
  exists handled,
    AgentTask.steps (settle_task run c k step t) !! k = Some handled /\
    match executeStep c step (run_context run) (run_options run) with
    | JS.Return result =>
        AgentStep.status handled = AgentStepStatus.Completed /\
        AgentStep.result handled = Some result
    | JS.Throw error =>
        AgentStep.status handled = AgentStepStatus.Failed /\
        AgentStep.error handled = Some (JS.error_text error)
    end.
Proof.
  intros Hids Hnodup Hstep Hold. rewrite settle_task_at, Hold by done. cbn.
  eexists. split; [done |].
  by destruct (executeStep c step (run_context run) (run_options run)).
Qed.

(** A loop that no cancellation and no failure stops handles its remaining
    steps one after the other, records what each handler did, and completes
    the task. *)
Lemma loop_outcome n : forall s r run k (cs : list Collaborators),
  coherent s ->
  runs s !! r = Some run -> phase run = Awaiting k ->
  isCancellationRequested run = false ->
  List.length (AgentTask.steps (run_task run)) = k + S n ->
  List.length cs = S n ->
  (forall j c step error,
     cs !! j = Some c -> AgentTask.steps (run_task run) !! (k + j) = Some step ->
     executeStep c step (run_context run) (run_options run) = JS.Throw error ->
     loop_stopOnError (run_options run) = false) ->
  exists run' t t',
    _tasks s !! AgentTask.id (run_task run) = Some t /\
    runs (run_ops (Settle r <$> cs) s) !! r = Some run' /\
    phase run' = Resolved /\
    _tasks (run_ops (Settle r <$> cs) s) !! AgentTask.id (run_task run) = Some t' /\
    AgentTask.status t' = AgentTaskStatus.Completed /\
    step_ids t' = step_ids (run_task run) /\
    (forall j, j < k -> AgentTask.steps t' !! j = AgentTask.steps t !! j) /\
    (forall j c step,
       cs !! j = Some c -> AgentTask.steps (run_task run) !! (k + j) = Some step ->
       exists handled,
         AgentTask.steps t' !! (k + j) = Some handled /\
         match executeStep c step (run_context run) (run_options run) with
         | JS.Return result =>
             AgentStep.status handled = AgentStepStatus.Completed /\
             AgentStep.result handled = Some result
         | JS.Throw error =>
             AgentStep.status handled = AgentStepStatus.Failed /\
             AgentStep.error handled = Some (JS.error_text error)
         end).
Proof.
  induction n as [| n IH]; intros s r run k cs Hs Hrun Hphase Hlive Hlen Hcs Hgoes.
  - destruct cs as [| c [| ? ?]]; [done | | done]. cbn [fmap list_fmap run_ops apply].
    destruct (lookup_lt_is_Some_2 (AgentTask.steps (run_task run)) k) as [step Hstep];
      [lia |].
    destruct (settle_awaited s r run k step c Hs Hrun Hphase Hstep)
      as (t & Ht & Hids & Ht1 & Hrun1).
    pose proof (run_steps_distinct s Hs r run Hrun) as Hnodup.
    assert (Hend : AgentTask.steps (run_task run) !! S k = None).
    { apply lookup_ge_None_2. lia. }
    assert (Hgo : forall error,
              executeStep c step (run_context run) (run_options run) = JS.Throw error ->
              loop_stopOnError (run_options run) = false).
    { intros error. apply (Hgoes 0 c step error); [done |]. by rewrite Nat.add_0_r. }
    exists (with_phase (settle_phase run c k step) run), t, (settle_task run c k step t).
    split; [done |]. split; [done |].
    split; [| split; [done | split; [| split; [| split]]]].
    + unfold settle_phase, enter_phase. cbn. rewrite Hend.
      destruct (executeStep c step (run_context run) (run_options run)) as [|error];
        [done |]. by rewrite (Hgo error).
    + unfold settle_task, enter_task. rewrite Hend.
      destruct (executeStep c step (run_context run) (run_options run)) as [|error];
        [done |]. by rewrite (Hgo error).
    + by rewrite (step_ids_evolves _ _ (evolves_settle_task run c k step t)).
    + intros j Hj. by apply settle_task_before.
    + intros j c0 step0 Hc0 Hstep0. destruct j as [|j]; [| done].
      cbn in Hc0. injection Hc0 as <-. rewrite Nat.add_0_r in *.
      assert (step0 = step) as -> by congruence.
      assert (Hold : is_Some (AgentTask.steps t !! k)).
      { apply lookup_lt_is_Some. rewrite <- (length_fmap AgentStep.id).
        fold (step_ids t). rewrite Hids. unfold step_ids. rewrite length_fmap. lia. }
      destruct Hold as [old Hold]. by apply (settle_task_records run c k step t old).
  - destruct cs as [| c cs]; [done |]. cbn [fmap list_fmap run_ops apply].
    destruct (lookup_lt_is_Some_2 (AgentTask.steps (run_task run)) k) as [step Hstep];
      [lia |].
    destruct (settle_awaited s r run k step c Hs Hrun Hphase Hstep)
      as (t & Ht & Hids & Ht1 & Hrun1).
    pose proof (run_steps_distinct s Hs r run Hrun) as Hnodup.
    destruct (lookup_lt_is_Some_2 (AgentTask.steps (run_task run)) (S k)) as [next Hnext];
      [lia |].
    assert (Hgo : forall error,
              executeStep c step (run_context run) (run_options run) = JS.Throw error ->
              loop_stopOnError (run_options run) = false).
    { intros error. apply (Hgoes 0 c step error); [done |]. by rewrite Nat.add_0_r. }
    assert (Hp : settle_phase run c k step = Awaiting (S k)).
    { unfold settle_phase, enter_phase. rewrite Hnext, Hlive.
      destruct (executeStep c step (run_context run) (run_options run)) as [|error];
        [done |]. by rewrite (Hgo error). }
    rewrite Hp in Hrun1.
    destruct (IH (settle r c s) r (with_phase (Awaiting (S k)) run) (S k) cs)
      as (run' & t1 & t' & Ht1' & Hrun' & Hphase' & Ht' & Hstatus' & Hids' & Hbefore'
          & Hafter');
      try done.
    + by apply coherent_settle.
    + cbn. lia.
    + by injection Hcs.
    + intros j c0 step0 error Hc0 Hstep0. cbn [run_task run_context run_options with_phase].
      apply (Hgoes (S j) c0 step0 error); [done |].
      by replace (k + S j) with (S k + j) by lia.
    + cbn [run_task run_context run_options with_phase] in *.
      assert (t1 = settle_task run c k step t) as -> by congruence.
      exists run', t, t'. do 6 (split; [done |]). split.
      * intros j Hj. rewrite Hbefore' by lia. by apply settle_task_before.
      * intros j c0 step0 Hc0 Hstep0. destruct j as [|j].
        -- cbn in Hc0. injection Hc0 as <-. rewrite Nat.add_0_r in *.
           assert (step0 = step) as -> by congruence.
           rewrite Hbefore' by lia.
           assert (Hold : is_Some (AgentTask.steps t !! k)).
           { apply lookup_lt_is_Some. rewrite <- (length_fmap AgentStep.id).
             fold (step_ids t). rewrite Hids. unfold step_ids. rewrite length_fmap. lia. }
           destruct Hold as [old Hold]. by apply (settle_task_records run c k step t old).
        -- replace (k + S j) with (S k + j) in * by lia. by apply (Hafter' j c0 step0).
Qed.

End Loop.

(** X23.  In a reachable state, let a loop be suspended at its step [i] with
    no cancellation requested, and let the handlers of step [i] and of the
    steps after it finish one after the other, none of them failing unless
    [stopOnError] is unset.  Then the loop handles every remaining step in
    order and returns with the task completed; every step it handled is
    completed with the result of its handler, or failed with the message of
    the error, and the steps before [i] are as they were. *)
Theorem loop_handles_every_remaining_step (s : Service) (r : nat) (run : Run) (i : nat)
    (cs : list Collaborators) :
  reaches Agent.empty s ->
  runs s !! r = Some run -> phase run = Awaiting i ->
  isCancellationRequested run = false ->
  i + List.length cs = List.length (AgentTask.steps (run_task run)) ->
  (forall j c step error,
     cs !! j = Some c -> AgentTask.steps (run_task run) !! (i + j) = Some step ->
     executeStep c step (run_context run) (run_options run) = JS.Throw error ->
     loop_stopOnError (run_options run) = false) ->
  exists run' t t',
    AgentService.getTask (AgentTask.id (run_task run)) s = Some t /\
    runs (run_ops (Settle r <$> cs) s) !! r = Some run' /\
    phase run' = Resolved /\
    AgentService.getTask (AgentTask.id (run_task run)) (run_ops (Settle r <$> cs) s)
    = Some t' /\
    AgentTask.status t' = AgentTaskStatus.Completed /\
    (forall j, j < i -> AgentTask.steps t' !! j = AgentTask.steps t !! j) /\
    (forall j c step,
       cs !! j = Some c -> AgentTask.steps (run_task run) !! (i + j) = Some step ->
       exists handled,
         AgentTask.steps t' !! (i + j) = Some handled /\
         match executeStep c step (run_context run) (run_options run) with
         | JS.Return result =>
             AgentStep.status handled = AgentStepStatus.Completed /\
             AgentStep.result handled = Some result
         | JS.Throw error =>
             AgentStep.status handled = AgentStepStatus.Failed /\
             AgentStep.error handled = Some (JS.error_text error)
         end).
Proof.
  intros Hreach Hrun Hphase Hlive Hlen Hgoes.
  pose proof (reachable_coherent s Hreach) as Hs.
  pose proof (awaited_step_exists s Hs r run i Hrun Hphase) as Hi.
  destruct cs as [|c cs]; [cbn in Hlen; lia |].
  destruct (loop_outcome (List.length cs) s r run i (c :: cs))
    as (run' & t & t' & Ht & Hrun' & Hphase' & Ht' & Hstatus & _ & Hbefore & Hafter);
    try done.
  by exists run', t, t'.
Qed.

Lemma loop_handles_every_remaining_step_witness :
  exists t',
    AgentService.getTask "task-3"
      (run_ops (Settle 0 <$> [Sample.prose_model; Sample.prose_model; Sample.prose_model])
         (Sample.started_three Sample.keep_going)) = Some t' /\
    AgentTask.status t' = AgentTaskStatus.Completed.
Proof.
  assert (Hreach : reaches Agent.empty (Sample.started_three Sample.keep_going)).
  { apply (reaches_run_ops
             [ExecuteTask Sample.three_steps Sample.workspace Sample.keep_going
                "task-3" Sample.step_uuid]).
    split; [split; [done | exact step_uuid_inj] | done]. }
  destruct (loop_handles_every_remaining_step (Sample.started_three Sample.keep_going)
              0 _ 0 [Sample.prose_model; Sample.prose_model; Sample.prose_model]
              Hreach eq_refl eq_refl eq_refl eq_refl)
    as (run' & t & t' & _ & _ & _ & Ht' & Hstatus & _).
  - intros j c step error _ _ _. reflexivity.
  - exists t'. split; [exact Ht' | exact Hstatus].
Defined.


(** X24.  A dry run completes every step without a handler being run:
    whatever the collaborators would answer, and whatever the types of the
    steps, also a type that has no handler, every step is completed with the
    result [{ dryRun: true }] and the task is completed. *)
Theorem dry_run_completes_every_step (s : Service) (plan : AgentPlan) (context : URI)
    (options : AgentExecutionOptions) (taskId : string) (stepUuid : nat -> string)
    (cs : list Collaborators) :
  reaches Agent.empty s ->
  fresh (ExecuteTask plan context options taskId stepUuid) s ->
  dryRun options = Some true ->
  List.length cs =
    List.length (AgentTask.steps (fst (executeTask plan context options taskId stepUuid s))) ->
  exists t',
    AgentService.getTask taskId
      (run_ops (Settle (List.length (runs s)) <$> cs)
         (snd (executeTask plan context options taskId stepUuid s))) = Some t' /\
    AgentTask.status t' = AgentTaskStatus.Completed /\
    List.length (AgentTask.steps t') = List.length cs /\
    forall j step, AgentTask.steps t' !! j = Some step ->
      AgentStep.status step = AgentStepStatus.Completed /\
      AgentStep.result step = Some DryRun.
Proof.
  intros Hreach Hfresh Hdry Hlen.
  set (s1 := snd (executeTask plan context options taskId stepUuid s)) in *.
  set (task := new_task plan (default 10%Z (maxSteps options)) taskId stepUuid).
  set (run0 := mkRun false task context
                 (mkLoopOptions (default true (retryOnFailure options))
                                (default true (stopOnError options))
                                (default false (dryRun options)))
                 (Awaiting 0)).
  change (fst (executeTask plan context options taskId stepUuid s)) with task in Hlen.
  assert (Hreach1 : reaches Agent.empty s1).
  { eapply rtc_r; [exact Hreach |]. by exists (ExecuteTask plan context options taskId stepUuid). }
  assert (Hrun1 : runs s1 !! List.length (runs s) = Some (with_phase (enter_phase run0 0) run0)).
  { unfold s1. rewrite executeTask_runs. by apply list_lookup_middle. }
  assert (Ht1 : _tasks s1 !! taskId = Some (enter_task run0 0 task)).
  { unfold s1. by rewrite executeTask_tasks, decide_True. }
  destruct cs as [|c cs].
  - cbn [fmap list_fmap run_ops]. unfold AgentService.getTask. rewrite Ht1.
    symmetry in Hlen. apply length_zero_iff_nil in Hlen.
    assert (Hnone : AgentTask.steps (run_task run0) !! 0 = None).
    { change (AgentTask.steps task !! 0 = None). by rewrite Hlen. }
    eexists. split; [done |]. unfold enter_task. rewrite Hnone.
    cbn [spread_task mark AgentTask.status AgentTask.steps u_status u_steps default].
    split; [done |]. split; [by rewrite Hlen |]. intros j step. by rewrite Hlen, lookup_nil.
  - assert (Hphase : enter_phase run0 0 = Awaiting 0).
    { unfold enter_phase. cbn [run_task run0 isCancellationRequested].
      destruct (AgentTask.steps task) as [|step steps]; [done | done]. }
    rewrite Hphase in Hrun1.
    destruct (loop_outcome (List.length cs) s1 (List.length (runs s))
                (with_phase (Awaiting 0) run0) 0 (c :: cs))
      as (run' & t & t' & Ht & Hrun' & Hphase' & Ht' & Hstatus & Hids & _ & Hafter);
      try done.
    + by apply reachable_coherent.
    + intros j c0 step error _ _. cbn [run_options with_phase run0].
      unfold executeStep. cbn [loop_dryRun]. by rewrite Hdry.
    + cbn [run_task with_phase run0 AgentTask.id task new_task] in *.
      exists t'. split; [done |]. split; [done |].
      assert (Hlen' : List.length (AgentTask.steps t') = List.length (c :: cs)).
      { rewrite <- (length_fmap AgentStep.id). fold (step_ids t'). rewrite Hids.
        unfold step_ids. by rewrite length_fmap. }
      split; [done |]. intros j step Hstep.
      pose proof (lookup_lt_Some _ _ _ Hstep) as Hj. rewrite Hlen' in Hj.
      destruct (lookup_lt_is_Some_2 (c :: cs) j Hj) as [c0 Hc0].
      destruct (lookup_lt_is_Some_2 (AgentTask.steps task) j) as [planned Hplanned];
        [by rewrite <- Hlen |].
      destruct (Hafter j c0 planned Hc0 Hplanned) as (handled & Hhandled & Houtcome).
      cbn [Nat.add] in Hhandled. assert (handled = step) as -> by congruence.
      cbn [run_options with_phase run0] in Houtcome. unfold executeStep in Houtcome.
      cbn [loop_dryRun] in Houtcome. by rewrite Hdry in Houtcome.
Qed.

Lemma dry_run_completes_every_step_witness :
  exists t',
    AgentService.getTask "task-3"
      (run_ops (Settle 0 <$> [Scenario.no_model; Scenario.no_model; Scenario.no_model])
         (snd (executeTask Sample.three_steps Sample.workspace Scenario.dry_run "task-3"
                 Sample.step_uuid Agent.empty))) = Some t' /\
    AgentTask.status t' = AgentTaskStatus.Completed /\
    List.length (AgentTask.steps t') = 3.
Proof.
  destruct (dry_run_completes_every_step Agent.empty Sample.three_steps Sample.workspace
              Scenario.dry_run "task-3" Sample.step_uuid
              [Scenario.no_model; Scenario.no_model; Scenario.no_model])
    as (t' & Ht' & Hstatus & Hlen & _).
  - apply rtc_refl.
  - split; [done | exact step_uuid_inj].
  - reflexivity.
  - reflexivity.
  - exists t'. split; [exact Ht' |]. split; [exact Hstatus | exact Hlen].
Defined.


(** ** From a description to a task *)

(** X17.  [executeTaskFromDescription] creates a task only when planning
    succeeds: what [planTask] throws is thrown again with the service
    untouched.  Otherwise the call is [executeTask] on the plan, with the
    default options when none are given.  The task it returns is the task as
    first built, running and with every step pending, whereas the table
    already holds what the first iteration made of it: completed when there
    is no step to handle, and otherwise running with its first step running. *)
Theorem executeTaskFromDescription_plans_then_executes (c : Collaborators)
    (description : string) (context : URI) (options : option AgentExecutionOptions)
    (taskId : string) (stepUuid : nat -> string) (s : Service) :
  (forall error, planTask c description context = JS.Throw error ->
     AgentService.executeTaskFromDescription c description context options taskId stepUuid s
     = (JS.Throw error, s)) /\
  (forall plan, planTask c description context = JS.Return plan ->
     exists task s' stored,
       AgentService.executeTaskFromDescription c description context options taskId
         stepUuid s = (JS.Return task, s') /\
       (task, s') =
         executeTask plan context
           (default (mkExecutionOptions None None None None) options) taskId stepUuid s /\
       AgentTask.status task = AgentTaskStatus.Running /\
       (forall j, pending_at task j) /\
       AgentService.getTask taskId s' = Some stored /\
       (AgentTask.steps task = [] ->
        AgentTask.status stored = AgentTaskStatus.Completed /\
        AgentTask.name stored = "Task: "
          +:+ JS.or_string (PlanStep.description <$> head (plan_steps plan)) "Unknown") /\
       (forall first, AgentTask.steps task !! 0 = Some first ->
          (forall i j : nat, stepUuid i = stepUuid j -> i = j) ->
          AgentTask.status stored = AgentTaskStatus.Running /\
          exists running,
            AgentTask.steps stored !! 0 = Some running /\
            AgentStep.status running = AgentStepStatus.Running)).
Proof.
  split.
  - intros error Hplan. unfold AgentService.executeTaskFromDescription. by rewrite Hplan.
  - intros plan Hplan. unfold AgentService.executeTaskFromDescription. rewrite Hplan.
    set (o := default (mkExecutionOptions None None None None) options).
    destruct (executeTask plan context o taskId stepUuid s) as [task s'] eqn:E.
    assert (Htask : task = fst (executeTask plan context o taskId stepUuid s))
      by by rewrite E.
    assert (Hs' : s' = snd (executeTask plan context o taskId stepUuid s)) by by rewrite E.
    cbn [fst executeTask] in Htask.
    pose proof (executeTask_tasks plan context o taskId stepUuid s taskId) as Hstored.
    rewrite decide_True, <- Hs', <- Htask in Hstored by done.
    eexists task, s', _. split; [done |]. split; [done |].
    split; [by rewrite Htask |]. split; [rewrite Htask; apply new_task_pending |].
    split; [exact Hstored |]. split.
    + intros Hnone. unfold enter_task. cbn [run_task]. rewrite Hnone. cbn. by rewrite Htask.
    + intros first Hfirst Hinj.
      match goal with |- context [enter_task ?run0 0 task] =>
        destruct (enter_task_at run0 0 first task) as [Hat _]; try done;
        [ rewrite Htask; by apply new_task_steps_distinct
        | destruct (enter_task_status run0 0 task) as [[Hp _] | [_ Hstatus]] ] end.
      * unfold enter_phase in Hp. cbn [run_task isCancellationRequested] in Hp.
        by rewrite Hfirst in Hp.
      * rewrite Hstatus. split; [by rewrite Htask |].
        rewrite Hat, Hfirst. by eexists.
Qed.

Example description_without_a_model :
  AgentService.executeTaskFromDescription Scenario.no_model "add input validation"
    Sample.workspace None "task-9" Sample.step_uuid Sample.started
  = (JS.Throw no_model_error, Sample.started).
Proof. reflexivity. Qed.

Example description_with_an_empty_plan :
  let '(task, s') :=
    AgentService.executeTaskFromDescription Scenario.idle_model "add input validation"
      Sample.workspace None "task-9" Sample.step_uuid Agent.empty in
  AgentTask.status <$> (match task with JS.Return t => Some t | JS.Throw _ => None end)
  = Some AgentTaskStatus.Running /\
  AgentTask.status <$> AgentService.getTask "task-9" s' = Some AgentTaskStatus.Completed /\
  AgentTask.name <$> AgentService.getTask "task-9" s' = Some "Task: Unknown" /\
  AgentService.getActiveTasks s' = [].
Proof. by vm_compute. Qed.

(** ** [cancelTask], twice *)

(** X26.  [cancelTask] acts once: it does nothing for an identifier that has
    no source in the side table, and it removes the source it finds, so that
    cancelling a task again changes nothing; in particular the second call
    fires no event. *)
Theorem cancelTask_acts_once (taskId : string) (s : Service) :
  (_taskCancellations s !! taskId = None -> cancelTask taskId s = s) /\
  cancelTask taskId (cancelTask taskId s) = cancelTask taskId s.
Proof.
  assert (Hnone : forall s0, _taskCancellations s0 !! taskId = None ->
                             cancelTask taskId s0 = s0).
  { intros s0 H. unfold cancelTask. by rewrite H. }
  split; [apply Hnone |]. apply Hnone.
  rewrite cancelTask_cancellations. apply lookup_delete_eq.
Qed.

(** ** Steps that cannot fail *)

(** X27.  A step of type [test], [edit] or [verify] never fails: in a
    reachable state, when the handler of such a step finishes, the step is
    completed whatever the collaborators did.  The handler of a test step
    catches the failure of the command it runs, and the step is completed
    with [testsRun: false]. *)
Theorem test_edit_and_verify_steps_never_fail (s : Service) (r : nat) (run : Run)
    (i : nat) (step : AgentStep.t) (c : Collaborators) :
  reaches Agent.empty s ->
  runs s !! r = Some run -> phase run = Awaiting i ->
  AgentTask.steps (run_task run) !! i = Some step ->
  AgentStep.type step = AgentStepType.Test \/
  AgentStep.type step = AgentStepType.Edit \/
  AgentStep.type step = AgentStepType.Verify ->
  exists t' handled result,
    AgentService.getTask (AgentTask.id (run_task run)) (settle r c s) = Some t' /\
    AgentTask.steps t' !! i = Some handled /\
    AgentStep.status handled = AgentStepStatus.Completed /\
    AgentStep.result handled = Some result /\
    AgentTask.status t' <> AgentTaskStatus.Failed /\
    (loop_dryRun (run_options run) = false ->
     AgentStep.type step = AgentStepType.Test ->
     forall error,
       executeCommand c "workbench.action.terminal.runSelectedText" = JS.Throw error ->
       result = TestsRun false).
Proof.
  intros Hreach Hrun Hphase Hstep Htype.
  pose proof (reachable_coherent s Hreach) as Hs.
  pose proof (run_steps_distinct s Hs r run Hrun) as Hnodup.
  destruct (settle_awaited s r run i step c Hs Hrun Hphase Hstep)
    as (t & Ht & Hids & Ht1 & Hrun1).
  assert (Hold : is_Some (AgentTask.steps t !! i)).
  { apply lookup_lt_is_Some. rewrite <- (length_fmap AgentStep.id).
    fold (step_ids t). rewrite Hids. unfold step_ids. rewrite length_fmap.
    by eapply lookup_lt_Some. }
  destruct Hold as [old Hold].
  destruct (settle_task_records run c i step t old Hids Hnodup Hstep Hold)
    as (handled & Hhandled & Houtcome).
  assert (Hreturns : exists result,
            executeStep c step (run_context run) (run_options run) = JS.Return result /\
            (loop_dryRun (run_options run) = false ->
             AgentStep.type step = AgentStepType.Test ->
             forall error,
               executeCommand c "workbench.action.terminal.runSelectedText"
               = JS.Throw error ->
               result = TestsRun false)).
  { unfold executeStep. destruct (loop_dryRun (run_options run)); [by eexists |].
    destruct Htype as [-> | [-> | ->]].
    - unfold executeTestStep.
      destruct (executeCommand c "workbench.action.terminal.runSelectedText");
        eexists; (split; [done |]); by intros _ _ error.
    - eexists. split; [done |]. by intros _ ?.
    - eexists. split; [done |]. by intros _ ?. }
  destruct Hreturns as (result & Hresult & Htest).
  rewrite Hresult in Houtcome. destruct Houtcome as [Hstatus Hres].
  exists (settle_task run c i step t), handled, result.
  split; [exact Ht1 |]. do 3 (split; [done |]). split; [| exact Htest].
  destruct (reachable_status s Hreach r run t Hrun Ht) as (_ & _ & Hawaiting).
  unfold settle_task. rewrite Hresult. unfold enter_task.
  destruct (AgentTask.steps (run_task run) !! S i); [| done].
  destruct (isCancellationRequested run); [done |]. cbn.
  rewrite !step_update_status. by destruct (Hawaiting i Hphase) as [-> | ->].
Qed.

Lemma test_edit_and_verify_steps_never_fail_witness :
  exists t' handled,
    AgentService.getTask "task-3"
      (settle 0 Scenario.failing_commands (Sample.started_three Sample.default_options))
    = Some t' /\
    AgentTask.steps t' !! 0 = Some handled /\
    AgentStep.status handled = AgentStepStatus.Completed.
Proof.
  assert (Hreach : reaches Agent.empty (Sample.started_three Sample.default_options)).
  { apply (reaches_run_ops
             [ExecuteTask Sample.three_steps Sample.workspace Sample.default_options
                "task-3" Sample.step_uuid]).
    split; [split; [done | exact step_uuid_inj] | done]. }
  destruct (test_edit_and_verify_steps_never_fail
              (Sample.started_three Sample.default_options) 0 _ 0 _
              Scenario.failing_commands Hreach eq_refl eq_refl eq_refl
              (or_intror (or_introl eq_refl)))
    as (t' & handled & result & Ht' & Hhandled & Hstatus & _).
  exists t', handled. split; [exact Ht' |]. split; [exact Hhandled | exact Hstatus].
Defined.

(** ** Steps that cannot succeed *)

Lemma executeStep_without_model_or_handler (c : Collaborators) (step : AgentStep.t)
    (context : URI) (options : LoopOptions) (message : string) :
  loop_dryRun options = false ->
  (AgentStep.type step = AgentStepType.Generate /\
   (getActiveModel c = None \/ getActiveModel c = Some "") /\
   message = "No AI model configured") \/
  (AgentStep.type step = AgentStepType.Custom /\
   message = "Unknown step type: custom") ->
  exists error,
    executeStep c step context options = JS.Throw error /\
    JS.error_text error = message.
Proof.
  intros Hdry Hcase. unfold executeStep. rewrite Hdry.
  destruct Hcase as [(-> & Hmodel & ->) | (-> & ->)].
  - exists no_model_error. unfold executeGenerateStep.
    by destruct Hmodel as [-> | ->].
  - by eexists.
Qed.

(** X28.  Outside a dry run, a step of type [generate] fails with
    [No AI model configured] when no model is active (none, or the empty
    string), without the provider being asked, and a step of a type that has
    no handler fails with [Unknown step type].  With [stopOnError] the task
    then fails with the name of the step and that message, and its loop
    returns. *)
Theorem step_without_model_or_handler_fails (s : Service) (r : nat) (run : Run)
    (i : nat) (step : AgentStep.t) (c : Collaborators) (message : string) :
  reaches Agent.empty s ->
  runs s !! r = Some run -> phase run = Awaiting i ->
  AgentTask.steps (run_task run) !! i = Some step ->
  loop_dryRun (run_options run) = false ->
  (AgentStep.type step = AgentStepType.Generate /\
   (getActiveModel c = None \/ getActiveModel c = Some "") /\
   message = "No AI model configured") \/
  (AgentStep.type step = AgentStepType.Custom /\
   message = "Unknown step type: custom") ->
  exists t' failed,
    AgentService.getTask (AgentTask.id (run_task run)) (settle r c s) = Some t' /\
    AgentTask.steps t' !! i = Some failed /\
    AgentStep.status failed = AgentStepStatus.Failed /\
    AgentStep.error failed = Some message /\
    (loop_stopOnError (run_options run) = true ->
     AgentTask.status t' = AgentTaskStatus.Failed /\
     AgentTask.error t' =
       Some ("Step " +:+ AgentStep.name step +:+ " failed: " +:+ message) /\
     exists run', runs (settle r c s) !! r = Some run' /\ phase run' = Resolved).
Proof.
  intros Hreach Hrun Hphase Hstep Hdry Hcase.
  pose proof (reachable_coherent s Hreach) as Hs.
  pose proof (run_steps_distinct s Hs r run Hrun) as Hnodup.
  destruct (settle_awaited s r run i step c Hs Hrun Hphase Hstep)
    as (t & Ht & Hids & Ht1 & Hrun1).
  assert (Hold : is_Some (AgentTask.steps t !! i)).
  { apply lookup_lt_is_Some. rewrite <- (length_fmap AgentStep.id).
    fold (step_ids t). rewrite Hids. unfold step_ids. rewrite length_fmap.
    by eapply lookup_lt_Some. }
  destruct Hold as [old Hold].
  destruct (settle_task_records run c i step t old Hids Hnodup Hstep Hold)
    as (failed & Hfailed & Houtcome).
  destruct (executeStep_without_model_or_handler c step (run_context run)
              (run_options run) message Hdry Hcase) as (error & Hthrows & Htext).
  rewrite Hthrows, Htext in Houtcome. destruct Houtcome as [Hstatus Herror].
  exists (settle_task run c i step t), failed.
  split; [exact Ht1 |]. do 3 (split; [done |]). intros Hstop.
  unfold settle_task. rewrite Hthrows, Hstop, Htext. cbn.
  split; [done |]. split; [done |].
  eexists. split; [exact Hrun1 |].
  unfold settle_phase. by rewrite Hthrows, Hstop.
Qed.

Lemma step_without_model_or_handler_fails_witness :
  exists t',
    AgentService.getTask "task-4"
      (settle 0 Scenario.no_model
         (snd (executeTask Scenario.generate_plan Sample.workspace Sample.default_options
                 "task-4" Sample.step_uuid Agent.empty))) = Some t' /\
    AgentTask.status t' = AgentTaskStatus.Failed /\
    AgentTask.error t' = Some "Step write the parser failed: No AI model configured".
Proof.
  assert (Hreach : reaches Agent.empty
                     (snd (executeTask Scenario.generate_plan Sample.workspace
                             Sample.default_options "task-4" Sample.step_uuid
                             Agent.empty))).
  { apply (reaches_run_ops
             [ExecuteTask Scenario.generate_plan Sample.workspace Sample.default_options
                "task-4" Sample.step_uuid]).
    split; [split; [done | exact step_uuid_inj] | done]. }
  destruct (step_without_model_or_handler_fails _ 0 _ 0 _ Scenario.no_model
              "No AI model configured" Hreach eq_refl eq_refl eq_refl eq_refl
              (or_introl (conj eq_refl (conj (or_introl eq_refl) eq_refl))))
    as (t' & failed & Ht' & _ & _ & _ & Hstop).
  destruct (Hstop eq_refl) as (Hstatus & Herror & _).
  exists t'. split; [exact Ht' |]. split; [exact Hstatus | exact Herror].
Defined.
